(** * SoulTrip backend: trips, locations and the nearby search

    A shallow embedding of [trip.py], [locations.py] and the two models of
    [models.py] they use, followed by the properties of the written
    specification that concern them.

    Conventions of the embedding.
    - A request body is the Python value [request.get_json()] returns, with
      Python's truthiness, [in], subscripting and [float()].
    - A Python float is a finite binary64 value, taken as the rational
      number it is, or an infinity or NaN.  Binary64 arithmetic and the
      functions of [math] belong to the platform: the handlers are proved
      correct for every rounding and every C library.  The formula of
      [haversine_distance] is also given over the real numbers, which is
      what a platform with exact arithmetic computes.
    - A [String] column holds text: what it stores for a value that is not
      a string belongs to the platform as well.
    - A handler runs in a state-and-exception monad over the SQLAlchemy
      session.  The session has a committed store and a pending one; only
      [commit] copies the pending store to the committed one, and what is
      pending when the request ends is dropped with the session.
    - An exception no handler catches becomes Flask's 500 response. *)

From Stdlib Require Import ZArith QArith Qreals Reals Machin Lra Lia.
From Stdlib Require Import List String Bool Permutation Sorted.
From Stdlib Require Import DecimalString.
Import ListNotations.

Set Warnings "-register-all".

Local Open Scope string_scope.
Local Open Scope Z_scope.

(* ================================================================== *)
(** * Python values and exceptions *)

Module Py.

(** A Python float: a finite binary64 value, as the rational number it
    is, or one of the three special values. *)
Inductive float : Type :=
| Finite (q : Q)
| PosInf
| NegInf
| NaN.

Bind Scope Q_scope with float.
Coercion Finite : Q >-> float.

(** [a <= b] on floats; every comparison with NaN is false. *)
Definition fle (a b : float) : bool :=
  match a, b with
  | NaN, _ => false
  | _, NaN => false
  | NegInf, _ => true
  | _, PosInf => true
  | Finite p, Finite q => Qle_bool p q
  | _, _ => false
  end.

(** The rational number a finite float is.  The handlers apply it to
    floats that a range test has accepted, which are finite. *)
Definition finite (x : float) : Q :=
  match x with
  | Finite q => q
  | _ => 0%Q
  end.

(** [float(z)] on an integer raises [OverflowError] from 2^1024 - 2^970
    on, the least integer that rounds to 2^1024. *)
Definition float_overflows (z : Z) : bool := 2 ^ 1024 - 2 ^ 970 <=? Z.abs z.
Arguments float_overflows : simpl never.

(** The values [json.loads] produces. *)
Inductive value : Type :=
| VNone
| VBool (b : bool)
| VInt (z : Z)
| VFloat (x : float)
| VStr (s : string)
| VList (l : list value)
| VDict (kv : list (string * value)).

(** The exceptions the handlers can meet. *)
Inductive exn : Type :=
| TypeError
| ValueError
| KeyError
| AttributeError
| OverflowError
| SQLAlchemyError.

Inductive result (A : Type) : Type :=
| Ok (a : A)
| Raise (e : exn).
Arguments Ok {A} & a.
Arguments Raise {A} e.

Definition rbind {A B} (r : result A) (k : A -> result B) : result B :=
  match r with
  | Ok a => k a
  | Raise e => Raise e
  end.

(** [bool(v)] *)
Definition truthy (v : value) : bool :=
  match v with
  | VNone => false
  | VBool b => b
  | VInt z => negb (z =? 0)
  | VFloat (Finite q) => negb (Qeq_bool q 0)
  | VFloat _ => true
  | VStr s => negb (String.eqb s "")
  | VList l => match l with [] => false | _ => true end
  | VDict kv => match kv with [] => false | _ => true end
  end.

Fixpoint lookup (k : string) (kv : list (string * value)) : option value :=
  match kv with
  | [] => None
  | (k', v) :: rest => if String.eqb k k' then Some v else lookup k rest
  end.

Definition is_str (k : string) (v : value) : bool :=
  match v with
  | VStr s => String.eqb s k
  | _ => false
  end.

(** [k in v] for a string [k]: key of a dict, element of a list,
    substring of a string; a [TypeError] on anything else. *)
Definition contains (k : string) (v : value) : result bool :=
  match v with
  | VDict kv => Ok (match lookup k kv with Some _ => true | None => false end)
  | VList l => Ok (existsb (is_str k) l)
  | VStr s =>
      Ok (match String.index 0 k s with Some _ => true | None => false end)
  | _ => Raise TypeError
  end.

(** [all(k in v for k in keys)]: stops at the first key that is absent. *)
Fixpoint all_in (keys : list string) (v : value) : result bool :=
  match keys with
  | [] => Ok true
  | k :: ks =>
      rbind (contains k v) (fun b => if b then all_in ks v else Ok false)
  end.

(** [v[k]] for a string [k]. *)
Definition getitem (v : value) (k : string) : result value :=
  match v with
  | VDict kv =>
      match lookup k kv with
      | Some x => Ok x
      | None => Raise KeyError
      end
  | _ => Raise TypeError
  end.

(** [isinstance(v, list)] *)
Definition is_list (v : value) : bool :=
  match v with
  | VList _ => true
  | _ => false
  end.

(** The elements a [for] loop over a list visits. *)
Definition elements (v : value) : list value :=
  match v with
  | VList l => l
  | _ => []
  end.

(** [not data or not all(k in data for k in keys)] *)
Definition missing (keys : list string) (data : value) : result bool :=
  if negb (truthy data) then Ok true
  else rbind (all_in keys data) (fun b => Ok (negb b)).

End Py.

Import Py.

(* ================================================================== *)
(** * The models ([models.py]) *)

(** [datetime.date]: compared by year, then month, then day. *)
Record date : Type := mkDate { year : Z; month : Z; day : Z }.

Definition date_ltb (a b : date) : bool :=
  (year a <? year b)
  || ((year a =? year b)
      && ((month a <? month b)
          || ((month a =? month b) && (day a <? day b)))).

Module Trip.
Record t : Type := mk {
  id : Z;
  destination : value;
  start_date : date;
  end_date : date;
  user_id : Z
}.
End Trip.

Module Location.
Record t : Type := mk {
  id : Z;
  name : value;
  latitude : Q;
  longitude : Q;
  trip_id : Z
}.
End Location.

(** The two tables, in row order. *)
Record DB : Type := mkDB {
  trips : list Trip.t;
  locations : list Location.t
}.

Definition empty_db : DB := mkDB [] [].

(** What the handlers take from outside the repository: the parsers of the
    Python library and the behaviour of the database engine. *)
Class Platform : Type := {
  (** [float(s)] on a string: [None] stands for [ValueError]. *)
  float_of_str : string -> option float;
  (** [datetime.strptime(s, '%Y-%m-%d').date()]: [None] stands for
      [ValueError]. *)
  strptime_ymd : string -> option date;
  (** The integer key a bound request value denotes when it is compared
      with an integer key column; [None] when it matches no row. *)
  sql_key : value -> option Z;
  (** Whether the driver can bind the value as the parameter of a query;
      when it cannot, the query raises [SQLAlchemyError]. *)
  sql_binds : value -> bool;
  (** The text a [String] column holds, and returns when the row is read
      again, once the value is stored in it; [None] when the engine does
      not store the value. *)
  sql_text : value -> option string;
  (** Whether the engine accepts the commit that would leave the store in
      the given state; otherwise [commit] raises [SQLAlchemyError]. *)
  commit_ok : DB -> bool;
  (** Binary64 arithmetic on the real numbers that finite floats are: the
      rounded sum, difference, product and quotient, [x ** 2], and the
      functions of [math] the distance uses. *)
  fl_add : R -> R -> R;
  fl_sub : R -> R -> R;
  fl_mul : R -> R -> R;
  fl_div : R -> R -> R;
  fl_square : R -> R;
  fl_radians : R -> R;
  fl_sin : R -> R;
  fl_cos : R -> R;
  fl_sqrt : R -> R;
  fl_asin : R -> R
}.

(* ================================================================== *)
(** * The session monad *)

Record Session : Type := mkSession {
  committed : DB;
  pending : DB
}.

Definition M (A : Type) : Type := Session -> result A * Session.

Definition ret {A} (a : A) : M A := fun s => (Ok a, s).

Definition bind {A B} (m : M A) (k : A -> M B) : M B :=
  fun s =>
    match m s with
    | (Ok a, s') => k a s'
    | (Raise e, s') => (Raise e, s')
    end.

Definition raise {A} (e : exn) : M A := fun s => (Raise e, s).

(** A pure Python operation inside a handler. *)
Definition lift {A} (r : result A) : M A := fun s => (r, s).

(** [try: body  except ...: handler e].  A handler re-raises what it does
    not catch. *)
Definition try_except {A} (body : M A) (handler : exn -> M A) : M A :=
  fun s =>
    match body s with
    | (Ok a, s') => (Ok a, s')
    | (Raise e, s') => handler e s'
    end.

Declare Scope session_scope.
Delimit Scope session_scope with session.
Notation "x <- m ;; k" := (bind m (fun x => k))
  (at level 61, m at next level, right associativity) : session_scope.
Notation "m ;; k" := (bind m (fun _ => k))
  (at level 61, right associativity) : session_scope.
Local Open Scope session_scope.

Definition get_pending : M DB := fun s => (Ok (pending s), s).

Definition modify_pending (f : DB -> DB) : M unit :=
  fun s => (Ok tt, mkSession (committed s) (f (pending s))).

(** [db.session.commit()] *)
Definition commit `{Platform} : M unit :=
  fun s =>
    if commit_ok (pending s)
    then (Ok tt, mkSession (pending s) (pending s))
    else (Raise SQLAlchemyError, s).

(** [db.session.rollback()] *)
Definition rollback : M unit :=
  fun s => (Ok tt, mkSession (committed s) (committed s)).

(** A Python [for] loop whose body updates an accumulator. *)
Fixpoint for_each {A B} (l : list A) (body : A -> B -> M B) (acc : B) : M B :=
  match l with
  | [] => ret acc
  | x :: xs => acc' <- body x acc ;; for_each xs body acc'
  end.

(* ================================================================== *)
(** * Queries and unit-of-work operations *)

(** The key the engine gives a new row: one more than the largest key of
    the table. *)
Definition next_key (ids : list Z) : Z := 1 + fold_right Z.max 0 ids.

Definition owned_trip (tid uid : Z) (t : Trip.t) : bool :=
  (Trip.id t =? tid) && (Trip.user_id t =? uid).

(** [Trip.query.filter_by(id=tid, user_id=uid).first()] *)
Definition query_trip (tid uid : Z) : M (option Trip.t) :=
  db <- get_pending ;;
  ret (find (owned_trip tid uid) (trips db)).

(** [Trip.query.get(tid)] *)
Definition query_trip_by_key (tid : Z) : M (option Trip.t) :=
  db <- get_pending ;;
  ret (find (fun t => Trip.id t =? tid) (trips db)).

(** [Location.query.join(Trip)]: each location with the trips whose key is
    its [trip_id]. *)
Definition join_trip (db : DB) : list (Location.t * Trip.t) :=
  flat_map
    (fun l =>
       map (pair l)
           (filter (fun t => Trip.id t =? Location.trip_id l) (trips db)))
    (locations db).

(** [Location.query.join(Trip).filter(Location.id == lid,
    Trip.user_id == uid).first()] *)
Definition query_location (lid uid : Z) : M (option Location.t) :=
  db <- get_pending ;;
  ret (option_map fst
         (find (fun lt => (Location.id (fst lt) =? lid)
                          && (Trip.user_id (snd lt) =? uid))
               (join_trip db))).

(** [Location.query.join(Trip).filter(Trip.user_id == uid).all()] *)
Definition query_user_locations (uid : Z) : M (list Location.t) :=
  db <- get_pending ;;
  ret (map fst
         (filter (fun lt => Trip.user_id (snd lt) =? uid) (join_trip db))).

(** [trip.locations] *)
Definition trip_locations (trip : Trip.t) : M (list Location.t) :=
  db <- get_pending ;;
  ret (filter (fun l => Location.trip_id l =? Trip.id trip) (locations db)).

(** What a [String] column holds for a value assigned to it.  The object
    shows the text once the commit has written the row and the handler
    reads the attribute again, which is where every handler reads it; a
    value the engine does not store stays as it is until the commit
    refuses it. *)
Definition column_text `{Platform} (v : value) : value :=
  match sql_text v with
  | Some s => VStr s
  | None => v
  end.

(** [db.session.add(Trip(...))]; the object gets its key. *)
Definition add_trip `{Platform} (destination : value)
    (start_date end_date : date) (user_id : Z) : M Trip.t :=
  db <- get_pending ;;
  let trip :=
    Trip.mk (next_key (map Trip.id (trips db)))
            (column_text destination) start_date end_date user_id in
  modify_pending (fun d => mkDB (trips d ++ [trip]) (locations d)) ;;
  ret trip.

(** [db.session.add(Location(...))] *)
Definition add_location `{Platform} (name : value) (latitude longitude : Q)
    (trip_id : Z) : M Location.t :=
  db <- get_pending ;;
  let location :=
    Location.mk (next_key (map Location.id (locations db)))
                (column_text name) latitude longitude trip_id in
  modify_pending (fun d => mkDB (trips d) (locations d ++ [location])) ;;
  ret location.

(** An attribute assignment on a loaded trip: the session's row with that
    key takes the object's new state. *)
Definition setattr_trip (trip : Trip.t) : M Trip.t :=
  modify_pending
    (fun d =>
       mkDB (map (fun t => if Trip.id t =? Trip.id trip then trip else t)
                 (trips d))
            (locations d)) ;;
  ret trip.

Definition setattr_location (location : Location.t) : M Location.t :=
  modify_pending
    (fun d =>
       mkDB (trips d)
            (map (fun l =>
                    if Location.id l =? Location.id location
                    then location else l)
                 (locations d))) ;;
  ret location.

(** [db.session.delete(trip)] *)
Definition delete_trip_row (trip : Trip.t) : M unit :=
  modify_pending
    (fun d =>
       mkDB (filter (fun t => negb (Trip.id t =? Trip.id trip)) (trips d))
            (locations d)).

(** [db.session.delete(location)] *)
Definition delete_location_row (location : Location.t) : M unit :=
  modify_pending
    (fun d =>
       mkDB (trips d)
            (filter (fun l => negb (Location.id l =? Location.id location))
                    (locations d))).

(* ================================================================== *)
(** * Responses *)

(** One entry of the nearby search. *)
Module Nearby.
Record t : Type := mk {
  id : Z;
  name : value;
  latitude : Q;
  longitude : Q;
  distance : Q;
  trip_id : Z
}.
End Nearby.

(** The JSON documents the handlers return, one constructor for each shape
    of [jsonify] call, with the objects the document is made of.  Constant
    messages of the successful answers are left out; [DatabaseError] is
    [{'error': 'Database error: ...'}]; the count of [BulkAdded] is the
    number in its message, [len(added_locations)]; [Unauthorized] and
    [InternalServerError] are the answers of the framework. *)
Inductive body : Type :=
| Error (msg : string)
| Message (msg : string)
| DatabaseError
| TripCreated (trip : Trip.t)
| TripDetail (trip : Trip.t) (locs : list Location.t)
| TripUpdated (trip : Trip.t)
| LocationList (locs : list Location.t)
| LocationCreated (location : Location.t)
| LocationAdded (location : Location.t)
| LocationDetail (location : Location.t) (trip : Trip.t)
| LocationUpdated (location : Location.t)
| NearbyResult (latitude longitude radius : float)
               (nearby : list Nearby.t) (count : nat)
| BulkAdded (count : nat) (locs : list Location.t)
| Unauthorized
| InternalServerError (e : exn).

Definition response : Type := body * Z.

(** One request: the handler runs in a fresh session over the store, and
    only what it committed remains. *)
Definition run (h : M response) (db : DB) : response * DB :=
  match h (mkSession db db) with
  | (Ok r, s) => (r, committed s)
  | (Raise e, s) => ((InternalServerError e, 500), committed s)
  end.

(** [@login_required]: [current_user] is the identity of the session. *)
Definition login_required (current_user : option Z)
    (h : Z -> M response) : M response :=
  match current_user with
  | Some uid => h uid
  | None => ret (Unauthorized, 401)
  end.

(* ================================================================== *)
(** * Conversions of request values *)

Section Conversions.
Context `{Platform}.

(** [float(v)].  An integer in the range of binary64 is taken as its own
    float: the tests that follow reject every integer that rounding would
    change. *)
Definition py_float (v : value) : result float :=
  match v with
  | VFloat x => Ok x
  | VInt z =>
      if float_overflows z then Raise OverflowError
      else Ok (Finite (inject_Z z))
  | VBool b => Ok (Finite (if b then 1%Q else 0%Q))
  | VStr s =>
      match float_of_str s with
      | Some x => Ok x
      | None => Raise ValueError
      end
  | _ => Raise TypeError
  end.

(** [datetime.strptime(v, '%Y-%m-%d').date()] *)
Definition py_strptime (v : value) : result date :=
  match v with
  | VStr s =>
      match strptime_ymd s with
      | Some d => Ok d
      | None => Raise ValueError
      end
  | _ => Raise TypeError
  end.

End Conversions.

(** [-90 <= lat <= 90] and [-180 <= lng <= 180] *)
Definition lat_in_range (lat : float) : bool :=
  fle (-90) lat && fle lat 90.

Definition lng_in_range (lng : float) : bool :=
  fle (-180) lng && fle lng 180.

(* ================================================================== *)
(** * Trip routes ([trip.py]) *)

Section TripRoutes.
Context `{Platform}.

Definition trip_handler (e : exn) : M response :=
  match e with
  | ValueError => ret (Error "Invalid date format. Use YYYY-MM-DD", 400)
  | SQLAlchemyError => rollback ;; ret (DatabaseError, 500)
  | _ => raise e
  end.

(** POST /api/trips *)
Definition create_trip (uid : Z) (data : value) : M response :=
  miss <- lift (missing ["destination"; "start_date"; "end_date"] data) ;;
  if miss then ret (Error "Missing required trip fields", 400) else
  try_except
    (sv <- lift (getitem data "start_date") ;;
     start_date <- lift (py_strptime sv) ;;
     ev <- lift (getitem data "end_date") ;;
     end_date <- lift (py_strptime ev) ;;
     if date_ltb end_date start_date
     then ret (Error "End date cannot be before start date", 400)
     else
       destination <- lift (getitem data "destination") ;;
       trip <- add_trip destination start_date end_date uid ;;
       commit ;;
       ret (TripCreated trip, 201))
    trip_handler.

(** GET /api/trips/<trip_id> *)
Definition get_trip (uid trip_id : Z) : M response :=
  found <- query_trip trip_id uid ;;
  match found with
  | None => ret (Error "Trip not found or access denied", 404)
  | Some trip =>
      locs <- trip_locations trip ;;
      ret (TripDetail trip locs, 200)
  end.

Definition with_destination (trip : Trip.t) (v : value) : Trip.t :=
  Trip.mk (Trip.id trip) (column_text v) (Trip.start_date trip)
          (Trip.end_date trip) (Trip.user_id trip).

Definition with_start_date (trip : Trip.t) (d : date) : Trip.t :=
  Trip.mk (Trip.id trip) (Trip.destination trip) d (Trip.end_date trip)
          (Trip.user_id trip).

Definition with_end_date (trip : Trip.t) (d : date) : Trip.t :=
  Trip.mk (Trip.id trip) (Trip.destination trip) (Trip.start_date trip) d
          (Trip.user_id trip).

(** PUT /api/trips/<trip_id> *)
Definition update_trip (uid trip_id : Z) (data : value) : M response :=
  found <- query_trip trip_id uid ;;
  match found with
  | None => ret (Error "Trip not found or access denied", 404)
  | Some trip =>
      if negb (truthy data) then ret (Error "No data provided", 400) else
      try_except
        (has_destination <- lift (contains "destination" data) ;;
         trip <- (if has_destination
                  then v <- lift (getitem data "destination") ;;
                       setattr_trip (with_destination trip v)
                  else ret trip) ;;
         has_start <- lift (contains "start_date" data) ;;
         trip <- (if has_start
                  then v <- lift (getitem data "start_date") ;;
                       d <- lift (py_strptime v) ;;
                       setattr_trip (with_start_date trip d)
                  else ret trip) ;;
         has_end <- lift (contains "end_date" data) ;;
         trip <- (if has_end
                  then v <- lift (getitem data "end_date") ;;
                       d <- lift (py_strptime v) ;;
                       setattr_trip (with_end_date trip d)
                  else ret trip) ;;
         if date_ltb (Trip.end_date trip) (Trip.start_date trip)
         then ret (Error "End date cannot be before start date", 400)
         else
           commit ;;
           ret (TripUpdated trip, 200))
        trip_handler
  end.

(** DELETE /api/trips/<trip_id> *)
Definition delete_trip (uid trip_id : Z) : M response :=
  found <- query_trip trip_id uid ;;
  match found with
  | None => ret (Error "Trip not found or access denied", 404)
  | Some trip =>
      try_except
        (children <- trip_locations trip ;;
         for_each children
                  (fun location _ => delete_location_row location) tt ;;
         delete_trip_row trip ;;
         commit ;;
         ret (Message
                "Trip and all associated locations deleted successfully",
              200))
        (fun e =>
           match e with
           | SQLAlchemyError => rollback ;; ret (DatabaseError, 500)
           | _ => raise e
           end)
  end.

End TripRoutes.

(* ================================================================== *)
(** * Utility functions ([locations.py]) *)

Section Geo.
Local Open Scope R_scope.

(** [math.radians] *)
Definition radians (x : R) : R := x * (PI / 180).

(** The formula of [haversine_distance] over the real numbers: what a
    platform with exact arithmetic computes. *)
Definition haversine_distance (lat1 lon1 lat2 lon2 : R) : R :=
  let lat1 := radians lat1 in
  let lon1 := radians lon1 in
  let lat2 := radians lat2 in
  let lon2 := radians lon2 in
  let dlon := lon2 - lon1 in
  let dlat := lat2 - lat1 in
  let a := sin (dlat / 2) ^ 2 + cos lat1 * cos lat2 * sin (dlon / 2) ^ 2 in
  let c := 2 * asin (sqrt a) in
  let r := 6371 in
  c * r.

(** The integer nearest to [x], a tie going to the even one. *)
Definition round_half_even (x : R) : Z :=
  let n := Zfloor x in
  let f := x - IZR n in
  if Rlt_dec f (1 / 2) then n
  else if Rlt_dec (1 / 2) f then (n + 1)%Z
  else if Z.even n then n else (n + 1)%Z.

(** [round(x, 2)] *)
Definition round2 (x : R) : Q := Qmake (round_half_even (x * 100)) 100.

End Geo.

Section Binary64.
Context `{Platform}.

(** [math.sqrt] and [math.asin]: a [ValueError] outside the domain. *)
Definition py_sqrt (x : R) : result R :=
  if Rlt_dec x 0 then Raise ValueError else Ok (fl_sqrt x).

Definition py_asin (x : R) : result R :=
  if Rlt_dec x (-1) then Raise ValueError
  else if Rlt_dec 1 x then Raise ValueError
  else Ok (fl_asin x).

(** [haversine_distance] as the interpreter evaluates it, one rounded
    operation after the other. *)
Definition haversine_distance_binary64 (lat1 lon1 lat2 lon2 : R)
    : result R :=
  let lat1 := fl_radians lat1 in
  let lon1 := fl_radians lon1 in
  let lat2 := fl_radians lat2 in
  let lon2 := fl_radians lon2 in
  let dlon := fl_sub lon2 lon1 in
  let dlat := fl_sub lat2 lat1 in
  let a := fl_add (fl_square (fl_sin (fl_div dlat 2)))
                  (fl_mul (fl_mul (fl_cos lat1) (fl_cos lat2))
                          (fl_square (fl_sin (fl_div dlon 2)))) in
  rbind (py_sqrt a) (fun root =>
  rbind (py_asin root) (fun angle =>
  let c := fl_mul 2 angle in
  let r := 6371%R in
  Ok (fl_mul c r))).

End Binary64.

(* ================================================================== *)
(** * Location routes ([locations.py]) *)

(** [list.sort(key=lambda x: x['distance'])]: a stable sort that compares
    keys with [<] only.  An element goes before the first one of the sorted
    rest whose key is not smaller than its own. *)
Fixpoint sort_insert (x : Nearby.t) (l : list Nearby.t) : list Nearby.t :=
  match l with
  | [] => [x]
  | y :: ys =>
      if Qle_bool (Nearby.distance x) (Nearby.distance y)
      then x :: y :: ys
      else y :: sort_insert x ys
  end.

Definition sort_by_distance (l : list Nearby.t) : list Nearby.t :=
  fold_right sort_insert [] l.

(** [request.args.get(key, default)] *)
Fixpoint args_get (args : list (string * string)) (key : string)
    (default : value) : value :=
  match args with
  | [] => default
  | (k, v) :: rest =>
      if String.eqb key k then VStr v else args_get rest key default
  end.

(** The distance of the formula between a centre and a location, and the
    entry of the location with that distance. *)
Definition distance_to (lat lng : Q) (location : Location.t) : R :=
  haversine_distance (Q2R lat) (Q2R lng)
                     (Q2R (Location.latitude location))
                     (Q2R (Location.longitude location)).

Definition nearby_entry (lat lng : Q) (location : Location.t) : Nearby.t :=
  Nearby.mk (Location.id location) (Location.name location)
            (Location.latitude location) (Location.longitude location)
            (round2 (distance_to lat lng location))
            (Location.trip_id location).

(** The distance the nearby search computes for a location. *)
Definition computed_distance `{Platform} (lat lng : float)
    (location : Location.t) : result R :=
  haversine_distance_binary64
    (Q2R (finite lat)) (Q2R (finite lng))
    (Q2R (Location.latitude location))
    (Q2R (Location.longitude location)).

(** The entry of a location found at a distance. *)
Definition entry (location : Location.t) (distance : R) : Nearby.t :=
  Nearby.mk (Location.id location) (Location.name location)
            (Location.latitude location) (Location.longitude location)
            (round2 distance)
            (Location.trip_id location).

(** [distance <= radius] *)
Definition in_radius (radius : float) (distance : R) : bool :=
  match radius with
  | Finite q => if Rle_dec distance (Q2R q) then true else false
  | PosInf => true
  | _ => false
  end.

(** The body of the loop of [get_nearby_locations]. *)
Definition nearby_step `{Platform} (lat lng radius : float)
    (location : Location.t) (nearby : list Nearby.t) : M (list Nearby.t) :=
  distance <- lift (computed_distance lat lng location) ;;
  if in_radius radius distance
  then ret (nearby ++ [entry location distance])%list
  else ret nearby.

Section LocationRoutes.
Context `{Platform}.

Definition location_handler (e : exn) : M response :=
  match e with
  | ValueError => ret (Error "Invalid coordinate format", 400)
  | SQLAlchemyError => rollback ;; ret (DatabaseError, 500)
  | _ => raise e
  end.

(** [Trip.query.filter_by(id=v, user_id=uid).first()] for a key [v]
    taken from the request body.  The row found has the key [v] denotes,
    which is also what a new location stores as its [trip_id]. *)
Definition query_trip_value (v : value) (uid : Z) : M (option Trip.t) :=
  match sql_key v with
  | Some k => query_trip k uid
  | None => if sql_binds v then ret None else raise SQLAlchemyError
  end.

(** GET /api/locations *)
Definition get_all_locations (uid : Z) : M response :=
  locs <- query_user_locations uid ;;
  ret (LocationList locs, 200).

(** POST /api/locations/create *)
Definition create_location (uid : Z) (data : value) : M response :=
  miss <- lift (missing ["name"; "latitude"; "longitude"; "trip_id"] data) ;;
  if miss then ret (Error "Missing required location fields", 400) else
  tv <- lift (getitem data "trip_id") ;;
  found <- query_trip_value tv uid ;;
  match found with
  | None => ret (Error "Trip not found or access denied", 404)
  | Some trip =>
      try_except
        (lv <- lift (getitem data "latitude") ;;
         lat <- lift (py_float lv) ;;
         gv <- lift (getitem data "longitude") ;;
         lng <- lift (py_float gv) ;;
         if negb (lat_in_range lat) || negb (lng_in_range lng)
         then ret (Error "Invalid coordinates", 400)
         else
           nm <- lift (getitem data "name") ;;
           location <- add_location nm (finite lat) (finite lng)
                                    (Trip.id trip) ;;
           commit ;;
           ret (LocationCreated location, 201))
        location_handler
  end.

(** POST /api/trips/<trip_id>/locations *)
Definition add_location_to_trip (uid trip_id : Z) (data : value)
    : M response :=
  found <- query_trip trip_id uid ;;
  match found with
  | None => ret (Error "Trip not found or access denied", 404)
  | Some trip =>
      miss <- lift (missing ["name"; "latitude"; "longitude"] data) ;;
      if miss then ret (Error "Missing required location fields", 400) else
      try_except
        (lv <- lift (getitem data "latitude") ;;
         lat <- lift (py_float lv) ;;
         gv <- lift (getitem data "longitude") ;;
         lng <- lift (py_float gv) ;;
         if negb (lat_in_range lat) || negb (lng_in_range lng)
         then ret (Error "Invalid coordinates", 400)
         else
           nm <- lift (getitem data "name") ;;
           location <- add_location nm (finite lat) (finite lng) trip_id ;;
           commit ;;
           ret (LocationAdded location, 201))
        location_handler
  end.

(** GET /api/trips/<trip_id>/locations *)
Definition get_trip_locations (uid trip_id : Z) : M response :=
  found <- query_trip trip_id uid ;;
  match found with
  | None => ret (Error "Trip not found or access denied", 404)
  | Some trip =>
      locs <- trip_locations trip ;;
      ret (LocationList locs, 200)
  end.

(** GET /api/locations/<location_id> *)
Definition get_location (uid location_id : Z) : M response :=
  found <- query_location location_id uid ;;
  match found with
  | None => ret (Error "Location not found or access denied", 404)
  | Some location =>
      parent <- query_trip_by_key (Location.trip_id location) ;;
      match parent with
      | None => raise AttributeError
      | Some trip => ret (LocationDetail location trip, 200)
      end
  end.

Definition with_name (l : Location.t) (v : value) : Location.t :=
  Location.mk (Location.id l) (column_text v) (Location.latitude l)
              (Location.longitude l) (Location.trip_id l).

Definition with_latitude (l : Location.t) (q : Q) : Location.t :=
  Location.mk (Location.id l) (Location.name l) q
              (Location.longitude l) (Location.trip_id l).

Definition with_longitude (l : Location.t) (q : Q) : Location.t :=
  Location.mk (Location.id l) (Location.name l) (Location.latitude l)
              q (Location.trip_id l).

(** The three conditional assignments of [update_location]; [inl] is an
    early [return]. *)
Definition update_location_fields (data : value) (location : Location.t)
    : M (response + Location.t) :=
  has_name <- lift (contains "name" data) ;;
  location <- (if has_name
               then v <- lift (getitem data "name") ;;
                    setattr_location (with_name location v)
               else ret location) ;;
  has_lat <- lift (contains "latitude" data) ;;
  step <- (if has_lat
           then v <- lift (getitem data "latitude") ;;
                lat <- lift (py_float v) ;;
                if negb (lat_in_range lat)
                then ret (inl (Error "Invalid latitude", 400))
                else l <- setattr_location
                            (with_latitude location (finite lat)) ;;
                     ret (inr l)
           else ret (inr location)) ;;
  match step with
  | inl r => ret (inl r)
  | inr location =>
      has_lng <- lift (contains "longitude" data) ;;
      if has_lng
      then v <- lift (getitem data "longitude") ;;
           lng <- lift (py_float v) ;;
           if negb (lng_in_range lng)
           then ret (inl (Error "Invalid longitude", 400))
           else l <- setattr_location
                       (with_longitude location (finite lng)) ;;
                ret (inr l)
      else ret (inr location)
  end.

(** PUT /api/locations/<location_id> *)
Definition update_location (uid location_id : Z) (data : value)
    : M response :=
  found <- query_location location_id uid ;;
  match found with
  | None => ret (Error "Location not found or access denied", 404)
  | Some location =>
      if negb (truthy data) then ret (Error "No data provided", 400) else
      try_except
        (step <- update_location_fields data location ;;
         match step with
         | inl r => ret r
         | inr location =>
             commit ;;
             ret (LocationUpdated location, 200)
         end)
        location_handler
  end.

(** DELETE /api/locations/<location_id> *)
Definition delete_location (uid location_id : Z) : M response :=
  found <- query_location location_id uid ;;
  match found with
  | None => ret (Error "Location not found or access denied", 404)
  | Some location =>
      try_except
        (delete_location_row location ;;
         commit ;;
         ret (Message "Location deleted successfully", 200))
        (fun e =>
           match e with
           | SQLAlchemyError => rollback ;; ret (DatabaseError, 500)
           | _ => raise e
           end)
  end.

(** GET /api/locations/nearby *)
Definition get_nearby_locations (uid : Z) (args : list (string * string))
    : M response :=
  try_except
    (lat <- lift (py_float (args_get args "latitude" VNone)) ;;
     lng <- lift (py_float (args_get args "longitude" VNone)) ;;
     radius <- lift (py_float (args_get args "radius" (VFloat 10))) ;;
     if negb (lat_in_range lat) || negb (lng_in_range lng)
        || fle radius 0
     then ret (Error "Invalid coordinates or radius", 400)
     else
       locs <- query_user_locations uid ;;
       nearby <- for_each locs (nearby_step lat lng radius) [] ;;
       let nearby := sort_by_distance nearby in
       ret (NearbyResult lat lng radius nearby (List.length nearby), 200))
    (fun e =>
       match e with
       | ValueError | TypeError => ret (Error "Invalid parameters", 400)
       | _ => raise e
       end).

(** The body of the loop of [bulk_add_locations]; returning the list
    unchanged is [continue]. *)
Definition bulk_item (trip_id : Z) (loc_data : value)
    (added_locations : list Location.t) : M (list Location.t) :=
  complete <- lift (all_in ["name"; "latitude"; "longitude"] loc_data) ;;
  if negb complete then ret added_locations else
  try_except
    (lv <- lift (getitem loc_data "latitude") ;;
     lat <- lift (py_float lv) ;;
     gv <- lift (getitem loc_data "longitude") ;;
     lng <- lift (py_float gv) ;;
     if negb (lat_in_range lat) || negb (lng_in_range lng)
     then ret added_locations
     else
       nm <- lift (getitem loc_data "name") ;;
       location <- add_location nm (finite lat) (finite lng) trip_id ;;
       ret ((added_locations ++ [location])%list))
    (fun e =>
       match e with
       | ValueError => ret added_locations
       | _ => raise e
       end).

(** POST /api/trips/<trip_id>/locations/bulk *)
Definition bulk_add_locations (uid trip_id : Z) (data : value)
    : M response :=
  found <- query_trip trip_id uid ;;
  match found with
  | None => ret (Error "Trip not found or access denied", 404)
  | Some trip =>
      if negb (truthy data) || negb (is_list data)
      then ret (Error "Invalid data format. Expected list of locations",
                400)
      else
        try_except
          (added_locations <-
             for_each (elements data) (bulk_item trip_id) [] ;;
           match added_locations with
           | [] => ret (Error "No valid locations provided", 400)
           | _ =>
               commit ;;
               ret (BulkAdded (List.length added_locations)
                              added_locations,
                    201)
           end)
          (fun e =>
             match e with
             | SQLAlchemyError => rollback ;; ret (DatabaseError, 500)
             | _ => raise e
             end)
  end.

End LocationRoutes.

(* ================================================================== *)
(** * The application as a transition system *)

(** The routes of [trip.py] and [locations.py] on single trips and on
    locations.  The three remaining routes of [trip.py] (the list of trips,
    the statistics and the upcoming trips) only read. *)
Inductive request : Type :=
| POST_trips (data : value)
| GET_trip (trip_id : Z)
| PUT_trip (trip_id : Z) (data : value)
| DELETE_trip (trip_id : Z)
| GET_locations
| POST_locations_create (data : value)
| POST_trip_locations (trip_id : Z) (data : value)
| GET_trip_locations (trip_id : Z)
| GET_location (location_id : Z)
| PUT_location (location_id : Z) (data : value)
| DELETE_location (location_id : Z)
| GET_locations_nearby (args : list (string * string))
| POST_trip_locations_bulk (trip_id : Z) (data : value).

Section Application.
Context `{Platform}.

Definition dispatch (uid : Z) (r : request) : M response :=
  match r with
  | POST_trips data => create_trip uid data
  | GET_trip trip_id => get_trip uid trip_id
  | PUT_trip trip_id data => update_trip uid trip_id data
  | DELETE_trip trip_id => delete_trip uid trip_id
  | GET_locations => get_all_locations uid
  | POST_locations_create data => create_location uid data
  | POST_trip_locations trip_id data =>
      add_location_to_trip uid trip_id data
  | GET_trip_locations trip_id => get_trip_locations uid trip_id
  | GET_location location_id => get_location uid location_id
  | PUT_location location_id data => update_location uid location_id data
  | DELETE_location location_id => delete_location uid location_id
  | GET_locations_nearby args => get_nearby_locations uid args
  | POST_trip_locations_bulk trip_id data =>
      bulk_add_locations uid trip_id data
  end.

Definition serve (current_user : option Z) (r : request) (db : DB)
    : response * DB :=
  run (login_required current_user (fun uid => dispatch uid r)) db.

(** The stores the application can be in, starting from empty tables. *)
Inductive reachable : DB -> Prop :=
| reachable_empty : reachable empty_db
| reachable_serve (db : DB) (current_user : option Z) (r : request) :
    reachable db -> reachable (snd (serve current_user r db)).

End Application.

(* ================================================================== *)
(** * Vocabulary of the specification *)

(** ** Keys and ownership *)

(** Keys are unique in both tables. *)
Definition unique_keys (db : DB) : Prop :=
  NoDup (map Trip.id (trips db)) /\ NoDup (map Location.id (locations db)).

Definition trip_absent (db : DB) (tid : Z) : Prop :=
  forall t, In t (trips db) -> Trip.id t <> tid.

Definition trip_of_other (db : DB) (tid uid : Z) : Prop :=
  exists t, In t (trips db) /\ Trip.id t = tid /\ Trip.user_id t <> uid.

(** No trip with this key belongs to this user: it is absent or another
    user's. *)
Definition trip_not_owned (db : DB) (tid uid : Z) : Prop :=
  forall t, In t (trips db) -> Trip.id t = tid -> Trip.user_id t <> uid.

Definition location_absent (db : DB) (lid : Z) : Prop :=
  forall l, In l (locations db) -> Location.id l <> lid.


(** No location with this key is reached through a trip of this user. *)
Definition location_not_owned (db : DB) (lid uid : Z) : Prop :=
  forall l t,
    In l (locations db) -> In t (trips db) ->
    Location.id l = lid -> Trip.id t = Location.trip_id l ->
    Trip.user_id t <> uid.

(** The locations a user owns through their trips, in row order. *)
Definition owned_by (db : DB) (uid : Z) (l : Location.t) : bool :=
  existsb (fun t => (Trip.id t =? Location.trip_id l)
                    && (Trip.user_id t =? uid))
          (trips db).

Definition owned_locations (db : DB) (uid : Z) : list Location.t :=
  filter (owned_by db uid) (locations db).

Definition not_found_trip : response :=
  (Error "Trip not found or access denied", 404).

Definition not_found_location : response :=
  (Error "Location not found or access denied", 404).

(** ** Request bodies *)

(** A JSON object has every one of the given keys. *)
Definition has_keys (keys : list string) (kv : list (string * value)) : bool :=
  forallb (fun k => match lookup k kv with Some _ => true | None => false end)
          keys.

(** The value a request body provides for a field, if any. *)
Definition provided (k : string) (data : value) : option value :=
  match contains k data with
  | Ok true =>
      match getitem data k with
      | Ok v => Some v
      | Raise _ => None
      end
  | _ => None
  end.

(** ** Deleting a trip *)

(** The rows of a location table that survive the deletion, one by one, of
    the given objects. *)
Definition delete_rows (children locs : list Location.t) : list Location.t :=
  fold_left
    (fun acc c =>
       filter (fun l => negb (Location.id l =? Location.id c)) acc)
    children locs.

(** The children of a trip, and the store without the trip and them. *)
Definition children_of (db : DB) (tid : Z) : list Location.t :=
  filter (fun l => Location.trip_id l =? tid) (locations db).

Definition without_trip (db : DB) (tid : Z) : DB :=
  mkDB (filter (fun t => negb (Trip.id t =? tid)) (trips db))
       (filter (fun l => negb (Location.trip_id l =? tid)) (locations db)).

Definition trip_deleted : response :=
  (Message "Trip and all associated locations deleted successfully", 200).

(** ** Updates *)

Section Patches.
Context `{Platform}.

(** A row with the fields of the body written over it. *)
Definition patched_trip (data : value) (t : Trip.t) : Trip.t :=
  Trip.mk (Trip.id t)
          (match provided "destination" data with
           | Some v => column_text v
           | None => Trip.destination t
           end)
          (match provided "start_date" data with
           | Some v =>
               match py_strptime v with
               | Ok d => d
               | Raise _ => Trip.start_date t
               end
           | None => Trip.start_date t
           end)
          (match provided "end_date" data with
           | Some v =>
               match py_strptime v with
               | Ok d => d
               | Raise _ => Trip.end_date t
               end
           | None => Trip.end_date t
           end)
          (Trip.user_id t).

Definition patched_location (data : value) (l : Location.t) : Location.t :=
  Location.mk (Location.id l)
              (match provided "name" data with
               | Some v => column_text v
               | None => Location.name l
               end)
              (match provided "latitude" data with
               | Some v =>
                   match py_float v with
                   | Ok x => finite x
                   | Raise _ => Location.latitude l
                   end
               | None => Location.latitude l
               end)
              (match provided "longitude" data with
               | Some v =>
                   match py_float v with
                   | Ok x => finite x
                   | Raise _ => Location.longitude l
                   end
               | None => Location.longitude l
               end)
              (Location.trip_id l).

(** Every date the body provides parses. *)
Definition date_valid (k : string) (data : value) : bool :=
  match provided k data with
  | Some v =>
      match py_strptime v with
      | Ok _ => true
      | Raise _ => false
      end
  | None => true
  end.

(** Every coordinate the body provides is a number in range. *)
Definition coordinate_valid (k : string) (in_range : float -> bool)
    (data : value) : bool :=
  match provided k data with
  | Some v =>
      match py_float v with
      | Ok x => in_range x
      | Raise _ => false
      end
  | None => true
  end.

End Patches.

(** The store with the rows of one key rewritten. *)
Definition rewrite_trip (f : Trip.t -> Trip.t) (tid : Z) (db : DB) : DB :=
  mkDB (map (fun t => if Trip.id t =? tid then f t else t) (trips db))
       (locations db).

Definition rewrite_location (f : Location.t -> Location.t) (lid : Z)
    (db : DB) : DB :=
  mkDB (trips db)
       (map (fun l => if Location.id l =? lid then f l else l) (locations db)).

(** [Trip.end_date >= Trip.start_date] *)
Definition dates_ordered (t : Trip.t) : Prop :=
  date_ltb (Trip.end_date t) (Trip.start_date t) = false.

Definition dates_rejected : response :=
  (Error "End date cannot be before start date", 400).

(** ** Reachable stores *)

(** What holds of every store the application reaches. *)
Definition consistent (db : DB) : Prop :=
  unique_keys db /\ Forall dates_ordered (trips db).

(** A location table grown at its end by rows with new keys. *)
Definition extends (locs locs' : list Location.t) : Prop :=
  exists new,
    locs' = (locs ++ new)%list /\
    (NoDup (map Location.id locs) -> NoDup (map Location.id locs')).

(** ** The nearby search *)

(** ** Properties of binary64 arithmetic *)

(** Rounding to nearest is symmetric under negation and does not depend
    on the order of the operands of a product; the sine of the C library
    is odd and its cosine even. *)
Definition sign_symmetric (P : Platform) : Prop :=
  (forall x y, fl_sub (- x) (- y) = - fl_sub x y)%R /\
  (forall x y, fl_sub y x = - fl_sub x y)%R /\
  (forall x y, fl_div (- x) y = - fl_div x y)%R /\
  (forall x y, fl_mul x y = fl_mul y x) /\
  (forall x, fl_square (- x) = fl_square x)%R /\
  (forall x, fl_radians (- x) = - fl_radians x)%R /\
  (forall x, fl_sin (- x) = - fl_sin x)%R /\
  (forall x, fl_cos (- x) = fl_cos x)%R.

(** What is zero is computed as zero. *)
Definition exact_at_zero (P : Platform) : Prop :=
  (forall x, fl_sub x x = 0)%R /\
  (fl_div 0 2 = 0)%R /\
  (fl_sin 0 = 0)%R /\
  (fl_square 0 = 0)%R /\
  (forall x, fl_mul x 0 = 0)%R /\
  (forall x, fl_mul 0 x = 0)%R /\
  (fl_add 0 0 = 0)%R /\
  (fl_sqrt 0 = 0)%R /\
  (fl_asin 0 = 0)%R.

(** The distances the platform computes from a centre for the locations
    of a list, in order, or the first error. *)
Fixpoint measure `{Platform} (lat lng : float) (locs : list Location.t)
    : result (list (Location.t * R)) :=
  match locs with
  | [] => Ok []
  | l :: ls =>
      rbind (computed_distance lat lng l) (fun d =>
      rbind (measure lat lng ls) (fun ds => Ok ((l, d) :: ds)))
  end.

(** [dist] is the distance the platform computes from the centre for each
    location of the list: none of the computations raises. *)
Definition computes `{Platform} (lat lng : float) (dist : Location.t -> R)
    (locs : list Location.t) : Prop :=
  forall l, In l locs -> computed_distance lat lng l = Ok (dist l).

(** The test of the nearby search and the entry it makes, for a location
    whose distance is given by [dist]. *)
Definition qualifies (radius : float) (dist : Location.t -> R)
    (l : Location.t) : bool :=
  in_radius radius (dist l).

Definition entry_at (dist : Location.t -> R) (l : Location.t) : Nearby.t :=
  entry l (dist l).

(** The test of the nearby search on the distance of the formula. *)
Definition within_radius (lat lng radius : Q) (l : Location.t) : bool :=
  in_radius radius (distance_to lat lng l).

(** The order of the reported distances. *)
Definition by_distance (a b : Nearby.t) : Prop :=
  (Nearby.distance a <= Nearby.distance b)%Q.

(** Two entries have the same reported distance. *)
Definition same_distance (d : Q) (e : Nearby.t) : bool :=
  Qeq_bool (Nearby.distance e) d.

(** ** Items of a bulk request *)



Section BulkItems.
Context `{Platform}.



End BulkItems.


(** The rows made of the surviving items, keyed in order after the rows
    of the table. *)
Fixpoint bulk_rows `{Platform} (tid : Z) (locs : list Location.t)
    (fields : list (value * Q * Q)) : list Location.t :=
  match fields with
  | [] => []
  | (nm, lat, lng) :: rest =>
      let l := Location.mk (next_key (map Location.id locs))
                           (column_text nm) lat lng tid in
      l :: bulk_rows tid (locs ++ [l]) rest
  end.

(* ================================================================== *)
(** * A concrete platform and stores for examples *)

(** Parsers defined on the literals the examples use, a key binding that
    takes JSON integers, and a store that accepts every commit. *)
Definition sample_float_of_str (s : string) : option float :=
  if String.eqb s "0" then Some (Finite 0)
  else if String.eqb s "5" then Some (Finite 5)
  else if String.eqb s "35.01" then Some (Finite (3501 # 100))
  else if String.eqb s "135.71" then Some (Finite (13571 # 100))
  else if String.eqb s "nan" then Some NaN
  else if String.eqb s "inf" then Some PosInf
  else None.

Definition sample_strptime (s : string) : option date :=
  if String.eqb s "2024-05-01" then Some (mkDate 2024 5 1)
  else if String.eqb s "2024-05-10" then Some (mkDate 2024 5 10)
  else if String.eqb s "2024-04-01" then Some (mkDate 2024 4 1)
  else None.

Definition sample_sql_key (v : value) : option Z :=
  match v with
  | VInt z => Some z
  | _ => None
  end.

(** The driver binds scalars; a text column holds a string as it is, an
    integer in decimal and a boolean as 0 or 1. *)
Definition sample_sql_binds (v : value) : bool :=
  match v with
  | VList _ | VDict _ => false
  | _ => true
  end.

Definition sample_sql_text (v : value) : option string :=
  match v with
  | VStr s => Some s
  | VInt z => Some (NilZero.string_of_int (Z.to_int z))
  | VBool b => Some (if b then "1" else "0")
  | _ => None
  end.

(** The sample platform computes exactly: its arithmetic and its
    functions are those of the real numbers. *)
Definition sample_platform : Platform :=
  {| float_of_str := sample_float_of_str;
     strptime_ymd := sample_strptime;
     sql_key := sample_sql_key;
     sql_binds := sample_sql_binds;
     sql_text := sample_sql_text;
     commit_ok := fun _ => true;
     fl_add := Rplus;
     fl_sub := Rminus;
     fl_mul := Rmult;
     fl_div := Rdiv;
     fl_square := fun x => (x ^ 2)%R;
     fl_radians := radians;
     fl_sin := sin;
     fl_cos := cos;
     fl_sqrt := sqrt;
     fl_asin := asin |}.

Definition kyoto : value :=
  VDict [("destination", VStr "Kyoto");
         ("start_date", VStr "2024-05-01");
         ("end_date", VStr "2024-05-10")].

(** User 1 has created the Kyoto trip. *)
Definition db_kyoto : DB :=
  snd (run (@create_trip sample_platform 1 kyoto) empty_db).

(** ... and a location in it. *)
Definition kinkakuji : value :=
  VDict [("name", VStr "Kinkaku-ji");
         ("latitude", VFloat (350 # 10));
         ("longitude", VFloat (1357 # 10))].

Definition db_kinkakuji : DB :=
  snd (run (@add_location_to_trip sample_platform 1 1 kinkakuji) db_kyoto).

Definition loc_kinkakuji : Location.t :=
  Location.mk 1 (VStr "Kinkaku-ji") (350 # 10) (1357 # 10) 1.

(** A request of user 2 that names the trip of user 1 and lacks a name. *)
Definition nameless_in_foreign_trip : value :=
  VDict [("trip_id", VInt 1); ("latitude", VInt 200); ("longitude", VInt 0)].


(** Bodies for the bulk route.  [bulk_mixed]: two valid items and three
    invalid ones (a latitude of 200, a missing name, a longitude that is
    not a number).  [bulk_null]: a valid item and one whose latitude is
    [null]. *)
Definition bulk_mixed : value :=
  VList [VDict [("name", VStr "A"); ("latitude", VFloat (350 # 10));
                ("longitude", VFloat (1357 # 10))];
         VDict [("name", VStr "B"); ("latitude", VInt 200);
                ("longitude", VInt 0)];
         VDict [("latitude", VInt 1); ("longitude", VInt 1)];
         VDict [("name", VStr "D"); ("latitude", VInt 1);
                ("longitude", VStr "east")];
         VDict [("name", VStr "E"); ("latitude", VInt (-10));
                ("longitude", VInt 20)]].

Definition bulk_invalid : value :=
  VList [VDict [("name", VStr "B"); ("latitude", VInt 200);
                ("longitude", VInt 0)];
         VDict [("latitude", VInt 1); ("longitude", VInt 1)]].

Definition bulk_null : value :=
  VList [VDict [("name", VStr "A"); ("latitude", VFloat (350 # 10));
                ("longitude", VFloat (1357 # 10))];
         VDict [("name", VStr "B"); ("latitude", VNone);
                ("longitude", VInt 1)]].

(** Requests of user 1 on the Kyoto trip (1 May to 10 May 2024): an end
    date before the start, alone; and a new name with a latitude out of
    range for the location. *)
Definition end_in_april : value := VDict [("end_date", VStr "2024-04-01")].

Definition kyoto_backwards : value :=
  VDict [("destination", VStr "Kyoto");
         ("start_date", VStr "2024-05-10");
         ("end_date", VStr "2024-05-01")].

Definition rename_and_misplace : value :=
  VDict [("name", VStr "Golden Pavilion"); ("latitude", VInt 200)].


(** User 1 has a trip with two locations on the equator: the first a
    hundred-thousandth of a degree east of the origin, the second at the
    origin. *)
Definition loc_east : Location.t :=
  Location.mk 1 (VStr "east") 0 (1 # 100000) 1.

Definition loc_origin : Location.t :=
  Location.mk 2 (VStr "origin") 0 0 1.

Definition db_equator : DB :=
  mkDB [Trip.mk 1 (VStr "Equator") (mkDate 2024 5 1) (mkDate 2024 5 10) 1]
       [loc_east; loc_origin].

Definition args_origin : list (string * string) :=
  [("latitude", "0"); ("longitude", "0")].

(** The same trip with a third location, a tenth of a degree east of the
    origin, stored first; and a search from the origin with a radius of
    35.01 km. *)
Definition loc_far : Location.t :=
  Location.mk 3 (VStr "far") 0 (1 # 10) 1.

Definition db_equator_far : DB :=
  mkDB [Trip.mk 1 (VStr "Equator") (mkDate 2024 5 1) (mkDate 2024 5 10) 1]
       [loc_far; loc_east; loc_origin].

Definition args_origin_wide : list (string * string) :=
  [("latitude", "0"); ("longitude", "0"); ("radius", "35.01")].

(** The scenario of the specification: centre (35.01, 135.71), radius 5. *)
Definition args_kyoto : list (string * string) :=
  [("latitude", "35.01"); ("longitude", "135.71"); ("radius", "5")].

(* ================================================================== *)
(** * The listing route of [trip.py] *)

(** One element of the list of GET /api/trips: a trip and its
    [location_count]. *)
Definition trip_summary : Type := (Trip.t * nat)%type.

(** GET /api/trips *)
Definition get_trips (uid : Z) : M (list trip_summary * Z) :=
  db <- get_pending ;;
  summaries <-
    for_each (filter (fun t => Trip.user_id t =? uid) (trips db))
             (fun trip acc =>
                locs <- trip_locations trip ;;
                ret (acc ++ [(trip, List.length locs)])%list)
             [] ;;
  ret (summaries, 200).

(** A computation of the session run on a store: its result and what it
    committed. *)
Definition observe {A} (h : M A) (db : DB) : result A * DB :=
  let (r, s) := h (mkSession db db) in (r, committed s).

(* ================================================================== *)
(** * Further vocabulary *)

(** ** What a request can do to the store *)

Definition coordinates_in_range (l : Location.t) : Prop :=
  lat_in_range (Location.latitude l) = true /\
  lng_in_range (Location.longitude l) = true.

(** Every location refers to a trip of the store. *)
Definition no_orphans (db : DB) : Prop :=
  forall l, In l (locations db) ->
            exists t, In t (trips db) /\ Trip.id t = Location.trip_id l.

(** A store the application can be in: unique keys, ordered dates,
    coordinates in range, no location without its trip. *)
Definition sound (db : DB) : Prop :=
  consistent db /\
  Forall coordinates_in_range (locations db) /\
  no_orphans db.

(** The rows that do not belong to a user: the trips of the others, and
    the locations that are not under a trip of the user. *)
Definition others_trips (db : DB) (uid : Z) : list Trip.t :=
  filter (fun t => negb (Trip.user_id t =? uid)) (trips db).

Definition others_locations (db : DB) (uid : Z) : list Location.t :=
  filter (fun l => negb (owned_by db uid l)) (locations db).

Definition keeps_trip_identity (f : Trip.t -> Trip.t) : Prop :=
  forall t, Trip.id (f t) = Trip.id t /\ Trip.user_id (f t) = Trip.user_id t.

Definition keeps_location_identity (f : Location.t -> Location.t) : Prop :=
  forall l, Location.id (f l) = Location.id l /\
            Location.trip_id (f l) = Location.trip_id l.

(** The change one request of user [uid] makes to the store. *)
Inductive effect (uid : Z) (db : DB) : DB -> Prop :=
| effect_none : effect uid db db
| effect_trip_created (t : Trip.t) :
    Trip.id t = next_key (map Trip.id (trips db)) ->
    Trip.user_id t = uid ->
    dates_ordered t ->
    effect uid db (mkDB (trips db ++ [t]) (locations db))
| effect_trip_updated (t : Trip.t) (f : Trip.t -> Trip.t) :
    In t (trips db) -> Trip.user_id t = uid ->
    keeps_trip_identity f -> dates_ordered (f t) ->
    effect uid db (rewrite_trip f (Trip.id t) db)
| effect_trip_deleted (t : Trip.t) :
    In t (trips db) -> Trip.user_id t = uid ->
    effect uid db (without_trip db (Trip.id t))
| effect_locations_added (t : Trip.t) (new : list Location.t) :
    In t (trips db) -> Trip.user_id t = uid ->
    Forall (fun l => Location.trip_id l = Trip.id t /\
                     coordinates_in_range l) new ->
    NoDup (map Location.id (locations db ++ new)) ->
    effect uid db (mkDB (trips db) (locations db ++ new))
| effect_location_updated (l : Location.t) (f : Location.t -> Location.t) :
    In l (locations db) -> owned_by db uid l = true ->
    keeps_location_identity f ->
    (coordinates_in_range l -> coordinates_in_range (f l)) ->
    effect uid db (rewrite_location f (Location.id l) db)
| effect_location_deleted (l : Location.t) :
    In l (locations db) -> owned_by db uid l = true ->
    effect uid db
           (mkDB (trips db)
                 (filter (fun x => negb (Location.id x =? Location.id l))
                         (locations db))).

(** A location table grown at its end by rows of one trip, with new keys
    and coordinates in range. *)
Definition grown (tid : Z) (locs locs' : list Location.t) : Prop :=
  exists new,
    locs' = (locs ++ new)%list /\
    (NoDup (map Location.id locs) -> NoDup (map Location.id locs')) /\
    Forall (fun l => Location.trip_id l = tid /\ coordinates_in_range l) new.

(** ** Creating and deleting *)

(** The answer of the standalone creation route for an answer of the
    route of the trip: the same, under the other label. *)
Definition as_created (out : response * DB) : response * DB :=
  match out with
  | ((LocationAdded l, status), db) => ((LocationCreated l, status), db)
  | _ => out
  end.

Definition location_deleted : response :=
  (Message "Location deleted successfully", 200).

Definition without_location (db : DB) (lid : Z) : DB :=
  mkDB (trips db)
       (filter (fun x => negb (Location.id x =? lid)) (locations db)).

(** What the two creation routes do once the trip is found and the keys
    are present, with the values of the three keys; [label] is the shape
    of the successful answer. *)
Definition store_location `{Platform} (label : Location.t -> body)
    (nm lv gv : value) (tid : Z) : M response :=
  try_except
    (lat <- lift (py_float lv) ;;
     lng <- lift (py_float gv) ;;
     if negb (lat_in_range lat) || negb (lng_in_range lng)
     then ret (Error "Invalid coordinates", 400)
     else
       location <- add_location nm (finite lat) (finite lng) tid ;;
       commit ;;
       ret (label location, 201))
    location_handler.

(** The sample platform with one more literal, the default radius. *)
Definition decimal_platform : Platform :=
  {| float_of_str := fun s => if String.eqb s "10" then Some (Finite 10)
                              else sample_float_of_str s;
     strptime_ymd := sample_strptime;
     sql_key := sample_sql_key;
     sql_binds := sample_sql_binds;
     sql_text := sample_sql_text;
     commit_ok := fun _ => true;
     fl_add := Rplus;
     fl_sub := Rminus;
     fl_mul := Rmult;
     fl_div := Rdiv;
     fl_square := fun x => (x ^ 2)%R;
     fl_radians := radians;
     fl_sin := sin;
     fl_cos := cos;
     fl_sqrt := sqrt;
     fl_asin := asin |}.

(** Two computed distances are in order up to one hundredth. *)
Definition nearly_ascending (dist : Location.t -> R) (a b : Location.t)
    : Prop :=
  (dist a <= dist b + 1 / 100)%R.

(** The entries of a search result, whatever the answer is. *)
Definition nearby_of (out : response * DB) : list Nearby.t :=
  match out with
  | ((NearbyResult _ _ _ nearby _, _), _) => nearby
  | _ => []
  end.

(** More requests of user 1 on the Kyoto trip: a second location given
    with its trip key, one with a latitude of 91 degrees, and the search
    of [args_kyoto] with a wider radius. *)
Definition ryoanji_fields : list (string * value) :=
  [("name", VStr "Ryoan-ji"); ("latitude", VFloat (3503 # 100));
   ("longitude", VFloat (13572 # 100)); ("trip_id", VInt 1)].

Definition north_of_the_pole : list (string * value) :=
  [("name", VStr "x"); ("latitude", VInt 91); ("longitude", VInt 0)].

Definition args_kyoto_wide : list (string * string) :=
  [("latitude", "35.01"); ("longitude", "135.71"); ("radius", "35.01")].

(** Searches of user 1 from the origin with a radius that reads as NaN and
    as infinity; a location whose latitude is an integer beyond the range
    of floats; and a platform whose square root is off by 2, so that every
    distance it computes ends in the [ValueError] of [math.asin]. *)
Definition args_origin_nan : list (string * string) :=
  [("latitude", "0"); ("longitude", "0"); ("radius", "nan")].

Definition args_origin_inf : list (string * string) :=
  [("latitude", "0"); ("longitude", "0"); ("radius", "inf")].

Definition beyond_floats : list (string * value) :=
  [("name", VStr "x"); ("latitude", VInt (10 ^ 400)); ("longitude", VInt 0)].

Definition off_platform : Platform :=
  {| float_of_str := sample_float_of_str;
     strptime_ymd := sample_strptime;
     sql_key := sample_sql_key;
     sql_binds := sample_sql_binds;
     sql_text := sample_sql_text;
     commit_ok := fun _ => true;
     fl_add := Rplus;
     fl_sub := Rminus;
     fl_mul := Rmult;
     fl_div := Rdiv;
     fl_square := fun x => (x ^ 2)%R;
     fl_radians := radians;
     fl_sin := sin;
     fl_cos := cos;
     fl_sqrt := fun x => (sqrt x + 2)%R;
     fl_asin := asin |}.

(** More requests of user 1: the Kyoto trip is to start on 1 April, and
    its location is to be named by the number 123. *)
Definition start_in_april : value :=
  VDict [("start_date", VStr "2024-04-01")].

Definition rename_to_number : value := VDict [("name", VInt 123)].

(* ================================================================== *)
(** * Lemmas on queries *)

Lemma db_kyoto_eq :
  db_kyoto =
  mkDB [Trip.mk 1 (VStr "Kyoto") (mkDate 2024 5 1) (mkDate 2024 5 10) 1] [].
Proof. reflexivity. Qed.

Lemma db_kinkakuji_eq :
  db_kinkakuji =
  mkDB [Trip.mk 1 (VStr "Kyoto") (mkDate 2024 5 1) (mkDate 2024 5 10) 1]
       [Location.mk 1 (VStr "Kinkaku-ji") (350 # 10) (1357 # 10) 1].
Proof. vm_compute. reflexivity. Qed.

Lemma find_none_iff {A} (f : A -> bool) (l : list A) :
  find f l = None <-> forall x, In x l -> f x = false.
Proof.
  split.
  - intros Hf x Hx. exact (find_none f l Hf x Hx).
  - induction l as [|a l IH]; intros Hall; simpl; [reflexivity|].
    rewrite (Hall a (or_introl eq_refl)).
    apply IH. intros x Hx. apply Hall. now right.
Qed.

(** With unique keys, two rows of a table with the same key are the same
    row. *)
Lemma unique_key_row {A} (key : A -> Z) (l : list A) (x y : A) :
  NoDup (map key l) -> In x l -> In y l -> key x = key y -> x = y.
Proof.
  induction l as [|a l IH]; simpl; intros Hnd Hx Hy Hk; [contradiction|].
  inversion Hnd as [|? ? Hnotin Hnd']; subst.
  destruct Hx as [->|Hx], Hy as [->|Hy]; try reflexivity.
  - exfalso. apply Hnotin. rewrite Hk. now apply in_map.
  - exfalso. apply Hnotin. rewrite <- Hk. now apply in_map.
  - now apply IH.
Qed.

Lemma trip_absent_not_owned db tid uid :
  trip_absent db tid -> trip_not_owned db tid uid.
Proof. intros Ha t Ht Hid. now elim (Ha t Ht). Qed.


Lemma query_trip_not_owned db tid uid :
  trip_not_owned db tid uid -> find (owned_trip tid uid) (trips db) = None.
Proof.
  intros Hno. apply find_none_iff. intros t Ht. unfold owned_trip.
  destruct (Trip.id t =? tid) eqn:Eid; [|reflexivity].
  apply Z.eqb_eq in Eid. simpl. apply Z.eqb_neq. now apply Hno.
Qed.

Lemma query_trip_found db tid uid t :
  find (owned_trip tid uid) (trips db) = Some t ->
  In t (trips db) /\ Trip.id t = tid /\ Trip.user_id t = uid.
Proof.
  intros Hf. apply find_some in Hf. destruct Hf as [Hin Hb].
  unfold owned_trip in Hb. apply andb_true_iff in Hb.
  destruct Hb as [H1 H2]. apply Z.eqb_eq in H1, H2. auto.
Qed.

Lemma in_join_trip db l t :
  In (l, t) (join_trip db) <->
  In l (locations db) /\ In t (trips db) /\ Trip.id t = Location.trip_id l.
Proof.
  unfold join_trip. rewrite in_flat_map. split.
  - intros (l0 & Hl0 & Hin). apply in_map_iff in Hin.
    destruct Hin as (t0 & Heq & Hin). inversion Heq; subst.
    apply filter_In in Hin. destruct Hin as [Hin Hb].
    apply Z.eqb_eq in Hb. auto.
  - intros (Hl & Ht & Hid). exists l. split; [assumption|].
    apply in_map. apply filter_In. split; [assumption|].
    now apply Z.eqb_eq.
Qed.

Lemma location_absent_not_owned db lid uid :
  location_absent db lid -> location_not_owned db lid uid.
Proof. intros Ha l t Hl _ Hid. now elim (Ha l Hl). Qed.


Lemma query_location_not_owned db lid uid :
  location_not_owned db lid uid ->
  find (fun lt => (Location.id (fst lt) =? lid)
                  && (Trip.user_id (snd lt) =? uid))
       (join_trip db) = None.
Proof.
  intros Hno. apply find_none_iff. intros [l t] Hin. simpl.
  apply in_join_trip in Hin. destruct Hin as (Hl & Ht & Hk).
  destruct (Location.id l =? lid) eqn:Eid; [|reflexivity].
  apply Z.eqb_eq in Eid. simpl. apply Z.eqb_neq. now apply (Hno l t).
Qed.

Lemma get_trip_not_owned db uid tid :
  trip_not_owned db tid uid ->
  run (get_trip uid tid) db = (not_found_trip, db).
Proof.
  intros Hno. unfold run, get_trip, query_trip, bind, get_pending, ret.
  simpl. rewrite query_trip_not_owned by assumption. reflexivity.
Qed.

Lemma get_location_not_owned db uid lid :
  location_not_owned db lid uid ->
  run (get_location uid lid) db = (not_found_location, db).
Proof.
  intros Hno.
  unfold run, get_location, query_location, bind, get_pending, ret.
  simpl. rewrite query_location_not_owned by assumption. reflexivity.
Qed.


Lemma unique_keys_db_kinkakuji : unique_keys db_kinkakuji.
Proof.
  rewrite db_kinkakuji_eq. split; simpl;
    repeat constructor; simpl; tauto.
Qed.


(* ================================================================== *)
(** * The distance function *)

Section Distance.
Local Open Scope R_scope.

Lemma sin_half_sqr_swap (x y : R) :
  sin ((y - x) / 2) ^ 2 = sin ((x - y) / 2) ^ 2.
Proof.
  replace ((y - x) / 2) with (- ((x - y) / 2)) by field.
  rewrite sin_neg. ring.
Qed.

(** C8. The distance from a point to itself is zero, and the distance
    does not depend on the order of the two points. *)
Theorem haversine_distance_zero_and_symmetric :
  (forall lat lon : R, haversine_distance lat lon lat lon = 0) /\
  (forall lat1 lon1 lat2 lon2 : R,
      haversine_distance lat1 lon1 lat2 lon2
      = haversine_distance lat2 lon2 lat1 lon1).
Proof.
  split.
  - intros lat lon. unfold haversine_distance.
    replace (radians lat - radians lat) with 0 by ring.
    replace (radians lon - radians lon) with 0 by ring.
    replace (0 / 2) with 0 by field.
    rewrite sin_0.
    replace (0 ^ 2 + cos (radians lat) * cos (radians lat) * 0 ^ 2)
      with 0 by ring.
    rewrite sqrt_0, asin_0. ring.
  - intros lat1 lon1 lat2 lon2. unfold haversine_distance.
    rewrite (sin_half_sqr_swap (radians lat1) (radians lat2)).
    rewrite (sin_half_sqr_swap (radians lon1) (radians lon2)).
    rewrite (Rmult_comm (cos (radians lat1)) (cos (radians lat2))).
    reflexivity.
Qed.

End Distance.

(* ================================================================== *)
(** * Creating a location: the order of the checks *)

Lemma all_in_dict keys kv :
  all_in keys (VDict kv) = Ok (has_keys keys kv).
Proof.
  induction keys as [|k ks IH]; simpl; [reflexivity|].
  destruct (lookup k kv); simpl; [exact IH|reflexivity].
Qed.

Lemma missing_dict keys kv :
  missing keys (VDict kv)
  = Ok (negb (has_keys keys kv) || negb (truthy (VDict kv))).
Proof.
  unfold missing. destruct kv as [|p kv]; simpl.
  - now rewrite orb_true_r.
  - rewrite all_in_dict. simpl. now rewrite orb_false_r.
Qed.

Lemma has_keys_false keys kv k :
  In k keys -> lookup k kv = None -> has_keys keys kv = false.
Proof.
  intros Hin Hk. unfold has_keys.
  destruct (forallb _ keys) eqn:E; [|reflexivity].
  rewrite forallb_forall in E. specialize (E k Hin).
  now rewrite Hk in E.
Qed.

Lemma has_keys_lookup keys kv k :
  has_keys keys kv = true -> In k keys -> exists v, lookup k kv = Some v.
Proof.
  unfold has_keys. rewrite forallb_forall. intros Hall Hin.
  specialize (Hall k Hin). destruct (lookup k kv) as [v|]; [|discriminate].
  now exists v.
Qed.

Lemma has_keys_truthy keys kv k :
  has_keys keys kv = true -> In k keys -> truthy (VDict kv) = true.
Proof.
  intros Hk Hin. destruct (has_keys_lookup _ _ _ Hk Hin) as [v Hv].
  destruct kv; [discriminate|reflexivity].
Qed.

Section Creation.
Context `{Platform}.

(** C10. The standalone creation route answers 400 to a JSON object
    that lacks one of [name], [latitude], [longitude], [trip_id],
    whatever trip it names and whoever owns that trip, and stores
    nothing. *)
Theorem create_location_requires_fields_first
    (db : DB) (uid : Z) (kv : list (string * value)) (k : string) :
  In k ["name"; "latitude"; "longitude"; "trip_id"] ->
  lookup k kv = None ->
  run (create_location uid (VDict kv)) db
  = ((Error "Missing required location fields", 400), db).
Proof.
  intros Hin Hk.
  unfold run, create_location, bind, lift. rewrite missing_dict.
  rewrite (has_keys_false _ _ _ Hin Hk). reflexivity.
Qed.

Lemma add_location_to_trip_not_owned db uid tid data :
  trip_not_owned db tid uid ->
  run (add_location_to_trip uid tid data) db = (not_found_trip, db).
Proof.
  intros Hno.
  unfold run, add_location_to_trip, query_trip, bind, get_pending, ret.
  simpl. rewrite query_trip_not_owned by assumption. reflexivity.
Qed.

Lemma create_location_not_owned db uid tid kv tv :
  has_keys ["name"; "latitude"; "longitude"; "trip_id"] kv = true ->
  lookup "trip_id" kv = Some tv ->
  sql_key tv = Some tid ->
  trip_not_owned db tid uid ->
  run (create_location uid (VDict kv)) db = (not_found_trip, db).
Proof.
  intros Hk Htv Hkey Hno.
  unfold run, create_location, bind, lift. rewrite missing_dict, Hk.
  rewrite (has_keys_truthy _ _ "name" Hk) by (simpl; tauto).
  unfold getitem. rewrite Htv. simpl.
  unfold query_trip_value. rewrite Hkey.
  unfold query_trip, bind, get_pending, ret. simpl.
  rewrite query_trip_not_owned by assumption. reflexivity.
Qed.


End Creation.

Lemma kyoto_is_foreign_to_user_2 : trip_of_other db_kyoto 1 2.
Proof.
  rewrite db_kyoto_eq. eexists. split; [left; reflexivity|].
  simpl. split; [reflexivity|lia].
Qed.


Lemma create_location_requires_fields_first_witness :
  In "name" ["name"; "latitude"; "longitude"; "trip_id"] /\
  trip_of_other db_kyoto 1 2 /\
  run (@create_location sample_platform 2 nameless_in_foreign_trip) db_kyoto
  = ((Error "Missing required location fields", 400), db_kyoto).
Proof.
  split; [simpl; tauto|]. split; [exact kyoto_is_foreign_to_user_2|].
  apply (@create_location_requires_fields_first sample_platform db_kyoto 2
           _ "name"); [simpl; tauto|reflexivity].
Defined.



(* ================================================================== *)
(** * Deleting a trip *)

Lemma delete_rows_filter children locs :
  delete_rows children locs
  = filter (fun l =>
              forallb (fun c => negb (Location.id l =? Location.id c))
                      children)
           locs.
Proof.
  unfold delete_rows. revert locs.
  induction children as [|c cs IH]; intros locs; simpl.
  - induction locs as [|l ls IHl]; simpl; [reflexivity|]. now f_equal.
  - rewrite IH. clear IH.
    induction locs as [|l ls IHl]; simpl; [reflexivity|].
    destruct (Location.id l =? Location.id c); simpl.
    + exact IHl.
    + destruct (forallb _ cs); simpl; now rewrite IHl.
Qed.

Lemma for_each_delete_rows children s :
  for_each children (fun location _ => delete_location_row location) tt s
  = (Ok tt,
     mkSession (committed s)
               (mkDB (trips (pending s))
                     (delete_rows children (locations (pending s))))).
Proof.
  revert s. induction children as [|c cs IH]; intros s; simpl.
  - unfold ret. destruct s as [cm [ts ls]]. reflexivity.
  - unfold bind at 1. unfold delete_location_row at 1, modify_pending.
    rewrite IH. reflexivity.
Qed.

(** With unique keys, deleting the children of a trip one by one removes
    the rows that refer to the trip and no other. *)
Lemma delete_children_rows db tid :
  NoDup (map Location.id (locations db)) ->
  delete_rows (children_of db tid) (locations db)
  = filter (fun l => negb (Location.trip_id l =? tid)) (locations db).
Proof.
  intros Hnd. rewrite delete_rows_filter. apply filter_ext_in.
  intros l Hl. destruct (Location.trip_id l =? tid) eqn:E; simpl.
  - apply not_true_is_false. intros Hall. rewrite forallb_forall in Hall.
    assert (Hc : In l (children_of db tid))
      by (apply filter_In; split; assumption).
    specialize (Hall l Hc). rewrite Z.eqb_refl in Hall. discriminate.
  - apply forallb_forall. intros c Hc. apply filter_In in Hc.
    destruct Hc as [Hc Ec]. apply negb_true_iff, Z.eqb_neq. intros Hid.
    assert (l = c) by
        (apply (unique_key_row Location.id (locations db)); assumption).
    subst c. congruence.
Qed.

Lemma filter_length_split {A} (f : A -> bool) (l : list A) :
  (List.length (filter (fun x => negb (f x)) l) + List.length (filter f l)
   = List.length l)%nat.
Proof.
  induction l as [|a l IH]; simpl; [reflexivity|].
  destruct (f a); simpl; lia.
Qed.

Lemma without_trip_absent db tid : trip_absent (without_trip db tid) tid.
Proof.
  intros t Ht. simpl in Ht. apply filter_In in Ht. destruct Ht as [_ Hb].
  now apply negb_true_iff, Z.eqb_neq in Hb.
Qed.

Lemma without_trip_child_absent db tid l :
  NoDup (map Location.id (locations db)) ->
  In l (children_of db tid) ->
  location_absent (without_trip db tid) (Location.id l).
Proof.
  intros Hnd Hl l' Hl' Hid. simpl in Hl'.
  apply filter_In in Hl. destruct Hl as [Hl El].
  apply filter_In in Hl'. destruct Hl' as [Hl' El'].
  assert (l' = l) by
      (apply (unique_key_row Location.id (locations db)); assumption).
  subst l'. rewrite El in El'. discriminate.
Qed.

Section Deletion.
Context `{Platform}.

Lemma delete_trip_found db uid tid trip :
  find (owned_trip tid uid) (trips db) = Some trip ->
  run (delete_trip uid tid) db
  = let after :=
      mkDB (filter (fun t => negb (Trip.id t =? tid)) (trips db))
           (delete_rows (children_of db tid) (locations db)) in
    if commit_ok after then (trip_deleted, after)
    else ((DatabaseError, 500), db).
Proof.
  intros Hf. destruct (query_trip_found _ _ _ _ Hf) as (_ & Hid & _).
  unfold run, delete_trip, query_trip.
  unfold bind at 1. unfold bind at 1. unfold get_pending, ret. simpl.
  rewrite Hf. unfold try_except, trip_locations.
  unfold bind at 1. unfold bind at 1. unfold get_pending, ret. simpl.
  unfold bind at 1. rewrite for_each_delete_rows. simpl.
  unfold bind at 1. unfold delete_trip_row at 1, modify_pending at 1. simpl.
  unfold bind at 1. unfold commit at 1. simpl.
  rewrite Hid. fold (children_of db tid).
  destruct (commit_ok _); reflexivity.
Qed.

(** C3. Deleting a trip of the caller, with unique keys in the store: the
    handler deletes the child rows itself, one by one, then the trip row
    (which alone leaves the location table as it is), and commits once.
    When the store accepts the commit, the trip and all its [N] locations
    are gone and no other row is, and fetching the trip or any of those
    locations answers 404 for every user; when it does not accept it,
    nothing is deleted. *)
Theorem delete_trip_cascades (db : DB) (uid tid : Z) (trip : Trip.t) :
  unique_keys db ->
  In trip (trips db) -> Trip.id trip = tid -> Trip.user_id trip = uid ->
  let children := children_of db tid in
  let after := without_trip db tid in
  (forall s, locations (pending (snd (delete_trip_row trip s)))
             = locations (pending s)) /\
  (commit_ok after = false ->
   run (delete_trip uid tid) db = ((DatabaseError, 500), db)) /\
  (commit_ok after = true ->
   run (delete_trip uid tid) db = (trip_deleted, after) /\
   (List.length (locations after) + List.length children
    = List.length (locations db))%nat /\
   (forall t, In t (trips after) <-> In t (trips db) /\ Trip.id t <> tid) /\
   (forall l, In l (locations after) <->
              In l (locations db) /\ ~ In l children) /\
   (forall u, run (get_trip u tid) after = (not_found_trip, after)) /\
   (forall u l, In l children ->
                run (get_location u (Location.id l)) after
                = (not_found_location, after))).
Proof.
  intros [Hnt Hnl] Hin Hid Hu children after.
  assert (Hfind : exists t', find (owned_trip tid uid) (trips db) = Some t').
  { destruct (find (owned_trip tid uid) (trips db)) as [t'|] eqn:E;
      [now exists t'|].
    rewrite find_none_iff in E. specialize (E trip Hin).
    unfold owned_trip in E. rewrite Hid, Hu, !Z.eqb_refl in E.
    discriminate. }
  destruct Hfind as [t' Hf].
  pose proof (delete_trip_found db uid tid t' Hf) as Hrun.
  cbv zeta in Hrun. rewrite delete_children_rows in Hrun by assumption.
  fold (without_trip db tid) in Hrun. fold after in Hrun.
  split; [intros s; reflexivity|]. split.
  - intros Hc. now rewrite Hc in Hrun.
  - intros Hc. rewrite Hc in Hrun. split; [exact Hrun|]. split.
    { unfold after, children, children_of, without_trip. simpl.
      apply (filter_length_split (fun l => Location.trip_id l =? tid)). }
    split.
    { intros t. unfold after. simpl. rewrite filter_In, negb_true_iff.
      now rewrite Z.eqb_neq. }
    split.
    { intros l. unfold after, children, children_of. simpl.
      rewrite !filter_In, negb_true_iff. split.
      - intros [Hl E]. split; [assumption|]. intros [_ E']. congruence.
      - intros [Hl Hn]. split; [assumption|].
        destruct (Location.trip_id l =? tid) eqn:E; [|reflexivity].
        elim Hn. now split. }
    split.
    { intros u. apply get_trip_not_owned, trip_absent_not_owned.
      apply without_trip_absent. }
    { intros u l Hl.
      apply get_location_not_owned, location_absent_not_owned.
      now apply without_trip_child_absent. }
Qed.

End Deletion.

Lemma delete_trip_cascades_witness :
  unique_keys db_kinkakuji /\
  run (@delete_trip sample_platform 1 1) db_kinkakuji
  = (trip_deleted, empty_db) /\
  run (get_trip 1 1) empty_db = (not_found_trip, empty_db) /\
  run (get_location 1 1) empty_db = (not_found_location, empty_db).
Proof.
  pose proof unique_keys_db_kinkakuji as Hu.
  split; [exact Hu|].
  assert (Hin : In (Trip.mk 1 (VStr "Kyoto") (mkDate 2024 5 1)
                            (mkDate 2024 5 10) 1)
                   (trips db_kinkakuji))
    by (rewrite db_kinkakuji_eq; left; reflexivity).
  destruct (@delete_trip_cascades sample_platform db_kinkakuji 1 1 _ Hu Hin
              eq_refl eq_refl) as (_ & _ & Hok).
  destruct (Hok eq_refl) as (Hrun & _ & _ & _ & Ht & Hl).
  split; [exact Hrun|]. split.
  - exact (Ht 1).
  - apply (Hl 1 (Location.mk 1 (VStr "Kinkaku-ji") (350 # 10) (1357 # 10) 1)).
    rewrite db_kinkakuji_eq. left. reflexivity.
Defined.

(* ================================================================== *)
(** * Bulk creation *)

(** The example of the specification: of five items two are valid; they
    are the two rows added, and the count is 2. *)
Lemma bulk_add_locations_mixed :
  run (@bulk_add_locations sample_platform 1 1 bulk_mixed) db_kyoto
  = ((BulkAdded 2 [Location.mk 1 (VStr "A") (350 # 10) (1357 # 10) 1;
                   Location.mk 2 (VStr "E") (inject_Z (-10)) (inject_Z 20) 1],
      201),
     mkDB (trips db_kyoto)
          [Location.mk 1 (VStr "A") (350 # 10) (1357 # 10) 1;
           Location.mk 2 (VStr "E") (inject_Z (-10)) (inject_Z 20) 1]).
Proof. vm_compute. reflexivity. Qed.

Lemma bulk_add_locations_none_valid :
  run (@bulk_add_locations sample_platform 1 1 bulk_invalid) db_kyoto
  = ((Error "No valid locations provided", 400), db_kyoto).
Proof. vm_compute. reflexivity. Qed.

(** C4 at an item whose latitude is [null]: [float(None)] raises
    [TypeError], which neither the [except ValueError] of the loop nor the
    [except SQLAlchemyError] around it catches; the request ends in a 500
    and the valid item is not stored. *)
Theorem bulk_add_locations_null_latitude :
  run (@bulk_add_locations sample_platform 1 1 bulk_null) db_kyoto
  = ((InternalServerError TypeError, 500), db_kyoto).
Proof. vm_compute. reflexivity. Qed.

(* ================================================================== *)
(** * Updates *)

(** Symbolic execution of a handler: unfold the monad and split on every
    test the handler makes. *)
Ltac unfold_monad_in H :=
  cbv beta iota zeta delta
    [run bind ret lift raise try_except get_pending modify_pending commit
     rollback query_trip query_location query_trip_by_key query_trip_value
     trip_locations setattr_trip setattr_location add_trip add_location
     delete_trip_row delete_location_row trip_handler location_handler] in H;
  cbn [pending committed fst snd] in H.

(** The test at the head of the term: the scrutinee of the innermost
    [match] on the spine. *)
Ltac head_test t k :=
  lazymatch t with
  | match ?x with _ => _ end => first [head_test x k | k x]
  | ?f _ => head_test f k
  end.

Ltac execute_in H :=
  unfold_monad_in H;
  lazymatch type of H with
  | (_, _) = _ => idtac
  | ?lhs = _ =>
      head_test lhs ltac:(fun x => destruct x eqn:?); execute_in H
  end.

Ltac rewrite_tests :=
  repeat match goal with
         | E : ?x = _ |- context [?x] => rewrite E
         end.

Lemma query_location_found db lid uid l :
  option_map fst
    (find (fun lt => (Location.id (fst lt) =? lid)
                     && (Trip.user_id (snd lt) =? uid))
          (join_trip db)) = Some l ->
  In l (locations db) /\ Location.id l = lid /\ owned_by db uid l = true.
Proof.
  destruct (find _ _) as [[l0 t0]|] eqn:E; simpl; [|discriminate].
  intros [= <-]. apply find_some in E. destruct E as [Hin Hb].
  apply in_join_trip in Hin. destruct Hin as (Hl & Ht & Hk).
  simpl in Hb. apply andb_true_iff in Hb. destruct Hb as [H1 H2].
  apply Z.eqb_eq in H1. split; [assumption|]. split; [assumption|].
  unfold owned_by. apply existsb_exists. exists t0.
  split; [assumption|]. rewrite H2. apply Z.eqb_eq in Hk.
  now rewrite Hk.
Qed.

Lemma location_eta (l : Location.t) :
  Location.mk (Location.id l) (Location.name l) (Location.latitude l)
              (Location.longitude l) (Location.trip_id l) = l.
Proof. now destruct l. Qed.

Lemma trip_eta (t : Trip.t) :
  Trip.mk (Trip.id t) (Trip.destination t) (Trip.start_date t)
          (Trip.end_date t) (Trip.user_id t) = t.
Proof. now destruct t. Qed.

(** Two maps over a table with unique keys agree when they agree on the
    row [l] and leave the other rows alone. *)
Ltac same_rows Hnd Hin :=
  match goal with
  | |- mkDB _ _ = _ => f_equal
  | _ => idtac
  end;
  try reflexivity;
  match goal with
  | |- map _ _ = map _ _ => idtac
  | |- ?l = map _ _ => rewrite <- (map_id l) at 1
  end;
  rewrite ?map_map; apply map_ext_in;
  let x := fresh "x" in
  let Hx := fresh "Hx" in
  intros x Hx;
  cbn [Location.id Location.name Location.latitude Location.longitude
       Location.trip_id with_name with_latitude with_longitude
       Trip.id Trip.destination Trip.start_date Trip.end_date Trip.user_id
       with_destination with_start_date with_end_date];
  match type of Hin with
  | @In Location.t ?l _ =>
      destruct (Z.eqb_spec (Location.id x) (Location.id l)) as [Hk|Hk];
      [assert (x = l) by
          (eapply (unique_key_row Location.id); eauto);
       subst x;
       cbn [Location.id Location.name Location.latitude Location.longitude
            Location.trip_id];
       rewrite ?Z.eqb_refl, ?location_eta; reflexivity
      |cbn [Location.id]; rewrite ?(proj2 (Z.eqb_neq _ _) Hk); reflexivity]
  | @In Trip.t ?l _ =>
      destruct (Z.eqb_spec (Trip.id x) (Trip.id l)) as [Hk|Hk];
      [assert (x = l) by
          (eapply (unique_key_row Trip.id); eauto);
       subst x;
       cbn [Trip.id Trip.destination Trip.start_date Trip.end_date
            Trip.user_id];
       rewrite ?Z.eqb_refl, ?trip_eta; reflexivity
      |cbn [Trip.id]; rewrite ?(proj2 (Z.eqb_neq _ _) Hk); reflexivity]
  end.

Section Updates.
Context `{Platform}.

Lemma update_location_runs db uid lid data resp db' :
  NoDup (map Location.id (locations db)) ->
  run (update_location uid lid data) db = (resp, db') ->
  (snd resp <> 200 -> db' = db) /\
  (snd resp = 200 ->
   coordinate_valid "latitude" lat_in_range data = true /\
   coordinate_valid "longitude" lng_in_range data = true /\
   db' = rewrite_location (patched_location data) lid db).
Proof.
  intros Hnd Hrun. unfold update_location, update_location_fields in Hrun.
  execute_in Hrun; injection Hrun as <- <-; cbn [fst snd];
    (split; [try reflexivity; try (intros Hne; now elim Hne)
            |try (intros [=]; fail)]).
  all: intros _.
  all: match goal with
       | E : option_map fst _ = Some ?l |- _ =>
           destruct (query_location_found _ _ _ _ E) as (Hin & <- & _)
       end.
  all: unfold coordinate_valid, rewrite_location, patched_location, provided.
  all: rewrite_tests.
  all: repeat match goal with
         | E : negb ?b || _ = false |- _ => apply orb_false_iff in E; destruct E
         | E : negb ?b = false |- _ => apply negb_false_iff in E
         end.
  all: repeat (split; [assumption || reflexivity|]).
  all: destruct db as [ts ls]; cbn [trips locations] in *.
  all: try (same_rows Hnd Hin).
Qed.

Lemma update_trip_runs db uid tid data resp db' :
  NoDup (map Trip.id (trips db)) ->
  run (update_trip uid tid data) db = (resp, db') ->
  (snd resp <> 200 -> db' = db) /\
  (snd resp = 200 ->
   date_valid "start_date" data = true /\
   date_valid "end_date" data = true /\
   db' = rewrite_trip (patched_trip data) tid db /\
   exists t,
     In t (trips db) /\ Trip.id t = tid /\ Trip.user_id t = uid /\
     dates_ordered (patched_trip data t)).
Proof.
  intros Hnd Hrun. unfold update_trip in Hrun.
  execute_in Hrun; injection Hrun as <- <-; cbn [fst snd];
    (split; [try reflexivity; try (intros Hne; now elim Hne)
            |try (intros [=]; fail)]).
  all: intros _.
  all: match goal with
       | E : find (owned_trip _ _) _ = Some ?t |- _ =>
           destruct (query_trip_found _ _ _ _ E) as (Hin & <- & Hu)
       end.
  all: unfold date_valid, rewrite_trip, patched_trip, provided, dates_ordered.
  all: rewrite_tests.
  all: repeat (split; [assumption || reflexivity|]).
  all: destruct db as [ts ls]; cbn [trips locations] in *.
  all: (split; [same_rows Hnd Hin|]).
  all: eexists; split; [exact Hin|]; split; [reflexivity|];
    split; [exact Hu|]; rewrite_tests; assumption.
Qed.

Lemma create_trip_runs db uid data resp db' :
  run (create_trip uid data) db = (resp, db') ->
  (snd resp <> 201 /\ db' = db) \/
  (exists t,
      resp = (TripCreated t, 201) /\
      db' = mkDB (trips db ++ [t]) (locations db) /\
      Trip.id t = next_key (map Trip.id (trips db)) /\
      Trip.user_id t = uid /\
      dates_ordered t).
Proof.
  intros Hrun. unfold create_trip in Hrun.
  execute_in Hrun; injection Hrun as <- <-; cbn [fst snd];
    try (left; split; [discriminate|reflexivity]).
  right. eexists. split; [reflexivity|]. split; [reflexivity|].
  unfold dates_ordered. cbn. auto.
Qed.

End Updates.

(* ================================================================== *)
(** * Every reachable store is consistent *)

Lemma next_key_above ids k : In k ids -> k < next_key ids.
Proof.
  unfold next_key. induction ids as [|a ids IH]; cbn [fold_right In];
    [contradiction|].
  intros [->|Hin]; [lia|]. specialize (IH Hin). lia.
Qed.

Lemma next_key_fresh ids : ~ In (next_key ids) ids.
Proof. intros Hin. apply next_key_above in Hin. lia. Qed.

Lemma NoDup_snoc_fresh ids : NoDup ids -> NoDup (ids ++ [next_key ids]).
Proof.
  intros Hnd. apply NoDup_app; [assumption|repeat constructor; simpl; tauto|].
  intros k Hk [<-|[]]. exact (next_key_fresh ids Hk).
Qed.

Lemma NoDup_map_filter {A} (key : A -> Z) (f : A -> bool) (l : list A) :
  NoDup (map key l) -> NoDup (map key (filter f l)).
Proof.
  induction l as [|a l IH]; simpl; intros Hnd; [constructor|].
  inversion Hnd as [|? ? Hnotin Hnd']; subst.
  destruct (f a); simpl; [|now apply IH].
  constructor; [|now apply IH].
  intros Hin. apply Hnotin. apply in_map_iff in Hin.
  destruct Hin as (x & Hx & Hin). apply filter_In in Hin.
  rewrite <- Hx. apply in_map. tauto.
Qed.

Lemma Forall_filter {A} (P : A -> Prop) (f : A -> bool) (l : list A) :
  Forall P l -> Forall P (filter f l).
Proof.
  rewrite !Forall_forall. intros Hall x Hx. apply filter_In in Hx.
  apply Hall. tauto.
Qed.

Lemma delete_rows_NoDup children locs :
  NoDup (map Location.id locs) ->
  NoDup (map Location.id (delete_rows children locs)).
Proof. rewrite delete_rows_filter. apply NoDup_map_filter. Qed.

Lemma map_key_rewrite {A} (key : A -> Z) (f : A -> A) (k : Z) (l : list A) :
  (forall x, key (f x) = key x) ->
  map key (map (fun x => if key x =? k then f x else x) l) = map key l.
Proof.
  intros Hf. rewrite map_map. apply map_ext. intros x.
  destruct (key x =? k); [apply Hf|reflexivity].
Qed.

Lemma extends_refl locs : extends locs locs.
Proof. exists []. split; [now rewrite app_nil_r|auto]. Qed.

Lemma extends_trans l1 l2 l3 : extends l1 l2 -> extends l2 l3 -> extends l1 l3.
Proof.
  intros (n1 & -> & H1) (n2 & -> & H2). exists (n1 ++ n2)%list.
  split; [now rewrite app_assoc|auto].
Qed.

Lemma extends_snoc locs l :
  Location.id l = next_key (map Location.id locs) ->
  extends locs (locs ++ [l]).
Proof.
  intros Hid. exists [l]. split; [reflexivity|].
  intros Hnd. rewrite map_app. simpl. rewrite Hid.
  now apply NoDup_snoc_fresh.
Qed.

Section Consistency.
Context `{Platform}.

Lemma bulk_item_session tid x acc s r s' :
  bulk_item tid x acc s = (r, s') ->
  committed s' = committed s /\
  trips (pending s') = trips (pending s) /\
  extends (locations (pending s)) (locations (pending s')).
Proof.
  intros Hrun. unfold bulk_item in Hrun.
  execute_in Hrun; injection Hrun as <- <-;
    cbn [committed pending trips locations];
    (split; [reflexivity|split; [reflexivity|]]);
    try apply extends_refl.
  all: apply extends_snoc; reflexivity.
Qed.

Lemma bulk_loop_session tid items acc s r s' :
  for_each items (bulk_item tid) acc s = (r, s') ->
  committed s' = committed s /\
  trips (pending s') = trips (pending s) /\
  extends (locations (pending s)) (locations (pending s')).
Proof.
  revert acc s. induction items as [|x xs IH]; intros acc s; simpl.
  - intros [= <- <-]. split; [reflexivity|]. split; [reflexivity|].
    apply extends_refl.
  - unfold bind at 1. destruct (bulk_item tid x acc s) as [[acc'|e] s1] eqn:E;
      apply bulk_item_session in E; destruct E as (Hc & Ht & He).
    + intros Hrest. apply IH in Hrest. destruct Hrest as (Hc' & Ht' & He').
      split; [congruence|]. split; [congruence|].
      eapply extends_trans; eassumption.
    + intros [= <- <-]. auto.
Qed.

Lemma consistent_extends db locs' :
  consistent db -> extends (locations db) locs' ->
  consistent (mkDB (trips db) locs').
Proof.
  intros [[Hnt Hnl] Hd] (new & -> & Hnd).
  split; [split|]; simpl; auto.
Qed.

Lemma consistent_without_locations db f :
  consistent db ->
  consistent (mkDB (trips db) (filter f (locations db))).
Proof.
  intros [[Hnt Hnl] Hd]. split; [split|]; simpl; auto.
  now apply NoDup_map_filter.
Qed.

Lemma consistent_rewrite_location db f lid :
  (forall l, Location.id (f l) = Location.id l) ->
  consistent db -> consistent (rewrite_location f lid db).
Proof.
  intros Hf [[Hnt Hnl] Hd]. split; [split|]; simpl; auto.
  now rewrite map_key_rewrite.
Qed.

Lemma create_trip_consistent db uid data :
  consistent db -> consistent (snd (run (create_trip uid data) db)).
Proof.
  intros Hc. destruct (run (create_trip uid data) db) as [resp db'] eqn:E.
  apply create_trip_runs in E.
  destruct E as [[_ ->]|(t & _ & -> & Hid & _ & Hd)]; [exact Hc|].
  destruct Hc as [[Hnt Hnl] Hds]. split; [split|]; simpl; auto.
  - rewrite map_app. simpl. rewrite Hid. now apply NoDup_snoc_fresh.
  - apply Forall_app. split; [assumption|]. now constructor.
Qed.

Lemma update_trip_consistent db uid tid data :
  consistent db -> consistent (snd (run (update_trip uid tid data) db)).
Proof.
  intros Hc. destruct (run (update_trip uid tid data) db) as [resp db'] eqn:E.
  pose proof Hc as [[Hnt Hnl] Hds].
  apply update_trip_runs in E; [|assumption]. destruct E as [Hfail Hok].
  destruct (Z.eq_dec (snd resp) 200) as [H200|Hne];
    [|simpl; now rewrite (Hfail Hne)].
  destruct (Hok H200) as (_ & _ & -> & t & Hin & Hid & _ & Hd).
  split; [split|]; simpl; auto.
  - now rewrite map_key_rewrite.
  - apply Forall_forall. intros x Hx. apply in_map_iff in Hx.
    destruct Hx as (y & Hy & Hyin). rewrite Forall_forall in Hds.
    destruct (Z.eqb_spec (Trip.id y) tid) as [Hk|Hk].
    + assert (y = t) by
          (apply (unique_key_row Trip.id (trips db)); congruence).
      subst y x. exact Hd.
    + subst x. now apply Hds.
Qed.

Lemma delete_trip_consistent db uid tid :
  consistent db -> consistent (snd (run (delete_trip uid tid) db)).
Proof.
  intros Hc. pose proof Hc as [[Hnt Hnl] Hds].
  destruct (find (owned_trip tid uid) (trips db)) as [t|] eqn:E.
  - rewrite (delete_trip_found _ _ _ _ E). cbv zeta.
    destruct (commit_ok _); [|exact Hc].
    split; [split|]; simpl.
    + now apply NoDup_map_filter.
    + now apply delete_rows_NoDup.
    + now apply Forall_filter.
  - unfold delete_trip. unfold run, query_trip, bind, get_pending, ret.
    simpl. rewrite E. exact Hc.
Qed.

Lemma create_location_consistent db uid data :
  consistent db -> consistent (snd (run (create_location uid data) db)).
Proof.
  intros Hc. destruct (run (create_location uid data) db) as [resp db'] eqn:E.
  unfold create_location in E.
  execute_in E; injection E as <- <-; cbn [snd]; try exact Hc.
  all: apply consistent_extends; [exact Hc|apply extends_snoc; reflexivity].
Qed.

Lemma add_location_to_trip_consistent db uid tid data :
  consistent db ->
  consistent (snd (run (add_location_to_trip uid tid data) db)).
Proof.
  intros Hc.
  destruct (run (add_location_to_trip uid tid data) db) as [resp db'] eqn:E.
  unfold add_location_to_trip in E.
  execute_in E; injection E as <- <-; cbn [snd]; try exact Hc.
  all: apply consistent_extends; [exact Hc|apply extends_snoc; reflexivity].
Qed.

Lemma update_location_consistent db uid lid data :
  consistent db -> consistent (snd (run (update_location uid lid data) db)).
Proof.
  intros Hc.
  destruct (run (update_location uid lid data) db) as [resp db'] eqn:E.
  pose proof Hc as [[Hnt Hnl] Hds].
  apply update_location_runs in E; [|assumption]. destruct E as [Hfail Hok].
  destruct (Z.eq_dec (snd resp) 200) as [H200|Hne];
    [|simpl; now rewrite (Hfail Hne)].
  destruct (Hok H200) as (_ & _ & ->).
  apply consistent_rewrite_location; [reflexivity|exact Hc].
Qed.

Lemma delete_location_consistent db uid lid :
  consistent db -> consistent (snd (run (delete_location uid lid) db)).
Proof.
  intros Hc. destruct (run (delete_location uid lid) db) as [resp db'] eqn:E.
  unfold delete_location in E.
  execute_in E; injection E as <- <-; cbn [snd]; try exact Hc.
  all: now apply consistent_without_locations.
Qed.

Lemma bulk_add_locations_consistent db uid tid data :
  consistent db ->
  consistent (snd (run (bulk_add_locations uid tid data) db)).
Proof.
  intros Hc.
  destruct (run (bulk_add_locations uid tid data) db) as [resp db'] eqn:E.
  unfold bulk_add_locations in E.
  execute_in E; injection E as <- <-; cbn [snd]; try exact Hc.
  all: match goal with
       | L : for_each _ _ _ _ = _ |- _ =>
           apply bulk_loop_session in L; cbn [committed pending] in L;
           destruct L as (Lc & Lt & Le)
       end.
  all: try (rewrite Lc; exact Hc).
  all: match goal with
       | |- consistent (pending ?s) =>
           destruct s as [cm [ts ls]]; cbn [pending trips locations] in *;
           subst ts; now apply consistent_extends
       end.
Qed.

(** The loop of the nearby search only reads. *)
Lemma nearby_loop_session lat lng radius locs acc s :
  snd (for_each locs (nearby_step lat lng radius) acc s) = s.
Proof.
  revert acc. induction locs as [|l ls IH]; intros acc; cbn [for_each];
    [reflexivity|].
  unfold bind at 1. unfold nearby_step at 1, bind, lift.
  destruct (computed_distance lat lng l) as [d|e]; [|reflexivity].
  destruct (in_radius radius d); unfold ret; apply IH.
Qed.

Lemma get_nearby_locations_session uid args s :
  snd (get_nearby_locations uid args s) = s.
Proof.
  unfold get_nearby_locations, query_user_locations.
  unfold try_except, bind, lift, get_pending, ret.
  destruct (py_float (args_get args "latitude" VNone)) as [lat|e];
    [|destruct e; reflexivity].
  destruct (py_float (args_get args "longitude" VNone)) as [lng|e];
    [|destruct e; reflexivity].
  destruct (py_float (args_get args "radius" (VFloat 10))) as [radius|e];
    [|destruct e; reflexivity].
  destruct (negb (lat_in_range lat) || negb (lng_in_range lng)
            || fle radius 0); [reflexivity|].
  match goal with
  | |- context [for_each ?locs ?f ?acc ?s0] =>
      pose proof (nearby_loop_session lat lng radius locs acc s0) as Hl;
      destruct (for_each locs f acc s0) as [[nearby|e] s']
  end; cbn [snd] in Hl; subst s'; [reflexivity|destruct e; reflexivity].
Qed.

Lemma read_only_consistent db uid :
  consistent db ->
  (forall tid, snd (run (get_trip uid tid) db) = db) /\
  snd (run (get_all_locations uid) db) = db /\
  (forall tid, snd (run (get_trip_locations uid tid) db) = db) /\
  (forall lid, snd (run (get_location uid lid) db) = db) /\
  (forall args, snd (run (get_nearby_locations uid args) db) = db).
Proof.
  intros _. split; [|split; [|split; [|split]]]; intros.
  5:{ unfold run.
      pose proof (get_nearby_locations_session uid args (mkSession db db))
        as Hs.
      destruct (get_nearby_locations uid args (mkSession db db))
        as [[r|e] s]; cbn [snd] in Hs; subst s; reflexivity. }
  all: match goal with
       | |- snd (run ?h ?d) = _ =>
           destruct (run h d) as [resp db'] eqn:E
       end;
    unfold get_trip, get_all_locations, get_trip_locations, get_location,
      query_user_locations in E;
    execute_in E; injection E as <- <-; reflexivity.
Qed.

Lemma serve_consistent db user r :
  consistent db -> consistent (snd (serve user r db)).
Proof.
  intros Hc. unfold serve, login_required.
  destruct user as [uid|]; [|exact Hc].
  destruct (read_only_consistent db uid Hc) as (R1 & R2 & R3 & R4 & R5).
  destruct r; cbn [dispatch].
  - now apply create_trip_consistent.
  - now rewrite R1.
  - now apply update_trip_consistent.
  - now apply delete_trip_consistent.
  - now rewrite R2.
  - now apply create_location_consistent.
  - now apply add_location_to_trip_consistent.
  - now rewrite R3.
  - now rewrite R4.
  - now apply update_location_consistent.
  - now apply delete_location_consistent.
  - now rewrite R5.
  - now apply bulk_add_locations_consistent.
Qed.

Lemma reachable_consistent db : reachable db -> consistent db.
Proof.
  induction 1 as [|db user r _ IH].
  - split; [split|]; simpl; constructor.
  - now apply serve_consistent.
Qed.

End Consistency.

(* ================================================================== *)
(** * The order of trip dates *)

Section TripDates.
Context `{Platform}.

Lemma create_trip_rejects db uid kv sv ev sd ed :
  has_keys ["destination"; "start_date"; "end_date"] kv = true ->
  lookup "start_date" kv = Some sv -> py_strptime sv = Ok sd ->
  lookup "end_date" kv = Some ev -> py_strptime ev = Ok ed ->
  date_ltb ed sd = true ->
  run (create_trip uid (VDict kv)) db = (dates_rejected, db).
Proof.
  intros Hk Hs Hsd He Hed Hlt.
  unfold run, create_trip, bind, lift. rewrite missing_dict, Hk.
  rewrite (has_keys_truthy _ _ "destination" Hk) by (simpl; tauto).
  unfold try_except, getitem. rewrite Hs, Hsd, He, Hed, Hlt. reflexivity.
Qed.

Lemma update_trip_rejects db uid tid kv t :
  find (owned_trip tid uid) (trips db) = Some t ->
  kv <> [] ->
  date_valid "start_date" (VDict kv) = true ->
  date_valid "end_date" (VDict kv) = true ->
  date_ltb (Trip.end_date (patched_trip (VDict kv) t))
           (Trip.start_date (patched_trip (VDict kv) t)) = true ->
  run (update_trip uid tid (VDict kv)) db = (dates_rejected, db).
Proof.
  intros Hf Hkv Hs He Hlt.
  assert (Ht : truthy (VDict kv) = true) by (destruct kv; [easy|reflexivity]).
  destruct (run (update_trip uid tid (VDict kv)) db) as [resp db'] eqn:E.
  unfold update_trip in E.
  unfold date_valid, patched_trip, provided in Hs, He, Hlt.
  cbn [Trip.start_date Trip.end_date contains getitem] in Hs, He, Hlt.
  unfold_monad_in E. rewrite Hf, Ht in E.
  cbn [negb contains getitem] in E.
  destruct (lookup "destination" kv), (lookup "start_date" kv),
    (lookup "end_date" kv);
    revert Hs He Hlt;
    execute_in E; injection E as <- <-; intros Hs He Hlt;
    cbn [with_destination with_start_date with_end_date
         Trip.start_date Trip.end_date] in *;
    try reflexivity; try discriminate; try congruence.
Qed.

(** C7. In every store the application reaches, no trip ends before it
    starts.  Creating a trip whose end date precedes its start date, and
    updating a trip so that the dates it would then have are in that
    order (whether the body gives both dates or one), are answered with
    the validation error, and the store is unchanged. *)
Theorem trip_dates_always_ordered :
  (forall db, reachable db -> Forall dates_ordered (trips db)) /\
  (forall db uid kv sv ev sd ed,
      has_keys ["destination"; "start_date"; "end_date"] kv = true ->
      lookup "start_date" kv = Some sv -> py_strptime sv = Ok sd ->
      lookup "end_date" kv = Some ev -> py_strptime ev = Ok ed ->
      date_ltb ed sd = true ->
      run (create_trip uid (VDict kv)) db = (dates_rejected, db)) /\
  (forall db uid tid kv t,
      find (owned_trip tid uid) (trips db) = Some t ->
      kv <> [] ->
      date_valid "start_date" (VDict kv) = true ->
      date_valid "end_date" (VDict kv) = true ->
      date_ltb (Trip.end_date (patched_trip (VDict kv) t))
               (Trip.start_date (patched_trip (VDict kv) t)) = true ->
      run (update_trip uid tid (VDict kv)) db = (dates_rejected, db)).
Proof.
  split; [|split].
  - intros db Hr. now apply reachable_consistent.
  - apply create_trip_rejects.
  - apply update_trip_rejects.
Qed.

End TripDates.

Lemma db_kinkakuji_reachable : @reachable sample_platform db_kinkakuji.
Proof.
  change db_kinkakuji with
    (snd (@serve sample_platform (Some 1) (POST_trip_locations 1 kinkakuji)
            (snd (@serve sample_platform (Some 1) (POST_trips kyoto)
                    empty_db)))).
  do 2 apply reachable_serve. apply reachable_empty.
Qed.

Lemma trip_dates_always_ordered_witness :
  Forall dates_ordered (trips db_kinkakuji) /\
  run (@create_trip sample_platform 1 kyoto_backwards) db_kinkakuji
  = (dates_rejected, db_kinkakuji) /\
  run (@update_trip sample_platform 1 1 end_in_april) db_kinkakuji
  = (dates_rejected, db_kinkakuji).
Proof.
  destruct (@trip_dates_always_ordered sample_platform) as (Hinv & Hc & Hu).
  split; [|split].
  - apply Hinv. exact db_kinkakuji_reachable.
  - apply (Hc db_kinkakuji 1 _ (VStr "2024-05-10") (VStr "2024-05-01")
              (mkDate 2024 5 10) (mkDate 2024 5 1)); reflexivity.
  - apply (Hu db_kinkakuji 1 1 _
              (Trip.mk 1 (VStr "Kyoto") (mkDate 2024 5 1)
                       (mkDate 2024 5 10) 1));
      try reflexivity. discriminate.
Defined.

(* ================================================================== *)
(** * Numerical bounds *)

Section Numerics.
Local Open Scope R_scope.

Lemma PI_bounds : 31415 / 10000 < PI < 31416 / 10000.
Proof.
  pose proof (PI_2_3_7_ineq 2) as [Hlo Hhi].
  unfold sum_f_R0, tg_alt, PI_2_3_7_tg, Ratan_seq in Hlo, Hhi.
  simpl in Hlo, Hhi.
  split; lra.
Qed.

(** Write [INR (fact n)] as a numeral. *)
Ltac literal_factorials H :=
  repeat match type of H with
         | context [INR (fact ?n)] =>
             let v := eval vm_compute in (Z.of_nat (fact n)) in
             replace (INR (fact n)) with (IZR v) in H
               by (rewrite INR_IZR_INZ; apply f_equal; vm_compute;
                   reflexivity)
         end.

Lemma sin_lower x : 0 <= x <= 4 -> x - x ^ 3 / 6 <= sin x.
Proof.
  intros [H0 H4]. destruct (pre_sin_bound x 0 H0 H4) as [Hlo _].
  unfold sin_approx, sin_term, sum_f_R0 in Hlo.
  cbv [Nat.mul Nat.add pow] in Hlo.
  literal_factorials Hlo. lra.
Qed.

Lemma sin_upper x : 0 <= x -> sin x <= x.
Proof.
  intros [Hx| <-]; [left; now apply sin_lt_x|rewrite sin_0; lra].
Qed.

Lemma cos_lower x :
  -2 <= x <= 2 -> 1 - x ^ 2 / 2 + x ^ 4 / 24 - x ^ 6 / 720 <= cos x.
Proof.
  intros [Hl Hu]. destruct (pre_cos_bound x 1 Hl Hu) as [Hlo _].
  unfold cos_approx, cos_term, sum_f_R0 in Hlo.
  cbv [Nat.mul Nat.add pow] in Hlo.
  literal_factorials Hlo. lra.
Qed.

Lemma cos_upper x :
  -2 <= x <= 2 ->
  cos x <= 1 - x ^ 2 / 2 + x ^ 4 / 24 - x ^ 6 / 720 + x ^ 8 / 40320.
Proof.
  intros [Hl Hu]. destruct (pre_cos_bound x 1 Hl Hu) as [_ Hhi].
  unfold cos_approx, cos_term, sum_f_R0 in Hhi.
  cbv [Nat.mul Nat.add pow] in Hhi.
  literal_factorials Hhi. lra.
Qed.

Lemma asin_lower z : 0 <= z <= 1 -> z <= asin z.
Proof.
  intros Hz. pose proof (asin_bound z) as [Hl Hu].
  assert (Hs : sin (asin z) = z) by (apply sin_asin; lra).
  destruct (Rle_lt_dec 0 (asin z)) as [Hpos|Hneg].
  - rewrite <- Hs at 1. now apply sin_upper.
  - assert (sin (asin z) <= sin 0).
    { pose proof PI2_RGT_0. apply sin_incr_1; lra. }
    rewrite sin_0 in *. assert (z = 0) by lra. subst z.
    rewrite asin_0. lra.
Qed.

Lemma asin_upper z u :
  -1 <= z <= 1 -> - (PI / 2) <= u <= PI / 2 -> z < sin u -> asin z <= u.
Proof.
  intros Hz Hu Hlt. pose proof (asin_bound z) as [Hl Hh].
  destruct (Rle_lt_dec (asin z) u) as [Hle|Hgt]; [assumption|].
  assert (sin u <= sin (asin z)) by (apply sin_incr_1; lra).
  rewrite sin_asin in * by assumption. lra.
Qed.

(** The distance of the scenario: between 1.437 and 1.438 km. *)
Lemma kyoto_distance_bounds :
  1437 / 1000
  < haversine_distance (3501 / 100) (13571 / 100) 35 (1357 / 10)
  < 1438 / 1000.
Proof.
  pose proof PI_bounds as [Hpl Hph].
  unfold haversine_distance, radians.
  set (x := PI / 180 / 200).
  replace ((35 * (PI / 180) - 3501 / 100 * (PI / 180)) / 2)
    with (- x) by (unfold x; field).
  replace ((1357 / 10 * (PI / 180) - 13571 / 100 * (PI / 180)) / 2)
    with (- x) by (unfold x; field).
  rewrite sin_neg.
  set (s := sin x).
  set (c1 := cos (3501 / 100 * (PI / 180))).
  set (c2 := cos (35 * (PI / 180))).
  replace ((- s) ^ 2 + c1 * c2 * (- s) ^ 2) with (s * s * (1 + c1 * c2))
    by ring.
  assert (Hx : 87263 / 1000000000 < x < 87267 / 1000000000)
    by (unfold x; lra).
  assert (Hs : 87262 / 1000000000 <= s <= 87267 / 1000000000).
  { unfold s. split.
    - apply Rle_trans with (x - x ^ 3 / 6); [|apply sin_lower; lra].
      assert (x ^ 3 <= (87267 / 1000000000) ^ 3)
        by (apply pow_incr; lra).
      lra.
    - apply Rle_trans with x; [apply sin_upper|]; lra. }
  assert (Hcos : forall y, 6108 / 10000 <= y <= 6111 / 10000 ->
                           8190 / 10000 <= cos y <= 8192 / 10000).
  { intros y [Hyl Hyu]. split.
    - apply Rle_trans with (cos (6111 / 10000)).
      + apply Rle_trans
          with (1 - (6111 / 10000) ^ 2 / 2 + (6111 / 10000) ^ 4 / 24
                - (6111 / 10000) ^ 6 / 720); [lra|apply cos_lower; lra].
      + apply cos_decr_1; lra.
    - apply Rle_trans with (cos (6108 / 10000)).
      + apply cos_decr_1; lra.
      + apply Rle_trans
          with (1 - (6108 / 10000) ^ 2 / 2 + (6108 / 10000) ^ 4 / 24
                - (6108 / 10000) ^ 6 / 720 + (6108 / 10000) ^ 8 / 40320);
          [apply cos_upper; lra|lra]. }
  assert (Hc1 : 8190 / 10000 <= c1 <= 8192 / 10000)
    by (apply Hcos; lra).
  assert (Hc2 : 8190 / 10000 <= c2 <= 8192 / 10000)
    by (apply Hcos; lra).
  clearbody s c1 c2. clear Hcos.
  assert (Hss : (87262 / 1000000000) * (87262 / 1000000000) <= s * s
                <= (87267 / 1000000000) * (87267 / 1000000000)) by nra.
  assert (Hcc : (8190 / 10000) * (8190 / 10000) <= c1 * c2
                <= (8192 / 10000) * (8192 / 10000)) by nra.
  set (ss := s * s) in *. set (cc := c1 * c2) in *. clearbody ss cc.
  assert (Ha : (11279 / 100000000) * (11279 / 100000000) <= ss * (1 + cc)
               <= (11282 / 100000000) * (11282 / 100000000)) by nra.
  set (a := ss * (1 + cc)) in *. clearbody a.
  assert (Hz : 11279 / 100000000 <= sqrt a <= 11282 / 100000000).
  { split.
    - rewrite <- (sqrt_square (11279 / 100000000)) by lra.
      apply sqrt_le_1_alt. lra.
    - rewrite <- (sqrt_square (11282 / 100000000)) by lra.
      apply sqrt_le_1_alt. lra. }
  set (z := sqrt a) in *. clearbody z.
  assert (Hw : z <= asin z <= 11283 / 100000000).
  { split.
    - apply asin_lower. lra.
    - apply asin_upper; [lra|lra|].
      apply Rlt_le_trans
        with (11283 / 100000000 - (11283 / 100000000) ^ 3 / 6);
        [lra|apply sin_lower; lra]. }
  lra.
Qed.

(** From the origin along the equator the distance is the arc. *)
Lemma equator_distance (lon : R) :
  0 <= lon <= 90 ->
  haversine_distance 0 0 0 lon = lon * (PI / 180) * 6371.
Proof.
  intros [Hl Hu]. pose proof PI_RGT_0 as Hpi.
  unfold haversine_distance, radians.
  replace (0 * (PI / 180) - 0 * (PI / 180)) with 0 by ring.
  replace (0 / 2) with 0 by field.
  replace (0 * (PI / 180)) with 0 by ring.
  rewrite sin_0, cos_0.
  set (y := (lon * (PI / 180) - 0) / 2).
  assert (Hy : 0 <= y <= PI / 2) by (unfold y; split; nra).
  replace (0 ^ 2 + 1 * 1 * sin y ^ 2) with (sin y ^ 2) by ring.
  rewrite sqrt_pow2 by (apply sin_ge_0; lra).
  rewrite asin_sin by lra.
  unfold y. field.
Qed.

Lemma haversine_distance_self (lat lon : R) :
  haversine_distance lat lon lat lon = 0.
Proof.
  unfold haversine_distance.
  replace (radians lat - radians lat) with 0 by ring.
  replace (radians lon - radians lon) with 0 by ring.
  replace (0 / 2) with 0 by field.
  rewrite sin_0.
  replace (0 ^ 2 + cos (radians lat) * cos (radians lat) * 0 ^ 2)
    with 0 by ring.
  rewrite sqrt_0, asin_0. ring.
Qed.

Lemma round_half_even_down (n : Z) (x : R) :
  IZR n <= x < IZR n + 1 / 2 -> round_half_even x = n.
Proof.
  intros Hx. unfold round_half_even.
  rewrite (Zfloor_eq n x) by lra.
  destruct (Rlt_dec (x - IZR n) (1 / 2)); [reflexivity|lra].
Qed.

Lemma round_half_even_up (n : Z) (x : R) :
  IZR n + 1 / 2 < x < IZR n + 1 -> round_half_even x = (n + 1)%Z.
Proof.
  intros Hx. unfold round_half_even.
  rewrite (Zfloor_eq n x) by lra.
  destruct (Rlt_dec (x - IZR n) (1 / 2)); [lra|].
  destruct (Rlt_dec (1 / 2) (x - IZR n)); [reflexivity|lra].
Qed.

End Numerics.

(* ================================================================== *)
(** * The nearby search *)

(** With unique trip keys, the join yields each location of the user
    once, in row order. *)
Lemma join_one_location uid k l ts :
  NoDup (map Trip.id ts) ->
  map fst (filter (fun lt : Location.t * Trip.t =>
                     Trip.user_id (snd lt) =? uid)
                  (map (pair l) (filter (fun t => Trip.id t =? k) ts)))
  = if existsb (fun t => (Trip.id t =? k) && (Trip.user_id t =? uid)) ts
    then [l] else [].
Proof.
  induction ts as [|t ts IH]; simpl; intros Hnd; [reflexivity|].
  inversion Hnd as [|? ? Hnotin Hnd']; subst.
  destruct (Z.eqb_spec (Trip.id t) k) as [Hk|Hk]; simpl.
  - assert (Hrest : filter (fun t0 => Trip.id t0 =? k) ts = []).
    { destruct (filter (fun t0 => Trip.id t0 =? k) ts) as [|x xs] eqn:Ef;
        [reflexivity|].
      assert (Hx : In x (filter (fun t0 => Trip.id t0 =? k) ts))
        by (rewrite Ef; now left).
      apply filter_In in Hx. destruct Hx as [Hx Hxk].
      apply Z.eqb_eq in Hxk. elim Hnotin.
      rewrite Hk, <- Hxk. now apply in_map. }
    assert (Hex : existsb (fun t0 => (Trip.id t0 =? k)
                                     && (Trip.user_id t0 =? uid)) ts = false).
    { apply not_true_is_false. intros Hex. apply existsb_exists in Hex.
      destruct Hex as (x & Hx & Hb). apply andb_true_iff in Hb.
      destruct Hb as [Hb _]. apply Z.eqb_eq in Hb. apply Hnotin.
      rewrite Hk, <- Hb. now apply in_map. }
    rewrite Hrest, Hex. simpl.
    destruct (Trip.user_id t =? uid); reflexivity.
  - now apply IH.
Qed.

Lemma user_locations_owned db uid :
  NoDup (map Trip.id (trips db)) ->
  map fst (filter (fun lt : Location.t * Trip.t =>
                     Trip.user_id (snd lt) =? uid)
                  (join_trip db))
  = owned_locations db uid.
Proof.
  intros Hnd. unfold join_trip, owned_locations.
  induction (locations db) as [|l ls IH]; simpl; [reflexivity|].
  rewrite filter_app, map_app, IH, join_one_location by assumption.
  unfold owned_by at 2. destruct (existsb _ (trips db)); reflexivity.
Qed.

(** ** The sort *)

Lemma sort_insert_perm x l : Permutation (sort_insert x l) (x :: l).
Proof.
  induction l as [|y ys IH]; simpl; [reflexivity|].
  destruct (Qle_bool _ _); [reflexivity|].
  rewrite IH. apply perm_swap.
Qed.

Lemma sort_by_distance_perm l : Permutation (sort_by_distance l) l.
Proof.
  induction l as [|x xs IH]; simpl; [reflexivity|].
  rewrite sort_insert_perm. now constructor.
Qed.

Lemma Qle_bool_false (x y : Q) : Qle_bool x y = false -> (y <= x)%Q.
Proof.
  intros Hb. destruct (Qlt_le_dec y x) as [Hlt|Hle].
  - now apply Qlt_le_weak.
  - apply Qle_bool_iff in Hle. congruence.
Qed.

Lemma sort_insert_sorted x l :
  StronglySorted by_distance l ->
  StronglySorted by_distance (sort_insert x l).
Proof.
  induction 1 as [|y ys Hs IH Hall]; simpl.
  - repeat constructor.
  - destruct (Qle_bool (Nearby.distance x) (Nearby.distance y)) eqn:E.
    + apply Qle_bool_iff in E. constructor; [now constructor|].
      constructor; [exact E|].
      rewrite Forall_forall in *. intros z Hz. unfold by_distance in *.
      eapply Qle_trans; [exact E|now apply Hall].
    + apply Qle_bool_false in E. constructor; [exact IH|].
      rewrite Forall_forall in *. intros z Hz.
      apply (Permutation_in _ (sort_insert_perm x ys)) in Hz.
      destruct Hz as [<-|Hz]; [exact E|now apply Hall].
Qed.

Lemma sort_by_distance_sorted l :
  StronglySorted by_distance (sort_by_distance l).
Proof.
  induction l as [|x xs IH]; simpl; [constructor|].
  now apply sort_insert_sorted.
Qed.

(** The sort is stable: the entries of any one reported distance keep
    their relative order. *)
Lemma sort_insert_stable d x l :
  filter (same_distance d) (sort_insert x l)
  = filter (same_distance d) (x :: l).
Proof.
  induction l as [|y ys IH]; [reflexivity|].
  cbn [sort_insert].
  destruct (Qle_bool (Nearby.distance x) (Nearby.distance y)) eqn:E;
    [reflexivity|].
  cbn [filter] in *. rewrite IH.
  destruct (same_distance d x) eqn:Ex; [|reflexivity].
  destruct (same_distance d y) eqn:Ey; [|reflexivity].
  exfalso. unfold same_distance in *.
  apply Qeq_bool_iff in Ex, Ey.
  assert (Hle : (Nearby.distance x <= Nearby.distance y)%Q)
    by (rewrite Ex, Ey; apply Qle_refl).
  apply Qle_bool_iff in Hle. congruence.
Qed.

Lemma sort_by_distance_stable d l :
  filter (same_distance d) (sort_by_distance l)
  = filter (same_distance d) l.
Proof.
  induction l as [|x xs IH]; [reflexivity|].
  cbn [sort_by_distance fold_right].
  fold (sort_by_distance xs). rewrite sort_insert_stable.
  cbn [filter]. now rewrite IH.
Qed.

Lemma map_filter_pairs {A B C} (f : A -> B) (g : A -> B -> C)
    (p : B -> bool) (l : list A) :
  map (fun x => g (fst x) (snd x))
      (filter (fun x => p (snd x)) (map (fun a => (a, f a)) l))
  = map (fun a => g a (f a)) (filter (fun a => p (f a)) l).
Proof.
  induction l as [|a l IH]; cbn [map filter fst snd]; [reflexivity|].
  destruct (p (f a)); cbn [map fst snd]; now rewrite IH.
Qed.

Section NearbySearch.
Context `{Platform}.

(** The computation of a distance raises nothing but the [ValueError] of
    [math.sqrt] and [math.asin]. *)
Lemma computed_distance_raises lat lng l e :
  computed_distance lat lng l = Raise e -> e = ValueError.
Proof.
  unfold computed_distance, haversine_distance_binary64, py_sqrt, py_asin.
  cbv zeta.
  destruct (Rlt_dec _ 0); cbn [rbind]; [now intros [= <-]|].
  destruct (Rlt_dec _ (-1)); cbn [rbind]; [now intros [= <-]|].
  destruct (Rlt_dec 1 _); cbn [rbind]; [now intros [= <-]|].
  discriminate.
Qed.

Lemma measure_raises lat lng locs e :
  measure lat lng locs = Raise e -> e = ValueError.
Proof.
  induction locs as [|l ls IH]; cbn [measure]; [discriminate|].
  destruct (computed_distance lat lng l) as [d|e'] eqn:Ed; cbn [rbind].
  - destruct (measure lat lng ls) as [ds|e'']; cbn [rbind];
      [discriminate|]. intros [= <-]. now apply IH.
  - intros [= <-]. now apply computed_distance_raises in Ed.
Qed.

Lemma measure_computes lat lng dist locs :
  computes lat lng dist locs ->
  measure lat lng locs = Ok (map (fun l => (l, dist l)) locs).
Proof.
  induction locs as [|l ls IH]; intros Hc; cbn [measure map];
    [reflexivity|].
  rewrite (Hc l) by now left. cbn [rbind].
  rewrite IH by (intros x Hx; apply Hc; now right). reflexivity.
Qed.

Lemma nearby_loop lat lng radius locs acc s :
  for_each locs (nearby_step lat lng radius) acc s
  = match measure lat lng locs with
    | Ok ds =>
        (Ok (acc ++ map (fun ld => entry (fst ld) (snd ld))
                        (filter (fun ld => in_radius radius (snd ld)) ds))%list,
         s)
    | Raise e => (Raise e, s)
    end.
Proof.
  revert acc. induction locs as [|l ls IH]; intros acc;
    cbn [for_each measure].
  - cbn. now rewrite app_nil_r.
  - unfold bind at 1. unfold nearby_step at 1, bind, lift.
    destruct (computed_distance lat lng l) as [d|e]; cbn [rbind];
      [|reflexivity].
    destruct (in_radius radius d) eqn:Ein; unfold ret; rewrite IH;
      destruct (measure lat lng ls) as [ds|e]; cbn [rbind filter map fst snd];
      try reflexivity; rewrite Ein; cbn [map fst snd];
      [now rewrite <- app_assoc|reflexivity].
Qed.

(** What the search answers once its parameters are read and accepted. *)
Lemma get_nearby_locations_measured db uid args (lat lng radius : float) :
  py_float (args_get args "latitude" VNone) = Ok lat ->
  py_float (args_get args "longitude" VNone) = Ok lng ->
  py_float (args_get args "radius" (VFloat 10)) = Ok radius ->
  lat_in_range lat = true -> lng_in_range lng = true ->
  fle radius 0 = false ->
  run (get_nearby_locations uid args) db
  = match measure lat lng
            (map fst (filter (fun lt : Location.t * Trip.t =>
                                Trip.user_id (snd lt) =? uid)
                             (join_trip db))) with
    | Ok ds =>
        let nearby :=
          sort_by_distance
            (map (fun ld => entry (fst ld) (snd ld))
                 (filter (fun ld => in_radius radius (snd ld)) ds)) in
        ((NearbyResult lat lng radius nearby (List.length nearby), 200), db)
    | Raise _ => ((Error "Invalid parameters", 400), db)
    end.
Proof.
  intros Hlat Hlng Hrad Hla Hln Hr.
  unfold run, get_nearby_locations, query_user_locations.
  unfold try_except, bind, lift, get_pending, ret.
  rewrite Hlat, Hlng, Hrad, Hla, Hln, Hr. cbn [negb orb pending].
  rewrite nearby_loop.
  destruct (measure lat lng _) as [ds|e] eqn:Em; [reflexivity|].
  apply measure_raises in Em. subst e. reflexivity.
Qed.

Lemma get_nearby_locations_runs db uid args (lat lng radius : float) dist :
  py_float (args_get args "latitude" VNone) = Ok lat ->
  py_float (args_get args "longitude" VNone) = Ok lng ->
  py_float (args_get args "radius" (VFloat 10)) = Ok radius ->
  lat_in_range lat = true -> lng_in_range lng = true ->
  fle radius 0 = false ->
  computes lat lng dist
           (map fst (filter (fun lt : Location.t * Trip.t =>
                               Trip.user_id (snd lt) =? uid)
                            (join_trip db))) ->
  let nearby :=
    sort_by_distance
      (map (entry_at dist)
           (filter (qualifies radius dist)
                   (map fst (filter (fun lt : Location.t * Trip.t =>
                                       Trip.user_id (snd lt) =? uid)
                                    (join_trip db))))) in
  run (get_nearby_locations uid args) db
  = ((NearbyResult lat lng radius nearby (List.length nearby), 200), db).
Proof.
  intros Hlat Hlng Hrad Hla Hln Hr Hc. cbv zeta.
  rewrite (get_nearby_locations_measured db uid args lat lng radius)
    by assumption.
  rewrite (measure_computes lat lng dist) by assumption.
  cbv zeta. unfold entry_at, qualifies.
  now rewrite (map_filter_pairs dist entry (in_radius radius)).
Qed.

Lemma positive_radius (radius : Q) : (0 < radius)%Q -> fle radius 0 = false.
Proof.
  intros Hr. cbn [fle]. apply not_true_is_false. intros Hb.
  apply Qle_bool_iff in Hb. exact (Qlt_not_le _ _ Hr Hb).
Qed.

(** C1, as the code has it.  For a caller, a centre in range and a
    positive radius, in a store with unique trip keys, when the platform
    computes a distance [dist] for each location of the caller: the search
    answers 200 with the entries of exactly the locations the caller owns
    through their trips whose computed distance is at most the radius;
    each entry carries that distance rounded to two decimals; the entries
    are in ascending order of the rounded distance, those of equal rounded
    distance in retrieval order; when no location qualifies the list is
    empty. *)
Theorem nearby_sorted_by_reported_distance
    (db : DB) (uid : Z) (args : list (string * string)) (lat lng radius : Q)
    (dist : Location.t -> R) :
  NoDup (map Trip.id (trips db)) ->
  py_float (args_get args "latitude" VNone) = Ok lat ->
  py_float (args_get args "longitude" VNone) = Ok lng ->
  py_float (args_get args "radius" (VFloat 10)) = Ok radius ->
  lat_in_range lat = true -> lng_in_range lng = true ->
  (0 < radius)%Q ->
  computes lat lng dist (owned_locations db uid) ->
  let qualifying :=
    filter (qualifies radius dist) (owned_locations db uid) in
  exists nearby,
    run (get_nearby_locations uid args) db
    = ((NearbyResult lat lng radius nearby (List.length nearby), 200), db) /\
    (forall l, In l qualifying <->
               In l (locations db) /\ owned_by db uid l = true /\
               (dist l <= Q2R radius)%R) /\
    Permutation nearby (map (entry_at dist) qualifying) /\
    (forall l, Nearby.id (entry_at dist l) = Location.id l /\
               Nearby.distance (entry_at dist l) = round2 (dist l)) /\
    StronglySorted by_distance nearby /\
    (forall d, filter (same_distance d) nearby
               = filter (same_distance d) (map (entry_at dist) qualifying)) /\
    (qualifying = [] -> nearby = []).
Proof.
  intros Hnd Hlat Hlng Hrad Hla Hln Hr Hc qualifying.
  exists (sort_by_distance (map (entry_at dist) qualifying)).
  split.
  { rewrite (get_nearby_locations_runs db uid args lat lng radius dist);
      try assumption.
    - cbv zeta. now rewrite user_locations_owned.
    - now apply positive_radius.
    - now rewrite user_locations_owned. }
  split.
  { intros l. unfold qualifying, owned_locations, qualifies, in_radius.
    rewrite !filter_In. destruct (Rle_dec _ _); intuition congruence. }
  split; [apply sort_by_distance_perm|].
  split; [intros l; split; reflexivity|].
  split; [apply sort_by_distance_sorted|].
  split; [intros d; apply sort_by_distance_stable|].
  intros ->. reflexivity.
Qed.

End NearbySearch.

(* ================================================================== *)
(** * The nearby search on concrete stores *)

Lemma Q2R_literal (n : Z) (d : positive) :
  Q2R (n # d) = (IZR n / IZR (Z.pos d))%R.
Proof. reflexivity. Qed.

Lemma Q2R_zero : Q2R 0 = 0%R.
Proof. rewrite Q2R_literal. lra. Qed.

Lemma distance_origin : distance_to 0 0 loc_origin = 0%R.
Proof. apply haversine_distance_self. Qed.

Lemma distance_east :
  distance_to 0 0 loc_east = (1 / 100000 * (PI / 180) * 6371)%R.
Proof.
  unfold distance_to, loc_east. cbn [Location.latitude Location.longitude].
  rewrite Q2R_zero, Q2R_literal.
  rewrite equator_distance by lra. reflexivity.
Qed.

Lemma distance_east_bounds :
  (0 < distance_to 0 0 loc_east < 2 / 1000)%R.
Proof.
  rewrite distance_east. pose proof PI_bounds. split; lra.
Qed.

Lemma round2_zero (x : R) : (0 <= x < 2 / 1000)%R -> round2 x = (0 # 100)%Q.
Proof.
  intros Hx. unfold round2. rewrite (round_half_even_down 0); [reflexivity|].
  lra.
Qed.

Lemma within_radius_true (lat lng radius : Q) l :
  (distance_to lat lng l <= Q2R radius)%R ->
  within_radius lat lng radius l = true.
Proof.
  intros Hle. unfold within_radius, in_radius. now destruct (Rle_dec _ _).
Qed.

(** ** The sample platform computes the formula *)

(** The argument of the square root is a haversine: it lies between 0 and
    1, so that the formula is defined everywhere. *)
Lemma haversine_argument_unit (p1 l1 p2 l2 : R) :
  (0 <= sin ((p2 - p1) / 2) ^ 2
        + cos p1 * cos p2 * sin ((l2 - l1) / 2) ^ 2 <= 1)%R.
Proof.
  set (A := (sin ((p2 - p1) / 2) ^ 2)%R).
  set (B := (sin ((l2 - l1) / 2) ^ 2)%R).
  assert (HA : (0 <= A <= 1)%R).
  { unfold A. pose proof (SIN_bound ((p2 - p1) / 2)) as [? ?]. nra. }
  assert (HB : (0 <= B <= 1)%R).
  { unfold B. pose proof (SIN_bound ((l2 - l1) / 2)) as [? ?]. nra. }
  assert (Hd : (cos (p2 - p1) = 1 - 2 * A)%R).
  { unfold A. replace (p2 - p1)%R with (2 * ((p2 - p1) / 2))%R at 1 by field.
    rewrite cos_2a_sin. ring. }
  assert (Hs : (cos p1 * cos p2 = (cos (p2 - p1) + cos (p2 + p1)) / 2)%R).
  { rewrite cos_minus, cos_plus. field. }
  pose proof (COS_bound (p2 + p1)) as [Hk1 Hk2].
  rewrite Hs, Hd. nra.
Qed.

Lemma sample_computed_distance (lat lng : Q) (l : Location.t) :
  @computed_distance sample_platform lat lng l = Ok (distance_to lat lng l).
Proof.
  unfold computed_distance, haversine_distance_binary64, py_sqrt, py_asin.
  cbn [fl_add fl_sub fl_mul fl_div fl_square fl_radians fl_sin fl_cos
       fl_sqrt fl_asin sample_platform finite].
  cbv zeta.
  match goal with
  | |- context [Rlt_dec ?a 0] =>
      assert (Ha : (0 <= a <= 1)%R) by apply haversine_argument_unit;
      set (hav := a) in *
  end.
  pose proof (sqrt_pos hav) as Hlo.
  assert (Hhi : (sqrt hav <= 1)%R).
  { rewrite <- sqrt_1. apply sqrt_le_1_alt. lra. }
  destruct (Rlt_dec hav 0); [lra|]. cbn [rbind].
  destruct (Rlt_dec (sqrt hav) (-1)); [lra|].
  destruct (Rlt_dec 1 (sqrt hav)); [lra|]. reflexivity.
Qed.

Lemma sample_computes (lat lng : Q) (locs : list Location.t) :
  @computes sample_platform lat lng (distance_to lat lng) locs.
Proof. intros l _. apply sample_computed_distance. Qed.

(** The search on the sample platform, in terms of the formula. *)
Lemma get_nearby_locations_runs_exact db uid args (lat lng radius : Q) :
  @py_float sample_platform (args_get args "latitude" VNone) = Ok lat ->
  @py_float sample_platform (args_get args "longitude" VNone) = Ok lng ->
  @py_float sample_platform (args_get args "radius" (VFloat 10))
  = Ok radius ->
  lat_in_range lat = true -> lng_in_range lng = true ->
  Qle_bool radius 0 = false ->
  let nearby :=
    sort_by_distance
      (map (nearby_entry lat lng)
           (filter (within_radius lat lng radius)
                   (map fst (filter (fun lt : Location.t * Trip.t =>
                                       Trip.user_id (snd lt) =? uid)
                                    (join_trip db))))) in
  run (@get_nearby_locations sample_platform uid args) db
  = ((NearbyResult lat lng radius nearby (List.length nearby), 200), db).
Proof.
  intros Hlat Hlng Hrad Hla Hln Hr.
  exact (@get_nearby_locations_runs sample_platform db uid args
           lat lng radius (distance_to lat lng)
           Hlat Hlng Hrad Hla Hln Hr (sample_computes lat lng _)).
Qed.

(** C1 as stated fails: the search from the origin of user 1 lists the
    location to the east before the one at the origin, whose computed
    distance is smaller; both are reported as 0.0. *)
Lemma nearby_order_ignores_computed_distance :
  run (@get_nearby_locations sample_platform 1 args_origin) db_equator
  = ((NearbyResult 0 0 10
        [nearby_entry 0 0 loc_east; nearby_entry 0 0 loc_origin] 2,
      200),
     db_equator) /\
  (distance_to 0 0 loc_origin < distance_to 0 0 loc_east)%R.
Proof.
  pose proof distance_east_bounds as Heast.
  pose proof distance_origin as Horigin.
  split; [|lra].
  rewrite (get_nearby_locations_runs_exact db_equator 1
             args_origin 0 0 10) by reflexivity.
  cbv zeta.
  change (map fst (filter (fun lt : Location.t * Trip.t =>
                             Trip.user_id (snd lt) =? 1)
                          (join_trip db_equator)))
    with [loc_east; loc_origin].
  cbn [filter].
  rewrite !within_radius_true
    by (rewrite ?Horigin, Q2R_literal; lra).
  cbn [map sort_by_distance fold_right sort_insert].
  assert (He : Nearby.distance (nearby_entry 0 0 loc_east) = (0 # 100)%Q)
    by (apply round2_zero; lra).
  assert (Ho : Nearby.distance (nearby_entry 0 0 loc_origin) = (0 # 100)%Q)
    by (apply round2_zero; lra).
  rewrite !He, !Ho. reflexivity.
Qed.

Lemma unique_trip_keys_db_kinkakuji :
  NoDup (map Trip.id (trips db_kinkakuji)).
Proof. exact (proj1 unique_keys_db_kinkakuji). Qed.

(** ** Three locations on the equator *)

Lemma distance_far :
  distance_to 0 0 loc_far = (1 / 10 * (PI / 180) * 6371)%R.
Proof.
  unfold distance_to, loc_far. cbn [Location.latitude Location.longitude].
  rewrite Q2R_zero, Q2R_literal.
  rewrite equator_distance by lra. reflexivity.
Qed.

Lemma distance_far_bounds :
  (11119 / 1000 < distance_to 0 0 loc_far < 11120 / 1000)%R.
Proof.
  rewrite distance_far. pose proof PI_bounds. split; lra.
Qed.

Lemma in_radius_true (radius : Q) (d : R) :
  (d <= Q2R radius)%R -> in_radius radius d = true.
Proof.
  intros Hle. unfold in_radius. now destruct (Rle_dec _ _).
Qed.

(** The entries of the three locations, in retrieval order: the far one
    is reported at 11.12 km, the other two at 0.0. *)
Lemma equator_far_entries :
  map (entry_at (distance_to 0 0))
      (filter (qualifies (3501 # 100) (distance_to 0 0))
              (owned_locations db_equator_far 1))
  = [Nearby.mk 3 (VStr "far") 0 (1 # 10) (1112 # 100) 1;
     Nearby.mk 1 (VStr "east") 0 (1 # 100000) (0 # 100) 1;
     Nearby.mk 2 (VStr "origin") 0 0 (0 # 100) 1].
Proof.
  pose proof distance_far_bounds as Hfar.
  pose proof distance_east_bounds as Heast.
  pose proof distance_origin as Horigin.
  change (owned_locations db_equator_far 1)
    with [loc_far; loc_east; loc_origin].
  cbn [filter]. unfold qualifies.
  rewrite !in_radius_true by (rewrite ?Horigin, Q2R_literal; lra).
  cbn [map]. unfold entry_at, entry.
  assert (Rf : round2 (distance_to 0 0 loc_far) = (1112 # 100)%Q).
  { unfold round2. rewrite (round_half_even_up 1111); [reflexivity|lra]. }
  assert (Re : round2 (distance_to 0 0 loc_east) = (0 # 100)%Q)
    by (apply round2_zero; lra).
  assert (Ro : round2 (distance_to 0 0 loc_origin) = (0 # 100)%Q)
    by (apply round2_zero; lra).
  rewrite Rf, Re, Ro. reflexivity.
Qed.

(** A rearrangement of these entries that is in ascending order of the
    reported distance and keeps the entries of one distance in their
    order is this one: the two at 0.0 as retrieved, then the far one. *)
Lemma equator_far_order (nearby : list Nearby.t) :
  let far := Nearby.mk 3 (VStr "far") 0 (1 # 10) (1112 # 100) 1 in
  let east := Nearby.mk 1 (VStr "east") 0 (1 # 100000) (0 # 100) 1 in
  let origin := Nearby.mk 2 (VStr "origin") 0 0 (0 # 100) 1 in
  Permutation nearby [far; east; origin] ->
  StronglySorted by_distance nearby ->
  (forall d, filter (same_distance d) nearby
             = filter (same_distance d) [far; east; origin]) ->
  nearby = [east; origin; far].
Proof.
  intros far east origin Hperm Hsorted Hstable.
  pose proof (Permutation_length Hperm) as Hlen.
  destruct nearby as [|a [|b [|c [|x rest]]]]; try discriminate Hlen.
  assert (Hin : forall e, In e [a; b; c] -> e = far \/ e = east \/ e = origin).
  { intros e He. apply (Permutation_in _ Hperm) in He.
    destruct He as [<-|[<-|[<-|[]]]]; auto. }
  pose proof (Hstable (0 # 100)%Q) as Hzero.
  pose proof (Hstable (1112 # 100)%Q) as Hfar.
  inversion Hsorted as [|? ? Hsorted' Hab]; subst.
  inversion Hsorted' as [|? ? _ Hbc]; subst.
  inversion Hab as [|? ? Hab' Hac]; subst.
  inversion Hac as [|? ? Hac' _]; subst.
  inversion Hbc as [|? ? Hbc' _]; subst.
  destruct (Hin a) as [-> | [-> | ->]]; [now left| | |];
    destruct (Hin b) as [-> | [-> | ->]]; try (right; now left);
    destruct (Hin c) as [-> | [-> | ->]]; try (right; right; now left);
    vm_compute in Hzero, Hfar; try discriminate Hzero;
    try discriminate Hfar;
    try (exfalso; vm_compute in Hab'; now apply Hab');
    try (exfalso; vm_compute in Hac'; now apply Hac');
    try (exfalso; vm_compute in Hbc'; now apply Hbc').
  reflexivity.
Qed.

Lemma unique_trip_keys_db_equator_far :
  NoDup (map Trip.id (trips db_equator_far)).
Proof. repeat constructor. simpl. tauto. Qed.

(** The search of user 1 from the origin with a radius of 35.01 km, over
    three locations retrieved as far, east, origin: the result is east,
    origin, far.  The far location has moved behind the others; the other
    two are both reported at 0.0 and stay as retrieved, although the
    origin is the nearer one. *)
Lemma nearby_sorted_by_reported_distance_witness :
  NoDup (map Trip.id (trips db_equator_far)) /\
  (0 < 3501 # 100)%Q /\
  @computes sample_platform 0 0 (distance_to 0 0)
            (owned_locations db_equator_far 1) /\
  run (@get_nearby_locations sample_platform 1 args_origin_wide)
      db_equator_far
  = ((NearbyResult 0 0 (3501 # 100)
        [Nearby.mk 1 (VStr "east") 0 (1 # 100000) (0 # 100) 1;
         Nearby.mk 2 (VStr "origin") 0 0 (0 # 100) 1;
         Nearby.mk 3 (VStr "far") 0 (1 # 10) (1112 # 100) 1]
        3,
      200),
     db_equator_far).
Proof.
  pose proof unique_trip_keys_db_equator_far as Hnd.
  assert (Hr : (0 < 3501 # 100)%Q) by reflexivity.
  pose proof (sample_computes 0 0 (owned_locations db_equator_far 1)) as Hc.
  split; [exact Hnd|]. split; [exact Hr|]. split; [exact Hc|].
  destruct (@nearby_sorted_by_reported_distance sample_platform
              db_equator_far 1 args_origin_wide 0 0 (3501 # 100)
              (distance_to 0 0) Hnd
              eq_refl eq_refl eq_refl eq_refl eq_refl Hr Hc)
    as (nearby & Hrun & _ & Hperm & _ & Hsorted & Hstable & _).
  rewrite equator_far_entries in Hperm, Hstable.
  rewrite Hrun.
  rewrite (equator_far_order nearby Hperm Hsorted Hstable).
  reflexivity.
Defined.

(** ** The scenario of the specification *)

Lemma distance_kinkakuji :
  (1437 / 1000 < distance_to (3501 # 100) (13571 # 100) loc_kinkakuji
   < 1438 / 1000)%R.
Proof.
  unfold distance_to, loc_kinkakuji.
  cbn [Location.latitude Location.longitude].
  rewrite !Q2R_literal.
  replace (350 / 10)%R with 35%R by field.
  exact kyoto_distance_bounds.
Qed.

Lemma round2_kinkakuji :
  round2 (distance_to (3501 # 100) (13571 # 100) loc_kinkakuji)
  = (144 # 100)%Q.
Proof.
  pose proof distance_kinkakuji as Hd.
  unfold round2. rewrite (round_half_even_up 143); [reflexivity|lra].
Qed.

Lemma nearby_kyoto_runs :
  run (@get_nearby_locations sample_platform 1 args_kyoto) db_kinkakuji
  = ((NearbyResult (3501 # 100) (13571 # 100) 5
        [Nearby.mk 1 (VStr "Kinkaku-ji") (350 # 10) (1357 # 10)
                   (144 # 100) 1]
        1,
      200),
     db_kinkakuji).
Proof.
  pose proof distance_kinkakuji as Hd.
  rewrite (get_nearby_locations_runs_exact db_kinkakuji 1
             args_kyoto (3501 # 100) (13571 # 100) 5) by reflexivity.
  cbv zeta.
  change (map fst (filter (fun lt : Location.t * Trip.t =>
                             Trip.user_id (snd lt) =? 1)
                          (join_trip db_kinkakuji)))
    with [loc_kinkakuji].
  cbn [filter].
  rewrite within_radius_true by (rewrite Q2R_literal; lra).
  cbn [map sort_by_distance fold_right sort_insert List.length].
  unfold nearby_entry. rewrite round2_kinkakuji. reflexivity.
Qed.

(** C9, as the code has it.  With the location (35.0, 135.7) stored, the
    search from (35.01, 135.71) with radius 5 returns it, with the distance
    1.44. *)
Theorem nearby_kyoto_reports_1_44 :
  run (@get_nearby_locations sample_platform 1 args_kyoto) db_kinkakuji
  = ((NearbyResult (3501 # 100) (13571 # 100) 5
        [Nearby.mk 1 (VStr "Kinkaku-ji") (350 # 10) (1357 # 10)
                   (144 # 100) 1]
        1,
      200),
     db_kinkakuji) /\
  (1437 / 1000 < haversine_distance (3501 / 100) (13571 / 100) 35 (1357 / 10)
   < 1438 / 1000)%R.
Proof. split; [exact nearby_kyoto_runs|exact kyoto_distance_bounds]. Qed.

(** C9 as stated fails: the distance reported in the scenario is 1.44,
    which is more than 0.1 km above 1.3 and does not round to 1.3. *)
Lemma nearby_kyoto_not_1_3 :
  exists e,
    fst (fst (run (@get_nearby_locations sample_platform 1 args_kyoto)
                  db_kinkakuji))
    = NearbyResult (3501 # 100) (13571 # 100) 5 [e] 1 /\
    Nearby.distance e = (144 # 100)%Q /\
    ~ (Nearby.distance e < 135 # 100)%Q /\
    (1 # 10 < Nearby.distance e - (13 # 10))%Q.
Proof.
  eexists. rewrite nearby_kyoto_runs. cbn [fst Nearby.distance].
  split; [reflexivity|]. split; [reflexivity|].
  split; [|reflexivity]. intros Hlt. discriminate Hlt.
Qed.

(* ================================================================== *)
(** * Bulk creation on items of the expected types *)

Section BulkTyped.
Context `{Platform}.





Lemma bulk_rows_length tid locs fields :
  List.length (bulk_rows tid locs fields) = List.length fields.
Proof.
  revert locs. induction fields as [|[[nm lat] lng] rest IH]; intros locs;
    simpl; [reflexivity|]. now rewrite IH.
Qed.


End BulkTyped.

(* ================================================================== *)
(** * The effect of a request on the store *)

Lemma grown_refl tid locs : grown tid locs locs.
Proof.
  exists []. split; [now rewrite app_nil_r|]. split; [auto|constructor].
Qed.

Lemma grown_trans tid l1 l2 l3 :
  grown tid l1 l2 -> grown tid l2 l3 -> grown tid l1 l3.
Proof.
  intros (n1 & -> & H1 & F1) (n2 & -> & H2 & F2). exists (n1 ++ n2)%list.
  split; [now rewrite app_assoc|]. split; [auto|].
  apply Forall_app. now split.
Qed.

Lemma grown_snoc tid locs l :
  Location.id l = next_key (map Location.id locs) ->
  Location.trip_id l = tid ->
  coordinates_in_range l ->
  grown tid locs (locs ++ [l]).
Proof.
  intros Hid Ht Hc. exists [l]. split; [reflexivity|]. split.
  - intros Hnd. rewrite map_app. simpl. rewrite Hid.
    now apply NoDup_snoc_fresh.
  - constructor; [now split|constructor].
Qed.

Lemma in_range_of_test lat lng :
  negb (lat_in_range lat) || negb (lng_in_range lng) = false ->
  lat_in_range lat = true /\ lng_in_range lng = true.
Proof.
  intros Hb. apply orb_false_iff in Hb. destruct Hb as [H1 H2].
  now apply negb_false_iff in H1, H2.
Qed.

(** A float that passes a range test is finite: the number stored is the
    number tested. *)
Lemma lat_in_range_finite x :
  lat_in_range x = true -> x = Finite (finite x).
Proof. destruct x; try discriminate. reflexivity. Qed.

Lemma lng_in_range_finite x :
  lng_in_range x = true -> x = Finite (finite x).
Proof. destruct x; try discriminate. reflexivity. Qed.

Lemma stored_in_range lat lng :
  negb (lat_in_range lat) || negb (lng_in_range lng) = false ->
  lat_in_range (finite lat) = true /\ lng_in_range (finite lng) = true.
Proof.
  intros Hb. apply in_range_of_test in Hb. destruct Hb as [H1 H2].
  now rewrite <- (lat_in_range_finite lat H1),
              <- (lng_in_range_finite lng H2).
Qed.

Section Effects.
Context `{Platform}.

Lemma bulk_item_grown tid x acc s r s' :
  bulk_item tid x acc s = (r, s') ->
  committed s' = committed s /\
  trips (pending s') = trips (pending s) /\
  grown tid (locations (pending s)) (locations (pending s')).
Proof.
  intros Hrun. unfold bulk_item in Hrun.
  execute_in Hrun; injection Hrun as <- <-;
    cbn [committed pending trips locations];
    (split; [reflexivity|split; [reflexivity|]]);
    try apply grown_refl.
  all: apply grown_snoc; try reflexivity.
  all: now apply stored_in_range.
Qed.

Lemma bulk_loop_grown tid items acc s r s' :
  for_each items (bulk_item tid) acc s = (r, s') ->
  committed s' = committed s /\
  trips (pending s') = trips (pending s) /\
  grown tid (locations (pending s)) (locations (pending s')).
Proof.
  revert acc s. induction items as [|x xs IH]; intros acc s; simpl.
  - intros [= <- <-]. split; [reflexivity|]. split; [reflexivity|].
    apply grown_refl.
  - unfold bind at 1.
    destruct (bulk_item tid x acc s) as [[acc'|e] s1] eqn:E;
      apply bulk_item_grown in E; destruct E as (Hc & Ht & He).
    + intros Hrest. apply IH in Hrest. destruct Hrest as (Hc' & Ht' & He').
      split; [congruence|]. split; [congruence|].
      eapply grown_trans; eassumption.
    + intros [= <- <-]. auto.
Qed.

Lemma create_trip_effect db uid data :
  effect uid db (snd (run (create_trip uid data) db)).
Proof.
  destruct (run (create_trip uid data) db) as [resp db'] eqn:E.
  apply create_trip_runs in E.
  destruct E as [[_ ->]|(t & _ & -> & Hid & Hu & Hd)]; [constructor|].
  now apply effect_trip_created.
Qed.

Lemma patched_trip_identity data : keeps_trip_identity (patched_trip data).
Proof. intros t. split; reflexivity. Qed.

Lemma patched_location_identity data :
  keeps_location_identity (patched_location data).
Proof. intros l. split; reflexivity. Qed.

Lemma update_trip_effect db uid tid data :
  unique_keys db ->
  effect uid db (snd (run (update_trip uid tid data) db)).
Proof.
  intros [Hnt _].
  destruct (run (update_trip uid tid data) db) as [resp db'] eqn:E.
  apply update_trip_runs in E; [|assumption]. destruct E as [Hfail Hok].
  destruct (Z.eq_dec (snd resp) 200) as [H200|Hne];
    [|simpl; rewrite (Hfail Hne); constructor].
  destruct (Hok H200) as (_ & _ & -> & t & Hin & <- & Hu & Hd).
  simpl. apply effect_trip_updated; auto using patched_trip_identity.
Qed.

Lemma delete_trip_missing db uid tid :
  find (owned_trip tid uid) (trips db) = None ->
  run (delete_trip uid tid) db = (not_found_trip, db).
Proof.
  intros E. unfold run, delete_trip, query_trip, bind, get_pending, ret.
  simpl. now rewrite E.
Qed.

Lemma delete_trip_effect db uid tid :
  unique_keys db ->
  effect uid db (snd (run (delete_trip uid tid) db)).
Proof.
  intros [_ Hnl].
  destruct (find (owned_trip tid uid) (trips db)) as [t|] eqn:E.
  - rewrite (delete_trip_found _ _ _ _ E). cbv zeta.
    destruct (commit_ok _); [|constructor].
    rewrite delete_children_rows by assumption.
    destruct (query_trip_found _ _ _ _ E) as (Hin & <- & Hu).
    simpl. now apply (effect_trip_deleted uid db t).
  - rewrite delete_trip_missing by assumption. constructor.
Qed.

Lemma added_effect db uid tid t l :
  unique_keys db ->
  find (owned_trip tid uid) (trips db) = Some t ->
  Location.id l = next_key (map Location.id (locations db)) ->
  Location.trip_id l = tid ->
  coordinates_in_range l ->
  effect uid db (mkDB (trips db) (locations db ++ [l])).
Proof.
  intros [_ Hnl] Hf Hid Ht Hc.
  destruct (query_trip_found _ _ _ _ Hf) as (Hin & Hk & Hu).
  apply (effect_locations_added uid db t [l]); auto.
  - constructor; [|constructor]. split; [congruence|exact Hc].
  - rewrite map_app. simpl. rewrite Hid. now apply NoDup_snoc_fresh.
Qed.

Lemma add_location_to_trip_effect db uid tid data :
  unique_keys db ->
  effect uid db (snd (run (add_location_to_trip uid tid data) db)).
Proof.
  intros Hu.
  destruct (run (add_location_to_trip uid tid data) db) as [resp db'] eqn:E.
  unfold add_location_to_trip in E.
  execute_in E; injection E as <- <-; cbn [snd]; try apply effect_none.
  all: eapply added_effect; eauto; try reflexivity.
  all: now apply stored_in_range.
Qed.

Lemma create_location_effect db uid data :
  unique_keys db ->
  effect uid db (snd (run (create_location uid data) db)).
Proof.
  intros Hu.
  destruct (run (create_location uid data) db) as [resp db'] eqn:E.
  unfold create_location in E.
  execute_in E; injection E as <- <-; cbn [snd]; try apply effect_none.
  all: match goal with
       | F : find (owned_trip ?k ?u) _ = Some ?t |- effect _ ?d _ =>
           eapply (added_effect d u k); eauto; try reflexivity;
           [exact (proj1 (proj2 (query_trip_found _ _ _ _ F)))
           |now apply stored_in_range]
       end.
Qed.

Lemma update_location_owner db uid lid data resp db' :
  run (update_location uid lid data) db = (resp, db') ->
  snd resp = 200 ->
  exists l, In l (locations db) /\ Location.id l = lid /\
            owned_by db uid l = true.
Proof.
  intros Hrun. unfold update_location, update_location_fields in Hrun.
  execute_in Hrun; injection Hrun as <- <-; cbn [fst snd];
    try (intros [=]; fail).
  all: intros _.
  all: match goal with
       | E : option_map fst _ = Some ?l |- _ =>
           exists l; exact (query_location_found _ _ _ _ E)
       end.
Qed.

Lemma patched_location_in_range data l :
  coordinate_valid "latitude" lat_in_range data = true ->
  coordinate_valid "longitude" lng_in_range data = true ->
  coordinates_in_range l -> coordinates_in_range (patched_location data l).
Proof.
  unfold coordinate_valid, coordinates_in_range, patched_location.
  cbn [Location.latitude Location.longitude].
  intros Hlat Hlng [Hl Hg]. split.
  - destruct (provided "latitude" data) as [v|]; [|assumption].
    destruct (py_float v) as [x|]; [|discriminate].
    now rewrite <- (lat_in_range_finite x Hlat).
  - destruct (provided "longitude" data) as [v|]; [|assumption].
    destruct (py_float v) as [x|]; [|discriminate].
    now rewrite <- (lng_in_range_finite x Hlng).
Qed.

Lemma update_location_effect db uid lid data :
  unique_keys db ->
  effect uid db (snd (run (update_location uid lid data) db)).
Proof.
  intros [_ Hnl].
  destruct (run (update_location uid lid data) db) as [resp db'] eqn:E.
  pose proof (update_location_owner _ _ _ _ _ _ E) as Hown.
  apply update_location_runs in E; [|assumption]. destruct E as [Hfail Hok].
  destruct (Z.eq_dec (snd resp) 200) as [H200|Hne];
    [|simpl; rewrite (Hfail Hne); constructor].
  destruct (Hok H200) as (Hlat & Hlng & ->).
  destruct (Hown H200) as (l & Hin & <- & Ho).
  simpl. apply effect_location_updated;
    auto using patched_location_identity, patched_location_in_range.
Qed.

Lemma delete_location_effect db uid lid :
  effect uid db (snd (run (delete_location uid lid) db)).
Proof.
  destruct (run (delete_location uid lid) db) as [resp db'] eqn:E.
  unfold delete_location in E.
  execute_in E; injection E as <- <-; cbn [snd]; try apply effect_none.
  all: match goal with
       | F : option_map fst _ = Some ?l |- _ =>
           destruct (query_location_found _ _ _ _ F) as (Hin & _ & Ho);
           now apply effect_location_deleted
       end.
Qed.

Lemma bulk_add_locations_effect db uid tid data :
  unique_keys db ->
  effect uid db (snd (run (bulk_add_locations uid tid data) db)).
Proof.
  intros [_ Hnl].
  destruct (run (bulk_add_locations uid tid data) db) as [resp db'] eqn:E.
  unfold bulk_add_locations in E.
  execute_in E; injection E as <- <-; cbn [snd]; try apply effect_none.
  all: match goal with
       | L : for_each _ _ _ _ = _ |- _ =>
           apply bulk_loop_grown in L; cbn [committed pending] in L;
           destruct L as (Lc & Lt & Lg)
       end.
  all: try (rewrite Lc; apply effect_none).
  all: match goal with
       | F : find (owned_trip _ _) _ = Some ?t |- effect _ _ (pending ?s) =>
           destruct (query_trip_found _ _ _ _ F) as (Hin & Hk & Hu);
           destruct s as [cm [ts ls]]; cbn [pending trips locations] in *;
           subst ts; destruct Lg as (new & -> & Hnd & Hall);
           apply (effect_locations_added _ _ t new); auto;
           now rewrite Hk
       end.
Qed.

Lemma serve_effect db uid r :
  unique_keys db ->
  effect uid db (snd (serve (Some uid) r db)).
Proof.
  intros Hu. unfold serve, login_required.
  destruct r; cbn [dispatch].
  - apply create_trip_effect.
  - destruct (run (get_trip uid trip_id) db) as [resp db'] eqn:E.
    unfold get_trip in E. execute_in E; injection E as <- <-; constructor.
  - now apply update_trip_effect.
  - now apply delete_trip_effect.
  - destruct (run (get_all_locations uid) db) as [resp db'] eqn:E.
    unfold get_all_locations, query_user_locations in E.
    execute_in E; injection E as <- <-; constructor.
  - now apply create_location_effect.
  - now apply add_location_to_trip_effect.
  - destruct (run (get_trip_locations uid trip_id) db) as [resp db'] eqn:E.
    unfold get_trip_locations in E.
    execute_in E; injection E as <- <-; constructor.
  - destruct (run (get_location uid location_id) db) as [resp db'] eqn:E.
    unfold get_location in E.
    execute_in E; injection E as <- <-; constructor.
  - now apply update_location_effect.
  - apply delete_location_effect.
  - unfold run.
    pose proof (get_nearby_locations_session uid args (mkSession db db))
      as Hs.
    destruct (get_nearby_locations uid args (mkSession db db)) as [[r|e] s];
      cbn [snd] in Hs; subst s; apply effect_none.
  - now apply bulk_add_locations_effect.
Qed.

End Effects.

(* ================================================================== *)
(** * Invariants of the store and isolation between users *)

Lemma filter_map_commute {A} (p : A -> bool) (g : A -> A) (l : list A) :
  (forall x, In x l -> p (g x) = p x) ->
  (forall x, In x l -> p x = true -> g x = x) ->
  filter p (map g l) = filter p l.
Proof.
  induction l as [|a l IH]; simpl; intros Hp Hg; [reflexivity|].
  rewrite (Hp a) by now left.
  destruct (p a) eqn:E.
  - rewrite (Hg a) by auto. f_equal. apply IH; auto.
  - apply IH; auto.
Qed.

Lemma filter_filter_absorb {A} (p q : A -> bool) (l : list A) :
  (forall x, In x l -> p x = true -> q x = true) ->
  filter p (filter q l) = filter p l.
Proof.
  induction l as [|a l IH]; simpl; intros Hpq; [reflexivity|].
  destruct (q a) eqn:Eq; simpl.
  - destruct (p a); [f_equal|]; apply IH; auto.
  - destruct (p a) eqn:Ep.
    + rewrite (Hpq a) in Eq by auto. discriminate.
    + apply IH; auto.
Qed.

Lemma existsb_ext_in {A} (p q : A -> bool) (l : list A) :
  (forall x, In x l -> p x = q x) -> existsb p l = existsb q l.
Proof.
  induction l as [|a l IH]; simpl; intros Hpq; [reflexivity|].
  rewrite (Hpq a) by now left. f_equal. apply IH; auto.
Qed.

Lemma existsb_map_compose {A B} (p : B -> bool) (g : A -> B) (l : list A) :
  existsb p (map g l) = existsb (fun x => p (g x)) l.
Proof.
  induction l as [|a l IH]; simpl; [reflexivity|]. now rewrite IH.
Qed.

Lemma existsb_filter_absorb {A} (p q : A -> bool) (l : list A) :
  (forall x, In x l -> p x = true -> q x = true) ->
  existsb p (filter q l) = existsb p l.
Proof.
  induction l as [|a l IH]; simpl; intros Hpq; [reflexivity|].
  destruct (q a) eqn:Eq; simpl; rewrite IH by auto; [reflexivity|].
  destruct (p a) eqn:Ep; [|reflexivity].
  rewrite (Hpq a) in Eq by auto. discriminate.
Qed.

Lemma owned_by_trips db db' uid l :
  trips db' = trips db -> owned_by db' uid l = owned_by db uid l.
Proof. unfold owned_by. now intros ->. Qed.

Lemma owned_by_intro db uid l t :
  In t (trips db) -> Trip.id t = Location.trip_id l -> Trip.user_id t = uid ->
  owned_by db uid l = true.
Proof.
  intros Hin Hk Hu. unfold owned_by. apply existsb_exists. exists t.
  split; [assumption|]. now rewrite Hk, Hu, !Z.eqb_refl.
Qed.

Lemma owned_by_elim db uid l :
  owned_by db uid l = true ->
  exists t, In t (trips db) /\ Trip.id t = Location.trip_id l /\
            Trip.user_id t = uid.
Proof.
  unfold owned_by. intros Hb. apply existsb_exists in Hb.
  destruct Hb as (t & Hin & Hb). apply andb_true_iff in Hb.
  destruct Hb as [H1 H2]. apply Z.eqb_eq in H1, H2. eauto.
Qed.

Lemma effect_sound uid db db' :
  sound db -> effect uid db db' -> sound db'.
Proof.
  intros [[[Hnt Hnl] Hd] [Hc Ho]] He.
  destruct He as [|t Hid Hu Hdt|t f Hin Hu Hf Hdt|t Hin Hu
                  |t new Hin Hu Hall Hnd|l f Hin Hown Hf Hcl|l Hin Hown].
  - repeat split; assumption.
  - repeat split; simpl; auto.
    + rewrite map_app. simpl. rewrite Hid. now apply NoDup_snoc_fresh.
    + apply Forall_app. split; [assumption|]. now constructor.
    + intros l Hl. destruct (Ho l Hl) as (t' & Ht' & Hk).
      exists t'. split; [apply in_or_app; now left|assumption].
  - repeat split; simpl; auto.
    + rewrite map_key_rewrite; [assumption|]. intros x. apply Hf.
    + apply Forall_forall. intros x Hx. apply in_map_iff in Hx.
      destruct Hx as (y & Hy & Hyin). rewrite Forall_forall in Hd.
      destruct (Z.eqb_spec (Trip.id y) (Trip.id t)) as [Hk|Hk].
      * assert (y = t) by
            (apply (unique_key_row Trip.id (trips db)); assumption).
        subst y x. exact Hdt.
      * subst x. now apply Hd.
    + intros l Hl. destruct (Ho l Hl) as (t' & Ht' & Hk).
      exists (if Trip.id t' =? Trip.id t then f t' else t'). split.
      * apply in_map_iff. now exists t'.
      * destruct (Trip.id t' =? Trip.id t); [|assumption].
        now rewrite (proj1 (Hf t')).
  - repeat split; simpl.
    + now apply NoDup_map_filter.
    + now apply NoDup_map_filter.
    + now apply Forall_filter.
    + now apply Forall_filter.
    + intros l Hl. simpl in Hl. apply filter_In in Hl.
      destruct Hl as [Hl Hb]. apply negb_true_iff, Z.eqb_neq in Hb.
      destruct (Ho l Hl) as (t' & Ht' & Hk). exists t'.
      split; [|assumption]. simpl. apply filter_In. split; [assumption|].
      apply negb_true_iff, Z.eqb_neq. congruence.
  - repeat split; simpl; auto.
    + apply Forall_app. split; [assumption|].
      eapply Forall_impl; [|exact Hall]. now intros x [_ Hx].
    + intros l Hl. apply in_app_or in Hl. destruct Hl as [Hl|Hl]; [auto|].
      rewrite Forall_forall in Hall. destruct (Hall l Hl) as [Hk _].
      exists t. split; [assumption|now symmetry].
  - repeat split; simpl; auto.
    + rewrite map_key_rewrite; [assumption|]. intros x. apply Hf.
    + apply Forall_forall. intros x Hx. apply in_map_iff in Hx.
      destruct Hx as (y & Hy & Hyin). rewrite Forall_forall in Hc.
      destruct (Z.eqb_spec (Location.id y) (Location.id l)) as [Hk|Hk].
      * assert (y = l) by
            (apply (unique_key_row Location.id (locations db)); assumption).
        subst y x. apply Hcl. now apply Hc.
      * subst x. now apply Hc.
    + intros x Hx. simpl in Hx. apply in_map_iff in Hx.
      destruct Hx as (y & Hy & Hyin).
      destruct (Ho y Hyin) as (t' & Ht' & Hk). exists t'.
      split; [assumption|]. subst x.
      destruct (Location.id y =? Location.id l); [|assumption].
      now rewrite (proj2 (Hf y)).
  - repeat split; simpl; auto.
    + now apply NoDup_map_filter.
    + now apply Forall_filter.
    + intros x Hx. simpl in Hx. apply filter_In in Hx. now apply Ho.
Qed.

Lemma effect_others uid db db' :
  sound db -> effect uid db db' ->
  others_trips db' uid = others_trips db uid /\
  others_locations db' uid = others_locations db uid.
Proof.
  intros [[[Hnt Hnl] Hd] [Hc Ho]] He.
  unfold others_trips, others_locations.
  destruct He as [|t Hid Hu Hdt|t f Hin Hu Hf Hdt|t Hin Hu
                  |t new Hin Hu Hall Hnd|l f Hin Hown Hf Hcl|l Hin Hown].
  - split; reflexivity.
  - cbn [trips locations]. split.
    + rewrite filter_app. cbn [filter]. rewrite Hu, Z.eqb_refl.
      cbn [negb]. now rewrite app_nil_r.
    + apply filter_ext_in. intros l Hl. f_equal. unfold owned_by.
      cbn [trips]. rewrite existsb_app. cbn [existsb].
      destruct (Z.eqb_spec (Trip.id t) (Location.trip_id l)) as [Hk|Hk];
        [|cbn; now rewrite !orb_false_r].
      exfalso. destruct (Ho l Hl) as (t' & Ht' & Hk').
      assert (Hlt : Trip.id t' < next_key (map Trip.id (trips db)))
        by (apply next_key_above; now apply in_map).
      lia.
  - unfold rewrite_trip. cbn [trips locations]. split.
    + apply filter_map_commute.
      * intros x _. destruct (Trip.id x =? Trip.id t); [|reflexivity].
        now rewrite (proj2 (Hf x)).
      * intros x Hx Hb. destruct (Z.eqb_spec (Trip.id x) (Trip.id t));
          [|reflexivity].
        assert (x = t) by
            (apply (unique_key_row Trip.id (trips db)); assumption).
        subst x. rewrite Hu, Z.eqb_refl in Hb. discriminate.
    + apply filter_ext. intros l. f_equal. unfold owned_by. cbn [trips].
      rewrite existsb_map_compose. apply existsb_ext_in. intros x _.
      destruct (Trip.id x =? Trip.id t); [|reflexivity].
      now rewrite (proj1 (Hf x)), (proj2 (Hf x)).
  - unfold without_trip. cbn [trips locations]. split.
    + apply filter_filter_absorb. intros x Hx Hb.
      apply negb_true_iff, Z.eqb_neq. intros Hk.
      assert (x = t) by
          (apply (unique_key_row Trip.id (trips db)); assumption).
      subst x. rewrite Hu, Z.eqb_refl in Hb. discriminate.
    + transitivity
        (filter (fun l => negb (owned_by db uid l))
                (filter (fun l => negb (Location.trip_id l =? Trip.id t))
                        (locations db))).
      * apply filter_ext_in. intros l Hl. apply filter_In in Hl.
        destruct Hl as [_ Hb]. apply negb_true_iff, Z.eqb_neq in Hb.
        f_equal. unfold owned_by. cbn [trips].
        apply existsb_filter_absorb. intros x _ Hx.
        apply andb_true_iff in Hx. destruct Hx as [Hx _].
        apply Z.eqb_eq in Hx. apply negb_true_iff, Z.eqb_neq. congruence.
      * apply filter_filter_absorb. intros l Hl Hb.
        apply negb_true_iff, Z.eqb_neq. intros Hk.
        rewrite (owned_by_intro db uid l t) in Hb by auto. discriminate.
  - cbn [trips locations]. split; [reflexivity|].
    rewrite filter_app.
    assert (Hnew : filter (fun l => negb (owned_by db uid l)) new = []).
    { clear Hnd. induction Hall as [|x xs [Hx _] _ IH]; [reflexivity|].
      cbn [filter]. rewrite (owned_by_intro db uid x t) by auto.
      exact IH. }
    unfold owned_by at 1 2. cbn [trips]. fold (owned_by db uid).
    change (fun l => negb (existsb
              (fun t0 => (Trip.id t0 =? Location.trip_id l)
                         && (Trip.user_id t0 =? uid)) (trips db)))
      with (fun l => negb (owned_by db uid l)).
    now rewrite Hnew, app_nil_r.
  - unfold rewrite_location. cbn [trips locations]. split; [reflexivity|].
    change (fun l0 => negb (owned_by
              {| trips := trips db;
                 locations :=
                   map (fun l1 => if Location.id l1 =? Location.id l
                                  then f l1 else l1) (locations db) |}
              uid l0))
      with (fun l0 => negb (owned_by db uid l0)).
    apply filter_map_commute.
    + intros x _. destruct (Location.id x =? Location.id l); [|reflexivity].
      unfold owned_by. now rewrite (proj2 (Hf x)).
    + intros x Hx Hb.
      destruct (Z.eqb_spec (Location.id x) (Location.id l)); [|reflexivity].
      assert (x = l) by
          (apply (unique_key_row Location.id (locations db)); assumption).
      subst x. rewrite Hown in Hb. discriminate.
  - cbn [trips locations]. split; [reflexivity|].
    change (fun l0 => negb (owned_by
              {| trips := trips db;
                 locations :=
                   filter (fun x => negb (Location.id x =? Location.id l))
                          (locations db) |}
              uid l0))
      with (fun l0 => negb (owned_by db uid l0)).
    apply filter_filter_absorb. intros x Hx Hb.
    apply negb_true_iff, Z.eqb_neq. intros Hk.
    assert (x = l) by
        (apply (unique_key_row Location.id (locations db)); assumption).
    subst x. rewrite Hown in Hb. discriminate.
Qed.

Section Soundness.
Context `{Platform}.

Lemma serve_sound db user r : sound db -> sound (snd (serve user r db)).
Proof.
  intros Hs. destruct user as [uid|]; [|exact Hs].
  apply (effect_sound uid db); [assumption|].
  apply serve_effect. apply Hs.
Qed.

Lemma reachable_sound db : reachable db -> sound db.
Proof.
  induction 1 as [|db user r _ IH].
  - repeat split; simpl; try constructor. intros l [].
  - now apply serve_sound.
Qed.

(** X1. In every store the application reaches, every location has its
    latitude in [-90, 90] and its longitude in [-180, 180]: the four
    routes that write coordinates check them. *)
Theorem stored_coordinates_in_range (db : DB) :
  reachable db ->
  forall l, In l (locations db) ->
            (-90 <= Location.latitude l <= 90)%Q /\
            (-180 <= Location.longitude l <= 180)%Q.
Proof.
  intros Hr l Hl. destruct (reachable_sound db Hr) as (_ & Hc & _).
  rewrite Forall_forall in Hc. destruct (Hc l Hl) as [Hlat Hlng].
  unfold lat_in_range, lng_in_range in *.
  apply andb_true_iff in Hlat, Hlng.
  destruct Hlat as [H1 H2], Hlng as [H3 H4].
  apply Qle_bool_iff in H1, H2, H3, H4. auto.
Qed.

(** X2. In every store the application reaches, every location refers to
    a trip that is in the store: a location is created under a trip that
    was found, and deleting a trip deletes its locations. *)
Theorem stored_locations_have_their_trip (db : DB) :
  reachable db ->
  forall l, In l (locations db) ->
            exists t, In t (trips db) /\ Trip.id t = Location.trip_id l.
Proof.
  intros Hr. destruct (reachable_sound db Hr) as (_ & _ & Ho). exact Ho.
Qed.

(** X3. Whatever request a user sends, in a store the application has
    reached, the trips of the other users and the locations that are not
    under a trip of that user are the same rows, in the same order, after
    the request as before it. *)
Theorem requests_leave_others_untouched (db : DB) (uid : Z) (r : request) :
  reachable db ->
  others_trips (snd (serve (Some uid) r db)) uid = others_trips db uid /\
  others_locations (snd (serve (Some uid) r db)) uid
  = others_locations db uid.
Proof.
  intros Hr. pose proof (reachable_sound db Hr) as Hs.
  apply effect_others; [assumption|].
  apply serve_effect. apply Hs.
Qed.

End Soundness.

Lemma stored_coordinates_in_range_witness :
  @reachable sample_platform db_kinkakuji /\
  (-90 <= Location.latitude loc_kinkakuji <= 90)%Q /\
  (-180 <= Location.longitude loc_kinkakuji <= 180)%Q.
Proof.
  pose proof db_kinkakuji_reachable as Hr. split; [exact Hr|].
  apply (@stored_coordinates_in_range sample_platform db_kinkakuji Hr).
  rewrite db_kinkakuji_eq. left. reflexivity.
Defined.

Lemma stored_locations_have_their_trip_witness :
  @reachable sample_platform db_kinkakuji /\
  exists t, In t (trips db_kinkakuji) /\
            Trip.id t = Location.trip_id loc_kinkakuji.
Proof.
  pose proof db_kinkakuji_reachable as Hr. split; [exact Hr|].
  apply (@stored_locations_have_their_trip sample_platform db_kinkakuji Hr).
  rewrite db_kinkakuji_eq. left. reflexivity.
Defined.

(** User 2 asks to delete the trip of user 1, and creates a trip of their
    own: the rows of user 1 stay. *)
Lemma requests_leave_others_untouched_witness :
  @reachable sample_platform db_kinkakuji /\
  others_trips (snd (@serve sample_platform (Some 2) (DELETE_trip 1)
                       db_kinkakuji)) 2
  = trips db_kinkakuji /\
  others_locations (snd (@serve sample_platform (Some 2) (POST_trips kyoto)
                           db_kinkakuji)) 2
  = locations db_kinkakuji.
Proof.
  pose proof db_kinkakuji_reachable as Hr. split; [exact Hr|]. split.
  - rewrite (proj1 (@requests_leave_others_untouched sample_platform
                      db_kinkakuji 2 (DELETE_trip 1) Hr)).
    reflexivity.
  - rewrite (proj2 (@requests_leave_others_untouched sample_platform
                      db_kinkakuji 2 (POST_trips kyoto) Hr)).
    reflexivity.
Defined.

(* ================================================================== *)
(** * Rows of other users are protected; reading changes nothing *)

Section Protection.
Context `{Platform}.



Lemma trip_locations_eval t s :
  trip_locations t s = (Ok (children_of (pending s) (Trip.id t)), s).
Proof. reflexivity. Qed.

Lemma get_trips_loop ts acc s :
  for_each ts
           (fun trip acc =>
              locs <- trip_locations trip ;;
              ret (acc ++ [(trip, List.length locs)])%list)
           acc s
  = (Ok (acc ++ map (fun t =>
                       (t, List.length (children_of (pending s) (Trip.id t))))
                    ts)%list,
     s).
Proof.
  revert acc. induction ts as [|t ts IH]; intros acc; cbn [for_each map].
  - unfold ret. now rewrite app_nil_r.
  - unfold bind at 1. unfold bind at 1. rewrite trip_locations_eval.
    unfold ret at 1. rewrite IH. now rewrite <- app_assoc.
Qed.

Lemma get_trips_observed db uid :
  observe (get_trips uid) db
  = (Ok (map (fun t => (t, List.length (children_of db (Trip.id t))))
             (filter (fun t => Trip.user_id t =? uid) (trips db)),
         200),
     db).
Proof.
  unfold observe, get_trips. unfold bind at 1, get_pending.
  unfold bind at 1. rewrite get_trips_loop. reflexivity.
Qed.

(** X6. The routes that read (a trip, the trips, the locations of a trip
    or of the user, a location, the nearby search) leave the store as it
    was, for every caller and every input. *)
Theorem reading_changes_nothing (db : DB) (uid : Z) :
  snd (observe (get_trips uid) db) = db /\
  (forall tid, snd (run (get_trip uid tid) db) = db) /\
  (forall tid, snd (run (get_trip_locations uid tid) db) = db) /\
  snd (run (get_all_locations uid) db) = db /\
  (forall lid, snd (run (get_location uid lid) db) = db) /\
  (forall args, snd (run (get_nearby_locations uid args) db) = db).
Proof.
  split; [now rewrite get_trips_observed|].
  split; [|split; [|split; [|split]]]; intros.
  5:{ unfold run.
      pose proof (get_nearby_locations_session uid args (mkSession db db))
        as Hs.
      destruct (get_nearby_locations uid args (mkSession db db))
        as [[r|e] s]; cbn [snd] in Hs; subst s; reflexivity. }
  all: match goal with
       | |- snd (run ?h ?d) = _ =>
           destruct (run h d) as [resp db'] eqn:E
       end;
    unfold get_trip, get_all_locations, get_trip_locations, get_location,
      query_user_locations in E;
    execute_in E; injection E as <- <-; reflexivity.
Qed.

End Protection.




(* ================================================================== *)
(** * Creating, reading back and deleting *)

Lemma find_exists {A} (f : A -> bool) (l : list A) (x : A) :
  In x l -> f x = true -> exists y, find f l = Some y.
Proof.
  intros Hin Hf. destruct (find f l) as [y|] eqn:E; [now exists y|].
  rewrite (find_none f l E x Hin) in Hf. discriminate.
Qed.

Lemma find_owned_trip db t :
  NoDup (map Trip.id (trips db)) -> In t (trips db) ->
  find (owned_trip (Trip.id t) (Trip.user_id t)) (trips db) = Some t.
Proof.
  intros Hnd Hin.
  destruct (find_exists (owned_trip (Trip.id t) (Trip.user_id t))
              (trips db) t Hin) as [y Hy].
  { unfold owned_trip. now rewrite !Z.eqb_refl. }
  rewrite Hy. f_equal.
  destruct (query_trip_found _ _ _ _ Hy) as (Hyin & Hk & _).
  apply (unique_key_row Trip.id (trips db)); assumption.
Qed.

Lemma find_trip_by_key db t :
  NoDup (map Trip.id (trips db)) -> In t (trips db) ->
  find (fun x => Trip.id x =? Trip.id t) (trips db) = Some t.
Proof.
  intros Hnd Hin.
  destruct (find_exists (fun x => Trip.id x =? Trip.id t)
              (trips db) t Hin (Z.eqb_refl _)) as [y Hy].
  rewrite Hy. f_equal. apply find_some in Hy. destruct Hy as [Hyin Hk].
  apply Z.eqb_eq in Hk.
  apply (unique_key_row Trip.id (trips db)); assumption.
Qed.

(** With unique keys, the query of a location by its owner finds it. *)
Lemma query_location_owner db uid l :
  unique_keys db -> In l (locations db) -> owned_by db uid l = true ->
  option_map fst
    (find (fun lt => (Location.id (fst lt) =? Location.id l)
                     && (Trip.user_id (snd lt) =? uid))
          (join_trip db)) = Some l.
Proof.
  intros [Hnt Hnl] Hin Ho.
  destruct (owned_by_elim _ _ _ Ho) as (t & Ht & Hk & Hu).
  destruct (find_exists
              (fun lt : Location.t * Trip.t =>
                 (Location.id (fst lt) =? Location.id l)
                 && (Trip.user_id (snd lt) =? uid))
              (join_trip db) (l, t)) as [[l' t'] Hy].
  { apply in_join_trip. auto. }
  { cbn [fst snd]. now rewrite Hu, !Z.eqb_refl. }
  rewrite Hy. cbn [option_map fst]. f_equal.
  apply find_some in Hy. destruct Hy as [Hj Hb].
  apply in_join_trip in Hj. destruct Hj as (Hl' & _ & _).
  cbn [fst snd] in Hb. apply andb_true_iff in Hb. destruct Hb as [Hb _].
  apply Z.eqb_eq in Hb.
  apply (unique_key_row Location.id (locations db)); assumption.
Qed.

Lemma in_range_test (lat lng : Q) :
  (-90 <= lat <= 90)%Q -> (-180 <= lng <= 180)%Q ->
  lat_in_range lat = true /\ lng_in_range lng = true.
Proof.
  intros [H1 H2] [H3 H4]. unfold lat_in_range, lng_in_range. cbn [fle].
  apply Qle_bool_iff in H1, H2, H3, H4. now rewrite H1, H2, H3, H4.
Qed.

Section Creating.
Context `{Platform}.

Lemma create_trip_succeeds db uid kv dest sv ev sd ed :
  lookup "destination" kv = Some dest ->
  lookup "start_date" kv = Some sv -> py_strptime sv = Ok sd ->
  lookup "end_date" kv = Some ev -> py_strptime ev = Ok ed ->
  date_ltb ed sd = false ->
  let t := Trip.mk (next_key (map Trip.id (trips db)))
                   (column_text dest) sd ed uid in
  let after := mkDB (trips db ++ [t]) (locations db) in
  run (create_trip uid (VDict kv)) db
  = if commit_ok after then ((TripCreated t, 201), after)
    else ((DatabaseError, 500), db).
Proof.
  intros Hd Hs Hsd He Hed Hlt. cbv zeta.
  assert (Hk : has_keys ["destination"; "start_date"; "end_date"] kv = true)
    by (unfold has_keys; cbn [forallb]; now rewrite Hd, Hs, He).
  unfold run, create_trip, bind at 1, lift at 1. rewrite missing_dict, Hk.
  rewrite (has_keys_truthy _ _ "destination" Hk) by (simpl; tauto).
  cbn [negb orb]. unfold try_except, bind, lift, getitem.
  rewrite Hs, Hsd, He, Hed, Hlt, Hd.
  unfold add_trip, bind, get_pending, modify_pending, ret, commit.
  cbn [pending committed trips locations].
  destruct (commit_ok _); reflexivity.
Qed.

(** X7. A trip created with a destination and two dates, the end not
    before the start (the same day is accepted), is answered with 201 and
    the trip as stored, its destination being the text the column holds
    for the value given; the same user then reads it back by its key,
    with an empty list of locations.  The store is one the application
    has reached and accepts the commit. *)
Theorem created_trip_is_read_back
    (db : DB) (uid : Z) (kv : list (string * value))
    (dest sv ev : value) (sd ed : date) :
  reachable db ->
  lookup "destination" kv = Some dest ->
  lookup "start_date" kv = Some sv -> py_strptime sv = Ok sd ->
  lookup "end_date" kv = Some ev -> py_strptime ev = Ok ed ->
  date_ltb ed sd = false ->
  let t := Trip.mk (next_key (map Trip.id (trips db)))
                   (column_text dest) sd ed uid in
  let after := mkDB (trips db ++ [t]) (locations db) in
  commit_ok after = true ->
  run (create_trip uid (VDict kv)) db = ((TripCreated t, 201), after) /\
  run (get_trip uid (Trip.id t)) after = ((TripDetail t [], 200), after).
Proof.
  intros Hr Hd Hs Hsd He Hed Hlt t after Hc.
  pose proof (create_trip_succeeds db uid kv dest sv ev sd ed
                Hd Hs Hsd He Hed Hlt) as Hrun.
  cbv zeta in Hrun. fold t after in Hrun. rewrite Hc in Hrun.
  split; [exact Hrun|].
  assert (Hsound : sound after).
  { replace after with (snd (run (create_trip uid (VDict kv)) db))
      by now rewrite Hrun.
    apply (serve_sound db (Some uid) (POST_trips (VDict kv))).
    now apply reachable_sound. }
  destruct Hsound as [[[Hnt _] _] _].
  destruct (reachable_sound db Hr) as (_ & _ & Ho).
  unfold run, get_trip, query_trip, bind, get_pending, ret.
  cbn [pending].
  assert (Hin : In t (trips after)) by (apply in_or_app; right; now left).
  pose proof (find_owned_trip after t Hnt Hin) as Hf.
  cbn [Trip.id Trip.user_id t] in Hf. cbn [Trip.id t]. rewrite Hf.
  unfold trip_locations, bind, get_pending, ret. cbn [pending committed].
  replace (filter (fun l => Location.trip_id l =? Trip.id t)
                  (locations after)) with (@nil Location.t); [reflexivity|].
  symmetry. cbn [after locations].
  destruct (filter (fun l => Location.trip_id l =? Trip.id t) (locations db))
    as [|x xs] eqn:Ef; [reflexivity|].
  assert (Hx : In x (filter (fun l => Location.trip_id l =? Trip.id t)
                            (locations db))) by (rewrite Ef; now left).
  apply filter_In in Hx. destruct Hx as [Hx Hk]. apply Z.eqb_eq in Hk.
  destruct (Ho x Hx) as (t' & Ht' & Hk').
  assert (Trip.id t' < next_key (map Trip.id (trips db)))
    by (apply next_key_above; now apply in_map).
  cbn [Trip.id t] in Hk. lia.
Qed.

Lemma add_location_to_trip_succeeds db uid tid trip kv nm lv gv
    (lat lng : Q) :
  find (owned_trip tid uid) (trips db) = Some trip ->
  lookup "name" kv = Some nm ->
  lookup "latitude" kv = Some lv -> py_float lv = Ok lat ->
  lookup "longitude" kv = Some gv -> py_float gv = Ok lng ->
  lat_in_range lat = true -> lng_in_range lng = true ->
  let l := Location.mk (next_key (map Location.id (locations db)))
                       (column_text nm) lat lng tid in
  let after := mkDB (trips db) (locations db ++ [l]) in
  run (add_location_to_trip uid tid (VDict kv)) db
  = if commit_ok after then ((LocationAdded l, 201), after)
    else ((DatabaseError, 500), db).
Proof.
  intros Hf Hn Hl Hlat Hg Hlng Hla Hln. cbv zeta.
  assert (Hk : has_keys ["name"; "latitude"; "longitude"] kv = true)
    by (unfold has_keys; cbn [forallb]; now rewrite Hn, Hl, Hg).
  unfold run, add_location_to_trip, query_trip.
  unfold bind at 1. unfold bind at 1. unfold get_pending, ret.
  cbn [pending]. rewrite Hf.
  unfold bind at 1, lift at 1. rewrite missing_dict, Hk.
  rewrite (has_keys_truthy _ _ "name" Hk) by (simpl; tauto).
  cbn [negb orb]. unfold try_except, bind, lift, getitem.
  rewrite Hl, Hlat, Hg, Hlng, Hla, Hln, Hn. cbn [negb orb].
  unfold add_location, bind, get_pending, modify_pending, ret, commit.
  cbn [pending committed trips locations].
  destruct (commit_ok _); reflexivity.
Qed.

(** X8. The owner of a trip adds a location with a name and coordinates
    that are numbers with -90 <= latitude <= 90 and -180 <= longitude <=
    180 (the bounds included): the answer is 201 with the location as
    stored, under that trip, its name being the text the column holds for
    the value given; the owner then reads it back by its key, with its
    trip, and finds it last in the list of the trip.  The store has
    unique keys and accepts the commit. *)
Theorem added_location_is_read_back
    (db : DB) (uid : Z) (trip : Trip.t) (kv : list (string * value))
    (nm lv gv : value) (lat lng : Q) :
  unique_keys db ->
  In trip (trips db) -> Trip.user_id trip = uid ->
  lookup "name" kv = Some nm ->
  lookup "latitude" kv = Some lv -> py_float lv = Ok lat ->
  lookup "longitude" kv = Some gv -> py_float gv = Ok lng ->
  (-90 <= lat <= 90)%Q -> (-180 <= lng <= 180)%Q ->
  let tid := Trip.id trip in
  let l := Location.mk (next_key (map Location.id (locations db)))
                       (column_text nm) lat lng tid in
  let after := mkDB (trips db) (locations db ++ [l]) in
  commit_ok after = true ->
  run (add_location_to_trip uid tid (VDict kv)) db
  = ((LocationAdded l, 201), after) /\
  run (get_location uid (Location.id l)) after
  = ((LocationDetail l trip, 200), after) /\
  run (get_trip_locations uid tid) after
  = ((LocationList (children_of db tid ++ [l]), 200), after).
Proof.
  intros Hu Hin Huid Hn Hl Hlat Hg Hlng Hla Hln tid l after Hc.
  destruct (in_range_test lat lng Hla Hln) as [Rla Rln].
  pose proof Hu as [Hnt Hnl].
  assert (Hf : find (owned_trip tid uid) (trips db) = Some trip)
    by (subst uid; now apply find_owned_trip).
  pose proof (add_location_to_trip_succeeds db uid tid trip kv nm lv gv
                lat lng Hf Hn Hl Hlat Hg Hlng Rla Rln) as Hrun.
  cbv zeta in Hrun. fold l after in Hrun. rewrite Hc in Hrun.
  split; [exact Hrun|].
  assert (Hua : unique_keys after).
  { split; [exact Hnt|]. cbn [after locations]. rewrite map_app.
    now apply NoDup_snoc_fresh. }
  assert (Hla' : In l (locations after))
    by (apply in_or_app; right; now left).
  assert (Ho : owned_by after uid l = true)
    by (apply (owned_by_intro after uid l trip); auto).
  split.
  - unfold run, get_location, query_location.
    unfold bind at 1. unfold bind at 1. unfold get_pending, ret.
    cbn [pending]. rewrite (query_location_owner after uid l Hua Hla' Ho).
    unfold query_trip_by_key, bind, get_pending, ret. cbn [pending].
    change (Location.trip_id l) with (Trip.id trip).
    change (trips after) with (trips db).
    now rewrite (find_trip_by_key db trip Hnt Hin).
  - unfold run, get_trip_locations, query_trip, bind, get_pending, ret.
    cbn [pending]. change (trips after) with (trips db). rewrite Hf.
    unfold trip_locations, bind, get_pending, ret. cbn [pending committed].
    unfold children_of. cbn [after locations]. rewrite filter_app.
    cbn [filter Location.trip_id l]. fold tid. now rewrite Z.eqb_refl.
Qed.

Lemma add_location_to_trip_stores db uid tid trip kv nm lv gv :
  find (owned_trip tid uid) (trips db) = Some trip ->
  lookup "name" kv = Some nm ->
  lookup "latitude" kv = Some lv ->
  lookup "longitude" kv = Some gv ->
  run (add_location_to_trip uid tid (VDict kv)) db
  = run (store_location LocationAdded nm lv gv tid) db.
Proof.
  intros Hf Hn Hl Hg.
  assert (Hk : has_keys ["name"; "latitude"; "longitude"] kv = true)
    by (unfold has_keys; cbn [forallb]; now rewrite Hn, Hl, Hg).
  unfold run, add_location_to_trip, store_location, query_trip.
  unfold bind at 1. unfold bind at 1. unfold get_pending, ret.
  cbn [pending]. rewrite Hf.
  unfold bind at 1, lift at 1. rewrite missing_dict, Hk.
  rewrite (has_keys_truthy _ _ "name" Hk) by (simpl; tauto).
  cbn [negb orb]. unfold try_except, bind, lift, getitem.
  rewrite Hl, Hg, Hn.
  destruct (py_float lv); [|reflexivity].
  destruct (py_float gv); reflexivity.
Qed.

Lemma create_location_stores db uid tid trip kv tv nm lv gv :
  lookup "trip_id" kv = Some tv -> sql_key tv = Some tid ->
  find (owned_trip tid uid) (trips db) = Some trip ->
  lookup "name" kv = Some nm ->
  lookup "latitude" kv = Some lv ->
  lookup "longitude" kv = Some gv ->
  run (create_location uid (VDict kv)) db
  = run (store_location LocationCreated nm lv gv tid) db.
Proof.
  intros Htv Hkey Hf Hn Hl Hg.
  assert (Hk : has_keys ["name"; "latitude"; "longitude"; "trip_id"] kv
               = true)
    by (unfold has_keys; cbn [forallb]; now rewrite Hn, Hl, Hg, Htv).
  destruct (query_trip_found _ _ _ _ Hf) as (_ & Hid & _).
  unfold run, create_location, store_location.
  unfold bind at 1, lift at 1. rewrite missing_dict, Hk.
  rewrite (has_keys_truthy _ _ "name" Hk) by (simpl; tauto).
  cbn [negb orb]. unfold bind at 1, lift at 1, getitem at 1. rewrite Htv.
  unfold query_trip_value. rewrite Hkey.
  unfold query_trip. unfold bind at 1. unfold bind at 1.
  unfold get_pending, ret. cbn [pending]. rewrite Hf.
  unfold try_except, bind, lift, getitem. rewrite Hl, Hg, Hn, Hid.
  destruct (py_float lv); [|reflexivity].
  destruct (py_float gv); reflexivity.
Qed.

Lemma store_location_labels db nm lv gv tid :
  run (store_location LocationCreated nm lv gv tid) db
  = as_created (run (store_location LocationAdded nm lv gv tid) db).
Proof.
  unfold run, store_location, try_except, bind, lift.
  destruct (py_float lv) as [lat|[]]; try reflexivity.
  destruct (py_float gv) as [lng|[]]; try reflexivity.
  destruct (negb (lat_in_range lat) || negb (lng_in_range lng));
    [reflexivity|].
  unfold add_location, bind, get_pending, modify_pending, ret, commit,
    location_handler, rollback, bind, ret.
  cbn [pending committed trips locations].
  destruct (commit_ok _); reflexivity.
Qed.

(** X9. For a JSON object with the four keys whose [trip_id] denotes the
    key [tid], the standalone creation route does what the route of trip
    [tid] does on the same body: the same status, the same error or the
    same new location, the same store. *)
Theorem create_location_is_add_location_to_trip
    (db : DB) (uid tid : Z) (kv : list (string * value)) (tv : value) :
  has_keys ["name"; "latitude"; "longitude"; "trip_id"] kv = true ->
  lookup "trip_id" kv = Some tv ->
  sql_key tv = Some tid ->
  run (create_location uid (VDict kv)) db
  = as_created (run (add_location_to_trip uid tid (VDict kv)) db).
Proof.
  intros Hk Htv Hkey.
  destruct (has_keys_lookup _ _ "name" Hk) as [nm Hn]; [simpl; tauto|].
  destruct (has_keys_lookup _ _ "latitude" Hk) as [lv Hl]; [simpl; tauto|].
  destruct (has_keys_lookup _ _ "longitude" Hk) as [gv Hg];
    [simpl; tauto|].
  destruct (find (owned_trip tid uid) (trips db)) as [trip|] eqn:Ef.
  - rewrite (create_location_stores db uid tid trip kv tv nm lv gv)
      by assumption.
    rewrite (add_location_to_trip_stores db uid tid trip kv nm lv gv)
      by assumption.
    apply store_location_labels.
  - assert (Hno : trip_not_owned db tid uid).
    { intros t Ht Hid Hu. rewrite find_none_iff in Ef.
      specialize (Ef t Ht). unfold owned_trip in Ef.
      rewrite Hid, Hu, !Z.eqb_refl in Ef. discriminate. }
    rewrite (create_location_not_owned db uid tid kv tv) by assumption.
    now rewrite add_location_to_trip_not_owned.
Qed.

(** X10. The owner of a trip posts an object with the three keys.  When
    [float()] takes both coordinates and one is out of range, NaN or
    infinite, the answer is 400 "Invalid coordinates"; when [float()]
    raises [ValueError] on the latitude, or on the longitude after it took
    the latitude (a string that is not a number), the answer is 400
    "Invalid coordinate format"; when it raises [TypeError] (null, a list,
    an object) or [OverflowError] (an integer beyond the range of floats),
    no handler catches it and the answer is 500.  Nothing is stored. *)
Theorem add_location_rejects_bad_coordinates
    (db : DB) (uid tid : Z) (trip : Trip.t) (kv : list (string * value))
    (nm lv gv : value) :
  find (owned_trip tid uid) (trips db) = Some trip ->
  lookup "name" kv = Some nm ->
  lookup "latitude" kv = Some lv ->
  lookup "longitude" kv = Some gv ->
  (forall lat lng,
      py_float lv = Ok lat -> py_float gv = Ok lng ->
      lat_in_range lat && lng_in_range lng = false ->
      run (add_location_to_trip uid tid (VDict kv)) db
      = ((Error "Invalid coordinates", 400), db)) /\
  (py_float lv = Raise ValueError \/
   (exists lat, py_float lv = Ok lat) /\ py_float gv = Raise ValueError ->
   run (add_location_to_trip uid tid (VDict kv)) db
   = ((Error "Invalid coordinate format", 400), db)) /\
  (forall e,
      e = TypeError \/ e = OverflowError ->
      py_float lv = Raise e \/
      (exists lat, py_float lv = Ok lat) /\ py_float gv = Raise e ->
      run (add_location_to_trip uid tid (VDict kv)) db
      = ((InternalServerError e, 500), db)).
Proof.
  intros Hf Hn Hl Hg.
  rewrite (add_location_to_trip_stores db uid tid trip kv nm lv gv)
    by assumption.
  unfold run, store_location, try_except, bind, lift.
  split; [|split].
  - intros lat lng -> -> Hr.
    assert (Ht : negb (lat_in_range lat) || negb (lng_in_range lng) = true).
    { apply andb_false_iff in Hr. destruct Hr as [-> | ->];
        [reflexivity|apply orb_true_r]. }
    now rewrite Ht.
  - intros [-> | [[lat ->] ->]]; reflexivity.
  - intros e [-> | ->] [-> | [[lat ->] ->]]; reflexivity.
Qed.

Lemma delete_location_succeeds db uid l :
  unique_keys db -> In l (locations db) -> owned_by db uid l = true ->
  run (delete_location uid (Location.id l)) db
  = if commit_ok (without_location db (Location.id l))
    then (location_deleted, without_location db (Location.id l))
    else ((DatabaseError, 500), db).
Proof.
  intros Hu Hin Ho. unfold run, delete_location, query_location.
  unfold bind at 1. unfold bind at 1. unfold get_pending, ret.
  cbn [pending]. rewrite (query_location_owner db uid l Hu Hin Ho).
  unfold try_except, bind, delete_location_row, modify_pending, commit,
    rollback, ret.
  cbn [pending committed]. fold (without_location db (Location.id l)).
  destruct (commit_ok _); reflexivity.
Qed.

(** X11. The owner deletes a location, in a store with unique keys that
    accepts the commit: the answer is 200, that row and no other is gone,
    no trip is touched, and the location is then not found by any user. *)
Theorem deleted_location_is_gone (db : DB) (uid : Z) (l : Location.t) :
  unique_keys db -> In l (locations db) -> owned_by db uid l = true ->
  let after := without_location db (Location.id l) in
  commit_ok after = true ->
  run (delete_location uid (Location.id l)) db = (location_deleted, after) /\
  trips after = trips db /\
  (forall x, In x (locations after) <-> In x (locations db) /\ x <> l) /\
  (forall u, run (get_location u (Location.id l)) after
             = (not_found_location, after)).
Proof.
  intros Hu Hin Ho after Hc.
  pose proof (delete_location_succeeds db uid l Hu Hin Ho) as Hrun.
  fold after in Hrun. rewrite Hc in Hrun.
  split; [exact Hrun|]. split; [reflexivity|]. split.
  - intros x. unfold after, without_location. cbn [locations].
    rewrite filter_In, negb_true_iff, Z.eqb_neq. split.
    + intros [Hx Hk]. split; [assumption|]. congruence.
    + intros [Hx Hne]. split; [assumption|]. intros Hk. apply Hne.
      apply (unique_key_row Location.id (locations db));
        [apply Hu|assumption..].
  - intros u. apply get_location_not_owned, location_absent_not_owned.
    intros x Hx. unfold after, without_location in Hx. cbn [locations] in Hx.
    apply filter_In in Hx. destruct Hx as [_ Hk].
    now apply negb_true_iff, Z.eqb_neq in Hk.
Qed.

End Creating.

(* ================================================================== *)
(** * The listings agree *)

Lemma list_sum_step (a : nat) (l : list nat) :
  list_sum (a :: l) = (a + list_sum l)%nat.
Proof. reflexivity. Qed.

Lemma list_sum_zero {A} (f : A -> nat) (l : list A) :
  (forall x, In x l -> f x = 0%nat) -> list_sum (map f l) = 0%nat.
Proof.
  induction l as [|a l IH]; simpl; intros Hz; [reflexivity|].
  rewrite (Hz a) by now left. apply IH. auto.
Qed.

Lemma list_sum_plus {A} (f g : A -> nat) (l : list A) :
  list_sum (map (fun x => (f x + g x)%nat) l)
  = (list_sum (map f l) + list_sum (map g l))%nat.
Proof.
  induction l as [|a l IH]; simpl; [reflexivity|]. rewrite IH. lia.
Qed.

(** With unique trip keys, a location is counted by one trip of the user
    when the user owns it, and by none otherwise. *)
Lemma owner_counts_once ts uid k :
  NoDup (map Trip.id ts) ->
  list_sum (map (fun t => if k =? Trip.id t then 1%nat else 0%nat)
                (filter (fun t => Trip.user_id t =? uid) ts))
  = if existsb (fun t => (Trip.id t =? k) && (Trip.user_id t =? uid)) ts
    then 1%nat else 0%nat.
Proof.
  induction ts as [|t ts IH]; simpl; intros Hnd; [reflexivity|].
  inversion Hnd as [|? ? Hnotin Hnd']; subst. specialize (IH Hnd').
  destruct (Z.eqb_spec (Trip.id t) k) as [Hk|Hk].
  - assert (Hrest : forall x, In x ts -> (k =? Trip.id x) = false).
    { intros x Hx. apply Z.eqb_neq. intros Hxk. apply Hnotin.
      rewrite Hk, Hxk. now apply in_map. }
    assert (Hsum :
              list_sum (map (fun t0 => if k =? Trip.id t0 then 1%nat
                                       else 0%nat)
                            (filter (fun t0 => Trip.user_id t0 =? uid) ts))
              = 0%nat).
    { apply list_sum_zero. intros x Hx. apply filter_In in Hx.
      now rewrite (Hrest x (proj1 Hx)). }
    destruct (Trip.user_id t =? uid); cbn [andb orb].
    + cbn [map]. rewrite list_sum_step, Hsum, <- Hk, Z.eqb_refl.
      reflexivity.
    + rewrite Hsum.
      destruct (existsb _ ts) eqn:Ex; [|reflexivity].
      apply existsb_exists in Ex. destruct Ex as (x & Hx & Hb).
      apply andb_true_iff in Hb. destruct Hb as [Hb _].
      apply Z.eqb_eq in Hb. pose proof (Hrest x Hx) as Hr.
      rewrite Hb, Z.eqb_refl in Hr. discriminate Hr.
  - cbn [andb orb]. destruct (Trip.user_id t =? uid); [|exact IH].
    cbn [map]. rewrite list_sum_step, IH.
    now rewrite (proj2 (Z.eqb_neq k (Trip.id t))) by congruence.
Qed.

Lemma count_owned ts uid locs :
  NoDup (map Trip.id ts) ->
  List.length
    (filter (fun l => existsb (fun t => (Trip.id t =? Location.trip_id l)
                                        && (Trip.user_id t =? uid)) ts)
            locs)
  = list_sum
      (map (fun t => List.length
                       (filter (fun l => Location.trip_id l =? Trip.id t)
                               locs))
           (filter (fun t => Trip.user_id t =? uid) ts)).
Proof.
  intros Hnd. induction locs as [|l ls IH]; cbn [filter].
  - symmetry. now apply list_sum_zero.
  - transitivity
      (Nat.add
         (if existsb (fun t => (Trip.id t =? Location.trip_id l)
                               && (Trip.user_id t =? uid)) ts
          then 1%nat else 0%nat)
         (list_sum
            (map (fun t => List.length
                             (filter (fun l0 => Location.trip_id l0
                                                =? Trip.id t) ls))
                 (filter (fun t => Trip.user_id t =? uid) ts)))).
    + rewrite <- IH. destruct (existsb _ ts); reflexivity.
    + rewrite <- (owner_counts_once ts uid (Location.trip_id l) Hnd).
      rewrite <- list_sum_plus. f_equal. apply map_ext. intros t.
      destruct (Location.trip_id l =? Trip.id t); reflexivity.
Qed.

Section Listings.
Context `{Platform}.

(** X12. The list of trips has the trips of the caller and no other, in
    row order, and the count beside each trip is the number of locations
    that the route of the trip and the route of its locations return for
    it.  Keys are unique. *)
Theorem trip_list_counts_listed_locations (db : DB) (uid : Z) :
  unique_keys db ->
  exists summaries,
    observe (get_trips uid) db = (Ok (summaries, 200), db) /\
    map fst summaries = filter (fun t => Trip.user_id t =? uid) (trips db) /\
    forall t n,
      In (t, n) summaries ->
      exists locs,
        List.length locs = n /\
        run (get_trip uid (Trip.id t)) db = ((TripDetail t locs, 200), db) /\
        run (get_trip_locations uid (Trip.id t)) db
        = ((LocationList locs, 200), db).
Proof.
  intros [Hnt _]. eexists. split; [apply get_trips_observed|]. split.
  - rewrite map_map. cbn [fst]. apply map_id.
  - intros t n Hin. apply in_map_iff in Hin.
    destruct Hin as (t' & [= -> <-] & Ht). apply filter_In in Ht.
    destruct Ht as [Ht Hu]. apply Z.eqb_eq in Hu.
    exists (children_of db (Trip.id t)). split; [reflexivity|].
    pose proof (find_owned_trip db t Hnt Ht) as Hf. rewrite Hu in Hf.
    split.
    + unfold run, get_trip, query_trip, bind, get_pending, ret.
      cbn [pending]. rewrite Hf. reflexivity.
    + unfold run, get_trip_locations, query_trip, bind, get_pending, ret.
      cbn [pending]. rewrite Hf. reflexivity.
Qed.

(** X13. With unique trip keys, the list of all locations of a user has
    the locations under the user's trips, in row order, and as many of
    them as the counts of the list of trips add up to. *)
Theorem all_locations_match_trip_counts (db : DB) (uid : Z) :
  NoDup (map Trip.id (trips db)) ->
  exists locs summaries,
    run (get_all_locations uid) db = ((LocationList locs, 200), db) /\
    observe (get_trips uid) db = (Ok (summaries, 200), db) /\
    locs = owned_locations db uid /\
    List.length locs = list_sum (map snd summaries).
Proof.
  intros Hnd. do 2 eexists.
  split; [|split; [apply get_trips_observed|]].
  - unfold run, get_all_locations, query_user_locations, bind, get_pending,
      ret. cbn [pending committed].
    now rewrite user_locations_owned.
  - split; [reflexivity|]. rewrite map_map. cbn [snd].
    unfold owned_locations, owned_by, children_of.
    now apply count_owned.
Qed.

End Listings.

(* ================================================================== *)
(** * More on the distance function *)

Section DistanceFacts.
Local Open Scope R_scope.

Lemma asin_nonneg z : 0 <= z -> 0 <= asin z.
Proof.
  intros Hz. destruct (Rle_dec z 1) as [Hle|Hgt].
  - apply Rle_trans with z; [assumption|]. apply asin_lower. lra.
  - unfold asin. destruct (Rle_dec z (-1)); [lra|].
    destruct (Rle_dec 1 z); [|lra]. pose proof PI2_RGT_0. lra.
Qed.

Lemma haversine_distance_range (lat1 lon1 lat2 lon2 : R) :
  0 <= haversine_distance lat1 lon1 lat2 lon2 <= 6371 * PI.
Proof.
  unfold haversine_distance.
  set (a := sin ((radians lat2 - radians lat1) / 2) ^ 2
            + cos (radians lat1) * cos (radians lat2)
              * sin ((radians lon2 - radians lon1) / 2) ^ 2).
  pose proof (asin_nonneg (sqrt a) (sqrt_pos a)) as Hlo.
  pose proof (asin_bound (sqrt a)) as [_ Hhi].
  split; lra.
Qed.

(** X14. The distance is never negative and never more than half the
    circumference of the sphere, 6371 * PI km (less than 20016), whatever
    the four numbers are. *)
Theorem haversine_distance_bounds (lat1 lon1 lat2 lon2 : R) :
  0 <= haversine_distance lat1 lon1 lat2 lon2 <= 6371 * PI /\
  6371 * PI < 20016.
Proof.
  split; [apply haversine_distance_range|].
  pose proof PI_bounds. lra.
Qed.

End DistanceFacts.

Section DistanceBinary64.
Context `{P : Platform}.
Local Open Scope R_scope.

(** X16. As the interpreter computes it, on a platform whose rounding is
    symmetric under negation, whose sine is odd and whose cosine is even,
    the distance is the same when both points are mirrored in the
    equator, and when both are mirrored in the meridian of longitude 0:
    the same number, or the same error. *)
Theorem haversine_distance_symmetries (lat1 lon1 lat2 lon2 : R) :
  sign_symmetric P ->
  haversine_distance_binary64 (- lat1) lon1 (- lat2) lon2
  = haversine_distance_binary64 lat1 lon1 lat2 lon2 /\
  haversine_distance_binary64 lat1 (- lon1) lat2 (- lon2)
  = haversine_distance_binary64 lat1 lon1 lat2 lon2.
Proof.
  intros (Hsub & _ & Hdiv & _ & Hsq & Hrad & Hsin & Hcos).
  unfold haversine_distance_binary64. cbv zeta. split.
  - now rewrite !Hrad, Hsub, Hdiv, Hsin, Hsq, !Hcos.
  - now rewrite !Hrad, Hsub, Hdiv, Hsin, Hsq.
Qed.

(** X15. As the interpreter computes it: on a platform that computes
    zero as zero, the distance from a point to itself is 0, without
    error; on a platform whose rounding is symmetric, the distance from a
    first point to a second is the distance from the second to the first,
    or the same error. *)
Theorem haversine_distance_binary64_zero_and_symmetric
    (lat1 lon1 lat2 lon2 : R) :
  (exact_at_zero P ->
   haversine_distance_binary64 lat1 lon1 lat1 lon1 = Ok 0) /\
  (sign_symmetric P ->
   haversine_distance_binary64 lat1 lon1 lat2 lon2
   = haversine_distance_binary64 lat2 lon2 lat1 lon1).
Proof.
  split.
  - intros (Hsub & Hdiv & Hsin & Hsq & Hmr & Hml & Hadd & Hsqrt & Hasin).
    unfold haversine_distance_binary64, py_sqrt, py_asin. cbv zeta.
    rewrite !Hsub, Hdiv, Hsin, Hsq, Hmr, Hadd.
    destruct (Rlt_dec 0 0); [lra|]. cbn [rbind]. rewrite Hsqrt.
    destruct (Rlt_dec 0 (-1)); [lra|].
    destruct (Rlt_dec 1 0); [lra|]. cbn [rbind].
    now rewrite Hasin, Hmr, Hml.
  - intros (_ & Hanti & Hdiv & Hcomm & Hsq & _ & Hsin & _).
    unfold haversine_distance_binary64. cbv zeta.
    rewrite (Hanti (fl_radians lat2) (fl_radians lat1)).
    rewrite (Hanti (fl_radians lon2) (fl_radians lon1)).
    rewrite !Hdiv, !Hsin, !Hsq.
    now rewrite (Hcomm (fl_cos (fl_radians lat2)) (fl_cos (fl_radians lat1))).
Qed.

End DistanceBinary64.

(* ================================================================== *)
(** * More on the nearby search *)

Section Rounding.
Local Open Scope R_scope.

Lemma Rabs_bounds (x a : R) : Rabs x <= a -> - a <= x <= a.
Proof. unfold Rabs. destruct (Rcase_abs x); lra. Qed.

Lemma round_half_even_near (y : R) :
  Rabs (IZR (round_half_even y) - y) <= 1 / 2.
Proof.
  unfold round_half_even. pose proof (Zfloor_bound y) as [Hl Hu].
  set (n := Zfloor y) in *.
  destruct (Rlt_dec (y - IZR n) (1 / 2)).
  - apply Rabs_le. lra.
  - destruct (Rlt_dec (1 / 2) (y - IZR n)).
    + rewrite plus_IZR. apply Rabs_le. lra.
    + destruct (Z.even n); [|rewrite plus_IZR]; apply Rabs_le; lra.
Qed.

Lemma round2_near (x : R) : Rabs (Q2R (round2 x) - x) <= 1 / 200.
Proof.
  unfold round2. rewrite Q2R_literal.
  pose proof (round_half_even_near (x * 100)) as Hn.
  apply Rabs_le. apply Rabs_bounds in Hn. lra.
Qed.

Lemma round2_nonneg (x : R) : 0 <= x -> (0 <= round2 x)%Q.
Proof.
  intros Hx. unfold round2, Qle. cbn [Qnum Qden].
  rewrite Z.mul_0_l, Z.mul_1_r. unfold round_half_even.
  assert (Hf : (0 <= Zfloor (x * 100))%Z) by (apply Zfloor_lub; simpl; lra).
  destruct (Rlt_dec _ _); [assumption|].
  destruct (Rlt_dec _ _); [lia|].
  destruct (Z.even _); lia.
Qed.

End Rounding.

Lemma StronglySorted_map_inv {A B} (f : A -> B) (R : B -> B -> Prop)
    (l : list A) :
  StronglySorted R (map f l) ->
  StronglySorted (fun a b => R (f a) (f b)) l.
Proof.
  induction l as [|x xs IH]; cbn [map]; intros Hs; [constructor|].
  inversion Hs as [|? ? Hs' Hall]; subst.
  constructor; [now apply IH|].
  rewrite Forall_forall in *. intros y Hy. apply Hall. now apply in_map.
Qed.

Lemma StronglySorted_weaken {A} (R S : A -> A -> Prop) (l : list A) :
  (forall a b, R a b -> S a b) ->
  StronglySorted R l -> StronglySorted S l.
Proof.
  intros Himp. induction 1 as [|x xs Hs IH Hall]; constructor;
    [exact IH|].
  eapply Forall_impl; [|exact Hall]. intros y. apply Himp.
Qed.

Lemma args_get_app args extra key default :
  args_get (args ++ extra) key default
  = args_get args key (args_get extra key default).
Proof.
  induction args as [|[k v] rest IH]; cbn [app args_get]; [reflexivity|].
  now rewrite IH.
Qed.

Lemma args_get_absent args key default :
  (forall v, ~ In (key, v) args) -> args_get args key default = default.
Proof.
  induction args as [|[k v] rest IH]; cbn [args_get]; intros Hno;
    [reflexivity|].
  destruct (String.eqb_spec key k) as [->|_].
  - elim (Hno v). now left.
  - apply IH. intros w Hw. apply (Hno w). now right.
Qed.

Lemma args_get_cases args key default :
  args_get args key default = default \/
  exists s, args_get args key default = VStr s.
Proof.
  induction args as [|[k v] rest IH]; cbn [args_get]; [now left|].
  destruct (String.eqb key k); [right; now exists v|exact IH].
Qed.

Lemma measure_fails `{Platform} lat lng locs l e :
  In l locs -> computed_distance lat lng l = Raise e ->
  exists e', measure lat lng locs = Raise e'.
Proof.
  induction locs as [|x xs IH]; intros Hin Hl; [destruct Hin|].
  cbn [measure]. destruct Hin as [-> | Hin].
  - rewrite Hl. cbn [rbind]. now exists e.
  - destruct (computed_distance lat lng x) as [d|e1]; cbn [rbind];
      [|now exists e1].
    destruct (IH Hin Hl) as [e' ->]. cbn [rbind]. now exists e'.
Qed.

Section NearbyMore.
Context `{Platform}.

(** A parameter of the query string is a string or the default: reading
    it as a float raises nothing but [TypeError] and [ValueError]. *)
Lemma py_float_arg_raises args key default e :
  default = VNone \/ (exists x, default = VFloat x) ->
  py_float (args_get args key default) = Raise e ->
  e = TypeError \/ e = ValueError.
Proof.
  intros Hd. destruct (args_get_cases args key default) as [-> | [s ->]].
  - destruct Hd as [-> | [x ->]]; cbn [py_float];
      [intros [= <-]; now left|discriminate].
  - cbn [py_float]. destruct (float_of_str s); [discriminate|].
    intros [= <-]. now right.
Qed.

(** X17. For a caller, a centre in range and a positive radius, in a
    store with unique trip keys, when the platform computes a distance
    for each location of the caller: the entries of the nearby search are
    those of a rearrangement of the caller's locations within the radius;
    every reported distance is within 0.005 km of the computed one, and
    not negative when the computed one is not; the computed distances
    ascend along the result up to 0.01 km. *)
Theorem nearby_reports_close_distances
    (db : DB) (uid : Z) (args : list (string * string)) (lat lng radius : Q)
    (dist : Location.t -> R) :
  NoDup (map Trip.id (trips db)) ->
  py_float (args_get args "latitude" VNone) = Ok lat ->
  py_float (args_get args "longitude" VNone) = Ok lng ->
  py_float (args_get args "radius" (VFloat 10)) = Ok radius ->
  lat_in_range lat = true -> lng_in_range lng = true ->
  (0 < radius)%Q ->
  computes lat lng dist (owned_locations db uid) ->
  exists ls : list Location.t,
    run (get_nearby_locations uid args) db
    = ((NearbyResult lat lng radius (map (entry_at dist) ls)
                     (List.length ls), 200), db) /\
    Permutation ls
      (filter (qualifies radius dist) (owned_locations db uid)) /\
    StronglySorted (nearly_ascending dist) ls /\
    forall l : Location.t,
      (Rabs (Q2R (Nearby.distance (entry_at dist l)) - dist l)
       <= 1 / 200)%R /\
      ((0 <= dist l)%R -> (0 <= Nearby.distance (entry_at dist l))%Q).
Proof.
  intros Hnd Hlat Hlng Hrad Hla Hln Hpos Hc.
  pose proof (positive_radius radius Hpos) as Hr.
  assert (Hc' : computes lat lng dist
                  (map fst (filter (fun lt : Location.t * Trip.t =>
                                      Trip.user_id (snd lt) =? uid)
                                   (join_trip db))))
    by now rewrite user_locations_owned.
  pose proof (get_nearby_locations_runs db uid args lat lng radius dist
                Hlat Hlng Hrad Hla Hln Hr Hc') as Hrun.
  cbv zeta in Hrun. rewrite user_locations_owned in Hrun by assumption.
  set (qualifying :=
         filter (qualifies radius dist) (owned_locations db uid)) in *.
  pose proof (sort_by_distance_perm (map (entry_at dist) qualifying))
    as Hperm.
  apply Permutation_map_inv in Hperm.
  destruct Hperm as (ls & Hls & Hp).
  exists ls. rewrite Hrun, Hls, length_map.
  split; [reflexivity|]. split; [now apply Permutation_sym|].
  split.
  - pose proof (sort_by_distance_sorted (map (entry_at dist) qualifying))
      as Hs.
    rewrite Hls in Hs. apply StronglySorted_map_inv in Hs.
    eapply StronglySorted_weaken; [|exact Hs].
    intros a b Hab. unfold by_distance, entry_at, entry in Hab.
    cbn [Nearby.distance] in Hab. apply Qle_Rle in Hab.
    pose proof (round2_near (dist a)) as Ha.
    pose proof (round2_near (dist b)) as Hb.
    apply Rabs_bounds in Ha, Hb. unfold nearly_ascending. lra.
  - intros l. unfold entry_at, entry. cbn [Nearby.distance]. split.
    + apply round2_near.
    + apply round2_nonneg.
Qed.

(** X18. A wider radius never loses a location: with the same centre,
    every entry the search reports for a positive radius is reported for
    any larger one. *)
Theorem nearby_grows_with_radius
    (db : DB) (uid : Z) (args1 args2 : list (string * string))
    (lat lng radius1 radius2 : Q) :
  py_float (args_get args1 "latitude" VNone) = Ok lat ->
  py_float (args_get args1 "longitude" VNone) = Ok lng ->
  py_float (args_get args1 "radius" (VFloat 10)) = Ok radius1 ->
  py_float (args_get args2 "latitude" VNone) = Ok lat ->
  py_float (args_get args2 "longitude" VNone) = Ok lng ->
  py_float (args_get args2 "radius" (VFloat 10)) = Ok radius2 ->
  lat_in_range lat = true -> lng_in_range lng = true ->
  (0 < radius1)%Q -> (radius1 <= radius2)%Q ->
  forall e : Nearby.t,
    In e (nearby_of (run (get_nearby_locations uid args1) db)) ->
    In e (nearby_of (run (get_nearby_locations uid args2) db)).
Proof.
  intros Hlat1 Hlng1 Hrad1 Hlat2 Hlng2 Hrad2 Hla Hln Hpos Hle e.
  pose proof (positive_radius radius1 Hpos) as Hr1.
  assert (Hr2 : fle radius2 0 = false).
  { apply positive_radius. now apply Qlt_le_trans with radius1. }
  rewrite (get_nearby_locations_measured db uid args1 lat lng radius1),
          (get_nearby_locations_measured db uid args2 lat lng radius2)
    by assumption.
  destruct (measure lat lng _) as [ds|err]; [|intros []].
  cbv zeta. cbn [nearby_of]. intros He.
  apply (Permutation_in _ (sort_by_distance_perm _)) in He.
  apply (Permutation_in _ (Permutation_sym (sort_by_distance_perm _))).
  apply in_map_iff in He. destruct He as (ld & <- & Hl).
  apply in_map_iff. exists ld. split; [reflexivity|].
  apply filter_In in Hl. destruct Hl as [Hl Hin].
  apply filter_In. split; [exact Hl|].
  unfold in_radius in *.
  destruct (Rle_dec (snd ld) (Q2R radius1)) as [Hd|]; [|discriminate].
  apply Qle_Rle in Hle.
  destruct (Rle_dec (snd ld) (Q2R radius2)) as [|Hn]; [reflexivity|].
  elim Hn. lra.
Qed.

(** X19. The nearby search answers 400 "Invalid parameters" unless
    [float()] takes all three of latitude, longitude and radius (it does
    not take a missing latitude or longitude), and 400 "Invalid
    coordinates or radius" when it does but the latitude or the longitude
    fails its range test (out of range, NaN or infinite) or the radius is
    at most 0; the store is unchanged. *)
Theorem nearby_rejects_bad_parameters
    (db : DB) (uid : Z) (args : list (string * string)) :
  ((forall lat lng radius : float,
      ~ (py_float (args_get args "latitude" VNone) = Ok lat /\
         py_float (args_get args "longitude" VNone) = Ok lng /\
         py_float (args_get args "radius" (VFloat 10)) = Ok radius)) ->
   run (get_nearby_locations uid args) db
   = ((Error "Invalid parameters", 400), db)) /\
  (forall lat lng radius : float,
     py_float (args_get args "latitude" VNone) = Ok lat ->
     py_float (args_get args "longitude" VNone) = Ok lng ->
     py_float (args_get args "radius" (VFloat 10)) = Ok radius ->
     lat_in_range lat = false \/ lng_in_range lng = false \/
     fle radius 0 = true ->
     run (get_nearby_locations uid args) db
     = ((Error "Invalid coordinates or radius", 400), db)).
Proof.
  split.
  - intros Hbad. unfold run, get_nearby_locations, try_except, bind, lift.
    destruct (py_float (args_get args "latitude" VNone)) as [lat|e] eqn:Elat.
    2:{ destruct (py_float_arg_raises _ _ _ _ (or_introl eq_refl) Elat)
          as [-> | ->]; reflexivity. }
    destruct (py_float (args_get args "longitude" VNone)) as [lng|e]
      eqn:Elng.
    2:{ destruct (py_float_arg_raises _ _ _ _ (or_introl eq_refl) Elng)
          as [-> | ->]; reflexivity. }
    destruct (py_float (args_get args "radius" (VFloat 10))) as [radius|e]
      eqn:Erad.
    2:{ destruct (py_float_arg_raises _ _ _ _
                    (or_intror (ex_intro _ (Finite 10) eq_refl)) Erad)
          as [-> | ->]; reflexivity. }
    elim (Hbad lat lng radius). now repeat split.
  - intros lat lng radius Hlat Hlng Hrad Hbad.
    unfold run, get_nearby_locations, try_except, bind, lift.
    rewrite Hlat, Hlng, Hrad.
    assert (Htest : negb (lat_in_range lat) || negb (lng_in_range lng)
                    || fle radius 0 = true).
    { destruct Hbad as [-> | [-> | ->]].
      - reflexivity.
      - now rewrite orb_true_r.
      - now rewrite orb_true_r. }
    rewrite Htest. reflexivity.
Qed.

(** X20. Leaving the radius out is the same as asking for a radius that
    reads as 10. *)
Theorem nearby_default_radius_is_10
    (db : DB) (uid : Z) (args : list (string * string)) (ten : string) :
  (forall v, ~ In ("radius", v) args) ->
  float_of_str ten = Some (Finite 10) ->
  run (get_nearby_locations uid args) db
  = run (get_nearby_locations uid (args ++ [("radius", ten)])) db.
Proof.
  intros Hno Hten. unfold get_nearby_locations.
  rewrite !args_get_app. cbn [args_get String.eqb Ascii.eqb Bool.eqb].
  rewrite (args_get_absent args "radius" (VStr ten) Hno),
          (args_get_absent args "radius" (VFloat 10) Hno).
  cbn [py_float]. rewrite Hten. reflexivity.
Qed.

(** X24. A radius that reads as NaN or as infinity passes the test on the
    radius.  In a store with unique trip keys, for a centre in range, when
    the platform computes a distance for each location of the caller: with
    NaN the answer is 200 with no entry, with infinity it is 200 with an
    entry for every location of the caller. *)
Theorem nearby_radius_nan_or_infinite
    (db : DB) (uid : Z) (args : list (string * string)) (lat lng : Q)
    (radius : float) (dist : Location.t -> R) :
  NoDup (map Trip.id (trips db)) ->
  py_float (args_get args "latitude" VNone) = Ok lat ->
  py_float (args_get args "longitude" VNone) = Ok lng ->
  py_float (args_get args "radius" (VFloat 10)) = Ok radius ->
  lat_in_range lat = true -> lng_in_range lng = true ->
  computes lat lng dist (owned_locations db uid) ->
  (radius = NaN ->
   run (get_nearby_locations uid args) db
   = ((NearbyResult lat lng NaN [] 0, 200), db)) /\
  (radius = PosInf ->
   exists nearby,
     run (get_nearby_locations uid args) db
     = ((NearbyResult lat lng PosInf nearby
                      (List.length (owned_locations db uid)), 200), db) /\
     Permutation nearby (map (entry_at dist) (owned_locations db uid))).
Proof.
  intros Hnd Hlat Hlng Hrad Hla Hln Hc.
  assert (Hc' : computes lat lng dist
                  (map fst (filter (fun lt : Location.t * Trip.t =>
                                      Trip.user_id (snd lt) =? uid)
                                   (join_trip db))))
    by now rewrite user_locations_owned.
  split; intros ->.
  - rewrite (get_nearby_locations_runs db uid args lat lng NaN dist)
      by (assumption || reflexivity).
    cbv zeta. rewrite user_locations_owned by assumption.
    replace (filter (qualifies NaN dist) (owned_locations db uid))
      with (@nil Location.t); [reflexivity|].
    clear Hc. induction (owned_locations db uid) as [|l ls IH];
      [reflexivity|].
    cbn [filter qualifies in_radius]. exact IH.
  - exists (sort_by_distance (map (entry_at dist) (owned_locations db uid))).
    rewrite (get_nearby_locations_runs db uid args lat lng PosInf dist)
      by (assumption || reflexivity).
    cbv zeta. rewrite user_locations_owned by assumption.
    replace (filter (qualifies PosInf dist) (owned_locations db uid))
      with (owned_locations db uid).
    + split; [|apply sort_by_distance_perm].
      now rewrite (Permutation_length (sort_by_distance_perm _)), length_map.
    + clear Hc. induction (owned_locations db uid) as [|l ls IH];
        [reflexivity|].
      cbn [filter qualifies in_radius]. now rewrite <- IH.
Qed.

(** X25. When the computation of the distance of one of the caller's
    locations raises ([math.sqrt] or [math.asin] out of its domain, after
    rounding), the search for a centre in range and an accepted radius
    answers 400 "Invalid parameters". *)
Theorem nearby_domain_error_is_invalid_parameters
    (db : DB) (uid : Z) (args : list (string * string))
    (lat lng radius : float) (l : Location.t) (e : exn) :
  NoDup (map Trip.id (trips db)) ->
  py_float (args_get args "latitude" VNone) = Ok lat ->
  py_float (args_get args "longitude" VNone) = Ok lng ->
  py_float (args_get args "radius" (VFloat 10)) = Ok radius ->
  lat_in_range lat = true -> lng_in_range lng = true ->
  fle radius 0 = false ->
  In l (owned_locations db uid) ->
  computed_distance lat lng l = Raise e ->
  run (get_nearby_locations uid args) db
  = ((Error "Invalid parameters", 400), db).
Proof.
  intros Hnd Hlat Hlng Hrad Hla Hln Hr Hin Hl.
  rewrite (get_nearby_locations_measured db uid args lat lng radius)
    by assumption.
  rewrite user_locations_owned by assumption.
  destruct (measure_fails lat lng _ l e Hin Hl) as [e' ->]. reflexivity.
Qed.

End NearbyMore.

(* ================================================================== *)
(** * Bulk requests and rejected trips *)

Section BulkAndTrips.
Context `{Platform}.


(** X22. For the owner of the trip, a body that is not a list, or is
    empty, is answered 400 "Invalid data format. Expected list of
    locations"; the store is unchanged. *)
Theorem bulk_add_locations_wants_a_list
    (db : DB) (uid tid : Z) (trip : Trip.t) (data : value) :
  find (owned_trip tid uid) (trips db) = Some trip ->
  is_list data = false \/ truthy data = false ->
  run (bulk_add_locations uid tid data) db
  = ((Error "Invalid data format. Expected list of locations", 400), db).
Proof.
  intros Hf Hbad.
  unfold run, bulk_add_locations, query_trip.
  unfold bind at 1. unfold bind at 1. unfold get_pending, ret.
  cbn [pending]. rewrite Hf.
  assert (Htest : negb (truthy data) || negb (is_list data) = true).
  { destruct Hbad as [-> | ->]; [now rewrite orb_true_r|reflexivity]. }
  rewrite Htest. reflexivity.
Qed.

(** X23. Creating a trip from an object that lacks one of destination,
    start_date and end_date is answered 400 "Missing required trip
    fields"; with the three keys present, a start date that is a string
    that does not parse, or an end date that is one after a start date
    that parses, is answered 400 "Invalid date format. Use YYYY-MM-DD";
    the store is unchanged. *)
Theorem create_trip_rejections
    (db : DB) (uid : Z) (kv : list (string * value)) :
  (lookup "destination" kv = None \/ lookup "start_date" kv = None \/
   lookup "end_date" kv = None ->
   run (create_trip uid (VDict kv)) db
   = ((Error "Missing required trip fields", 400), db)) /\
  (forall (destination ev : value) (s : string),
     lookup "destination" kv = Some destination ->
     lookup "start_date" kv = Some (VStr s) ->
     lookup "end_date" kv = Some ev ->
     strptime_ymd s = None ->
     run (create_trip uid (VDict kv)) db
     = ((Error "Invalid date format. Use YYYY-MM-DD", 400), db)) /\
  (forall (destination : value) (s e : string) (d : date),
     lookup "destination" kv = Some destination ->
     lookup "start_date" kv = Some (VStr s) ->
     lookup "end_date" kv = Some (VStr e) ->
     strptime_ymd s = Some d ->
     strptime_ymd e = None ->
     run (create_trip uid (VDict kv)) db
     = ((Error "Invalid date format. Use YYYY-MM-DD", 400), db)).
Proof.
  assert (Hpresent : forall k v, lookup k kv = Some v ->
                                 truthy (VDict kv) = true).
  { intros k v Hk. destruct kv; [discriminate|reflexivity]. }
  split; [|split].
  - intros Hmiss. unfold run, create_trip, bind, lift, missing.
    destruct (truthy (VDict kv)); [|reflexivity].
    cbn [negb all_in contains rbind].
    destruct (lookup "destination" kv); [|reflexivity].
    destruct (lookup "start_date" kv); [|reflexivity].
    destruct (lookup "end_date" kv); [|reflexivity].
    destruct Hmiss as [Hm | [Hm | Hm]]; discriminate Hm.
  - intros destination ev s Hd Hs He Hparse.
    unfold run, create_trip, bind, lift, missing.
    rewrite (Hpresent _ _ Hd).
    cbn [negb all_in contains rbind]. rewrite Hd, Hs, He.
    cbn [negb]. unfold try_except, getitem. rewrite Hs.
    cbn [py_strptime]. rewrite Hparse. reflexivity.
  - intros destination s e d Hd Hs He Hstart Hend.
    unfold run, create_trip, bind, lift, missing.
    rewrite (Hpresent _ _ Hd).
    cbn [negb all_in contains rbind]. rewrite Hd, Hs, He.
    cbn [negb]. unfold try_except, getitem. rewrite Hs, He.
    cbn [py_strptime]. rewrite Hstart, Hend. reflexivity.
Qed.

End BulkAndTrips.

(* ================================================================== *)
(** * The properties above on the sample stores *)

Lemma unique_keys_db_kyoto : unique_keys db_kyoto.
Proof.
  rewrite db_kyoto_eq. split; simpl; repeat constructor; simpl; tauto.
Qed.

(** User 2 creates a trip of their own after user 1. *)
Lemma created_trip_is_read_back_witness :
  let t := Trip.mk 2 (VStr "Kyoto") (mkDate 2024 5 1) (mkDate 2024 5 10) 2 in
  let after := mkDB (trips db_kinkakuji ++ [t]) (locations db_kinkakuji) in
  @reachable sample_platform db_kinkakuji /\
  run (@create_trip sample_platform 2 kyoto) db_kinkakuji
  = ((TripCreated t, 201), after) /\
  run (get_trip 2 2) after = ((TripDetail t [], 200), after).
Proof.
  pose proof db_kinkakuji_reachable as Hr. split; [exact Hr|].
  exact (@created_trip_is_read_back sample_platform db_kinkakuji 2
           [("destination", VStr "Kyoto"); ("start_date", VStr "2024-05-01");
            ("end_date", VStr "2024-05-10")]
           (VStr "Kyoto") (VStr "2024-05-01") (VStr "2024-05-10")
           (mkDate 2024 5 1) (mkDate 2024 5 10)
           Hr eq_refl eq_refl eq_refl eq_refl eq_refl eq_refl eq_refl).
Defined.

(** User 1 adds Kinkaku-ji to the Kyoto trip. *)
Lemma added_location_is_read_back_witness :
  let trip :=
    Trip.mk 1 (VStr "Kyoto") (mkDate 2024 5 1) (mkDate 2024 5 10) 1 in
  let after := mkDB (trips db_kyoto) (locations db_kyoto ++ [loc_kinkakuji]) in
  unique_keys db_kyoto /\
  run (@add_location_to_trip sample_platform 1 1 kinkakuji) db_kyoto
  = ((LocationAdded loc_kinkakuji, 201), after) /\
  run (get_location 1 1) after
  = ((LocationDetail loc_kinkakuji trip, 200), after) /\
  run (get_trip_locations 1 1) after
  = ((LocationList (children_of db_kyoto 1 ++ [loc_kinkakuji]), 200), after).
Proof.
  pose proof unique_keys_db_kyoto as Hu. split; [exact Hu|].
  assert (Hin : In (Trip.mk 1 (VStr "Kyoto") (mkDate 2024 5 1)
                            (mkDate 2024 5 10) 1) (trips db_kyoto))
    by (rewrite db_kyoto_eq; left; reflexivity).
  assert (Hlat : (-90 <= 350 # 10 <= 90)%Q)
    by (split; apply Qle_bool_iff; reflexivity).
  assert (Hlng : (-180 <= 1357 # 10 <= 180)%Q)
    by (split; apply Qle_bool_iff; reflexivity).
  exact (@added_location_is_read_back sample_platform db_kyoto 1
           (Trip.mk 1 (VStr "Kyoto") (mkDate 2024 5 1) (mkDate 2024 5 10) 1)
           [("name", VStr "Kinkaku-ji"); ("latitude", VFloat (350 # 10));
            ("longitude", VFloat (1357 # 10))]
           (VStr "Kinkaku-ji") (VFloat (350 # 10)) (VFloat (1357 # 10))
           (350 # 10) (1357 # 10)
           Hu Hin eq_refl eq_refl eq_refl eq_refl eq_refl eq_refl
           Hlat Hlng eq_refl).
Defined.

Lemma create_location_is_add_location_to_trip_witness :
  run (@create_location sample_platform 1 (VDict ryoanji_fields)) db_kinkakuji
  = as_created (run (@add_location_to_trip sample_platform 1 1
                       (VDict ryoanji_fields)) db_kinkakuji).
Proof.
  exact (@create_location_is_add_location_to_trip sample_platform
           db_kinkakuji 1 1 ryoanji_fields (VInt 1)
           eq_refl eq_refl eq_refl).
Defined.

(** A latitude of 91 degrees, and one of 10^400. *)
Lemma add_location_rejects_bad_coordinates_witness :
  run (@add_location_to_trip sample_platform 1 1 (VDict north_of_the_pole))
      db_kyoto
  = ((Error "Invalid coordinates", 400), db_kyoto) /\
  run (@add_location_to_trip sample_platform 1 1 (VDict beyond_floats))
      db_kyoto
  = ((InternalServerError OverflowError, 500), db_kyoto).
Proof.
  assert (Hf : find (owned_trip 1 1) (trips db_kyoto)
               = Some (Trip.mk 1 (VStr "Kyoto") (mkDate 2024 5 1)
                               (mkDate 2024 5 10) 1))
    by (rewrite db_kyoto_eq; reflexivity).
  assert (Ho : @py_float sample_platform (VInt (10 ^ 400))
               = Raise OverflowError) by (vm_compute; reflexivity).
  split.
  - exact (proj1 (@add_location_rejects_bad_coordinates sample_platform
                    db_kyoto 1 1 _ north_of_the_pole
                    (VStr "x") (VInt 91) (VInt 0)
                    Hf eq_refl eq_refl eq_refl)
                 (Finite (inject_Z 91)) (Finite (inject_Z 0))
                 eq_refl eq_refl eq_refl).
  - exact (proj2 (proj2 (@add_location_rejects_bad_coordinates
                           sample_platform db_kyoto 1 1 _ beyond_floats
                           (VStr "x") (VInt (10 ^ 400)) (VInt 0)
                           Hf eq_refl eq_refl eq_refl))
                 OverflowError (or_intror eq_refl) (or_introl Ho)).
Defined.

Lemma deleted_location_is_gone_witness :
  let after := without_location db_kinkakuji 1 in
  unique_keys db_kinkakuji /\
  run (@delete_location sample_platform 1 1) db_kinkakuji
  = (location_deleted, after) /\
  run (get_location 1 1) after = (not_found_location, after).
Proof.
  pose proof unique_keys_db_kinkakuji as Hu. split; [exact Hu|].
  assert (Hin : In loc_kinkakuji (locations db_kinkakuji))
    by (rewrite db_kinkakuji_eq; left; reflexivity).
  assert (Hown : owned_by db_kinkakuji 1 loc_kinkakuji = true)
    by (rewrite db_kinkakuji_eq; reflexivity).
  destruct (@deleted_location_is_gone sample_platform db_kinkakuji 1
              loc_kinkakuji Hu Hin Hown eq_refl)
    as (Hrun & _ & _ & Hgone).
  split; [exact Hrun|exact (Hgone 1)].
Defined.

Lemma trip_list_counts_listed_locations_witness :
  unique_keys db_kinkakuji /\
  exists summaries,
    observe (get_trips 1) db_kinkakuji = (Ok (summaries, 200), db_kinkakuji) /\
    map fst summaries = trips db_kinkakuji.
Proof.
  pose proof unique_keys_db_kinkakuji as Hu. split; [exact Hu|].
  destruct (trip_list_counts_listed_locations db_kinkakuji 1 Hu)
    as (summaries & Hrun & Hfst & _).
  exists summaries. split; [exact Hrun|].
  rewrite Hfst, db_kinkakuji_eq. reflexivity.
Defined.

Lemma all_locations_match_trip_counts_witness :
  NoDup (map Trip.id (trips db_kinkakuji)) /\
  exists summaries,
    observe (get_trips 1) db_kinkakuji = (Ok (summaries, 200), db_kinkakuji) /\
    run (get_all_locations 1) db_kinkakuji
    = ((LocationList (owned_locations db_kinkakuji 1), 200), db_kinkakuji) /\
    List.length (owned_locations db_kinkakuji 1)
    = list_sum (map snd summaries).
Proof.
  pose proof unique_trip_keys_db_kinkakuji as Hnd. split; [exact Hnd|].
  destruct (all_locations_match_trip_counts db_kinkakuji 1 Hnd)
    as (locs & summaries & Hall & Hrun & -> & Hlen).
  exists summaries. split; [exact Hrun|]. split; [exact Hall|exact Hlen].
Defined.

Lemma sample_platform_sign_symmetric : sign_symmetric sample_platform.
Proof.
  unfold sign_symmetric.
  cbn [fl_sub fl_div fl_mul fl_square fl_radians fl_sin fl_cos
       sample_platform].
  repeat split; intros.
  - ring.
  - ring.
  - unfold Rdiv. ring.
  - ring.
  - ring.
  - unfold radians. ring.
  - apply sin_neg.
  - apply cos_neg.
Qed.

Lemma sample_platform_exact_at_zero : exact_at_zero sample_platform.
Proof.
  unfold exact_at_zero.
  cbn [fl_add fl_sub fl_div fl_mul fl_square fl_sin fl_sqrt fl_asin
       sample_platform].
  repeat split; intros.
  - ring.
  - unfold Rdiv. ring.
  - apply sin_0.
  - ring.
  - ring.
  - ring.
  - ring.
  - apply sqrt_0.
  - apply asin_0.
Qed.

Lemma haversine_distance_symmetries_witness :
  sign_symmetric sample_platform /\
  @haversine_distance_binary64 sample_platform (- 35) 135 (- 36) 136
  = @haversine_distance_binary64 sample_platform 35 135 36 136.
Proof.
  pose proof sample_platform_sign_symmetric as Hs.
  split; [exact Hs|].
  exact (proj1 (@haversine_distance_symmetries sample_platform
                  35 135 36 136 Hs)).
Defined.

Lemma haversine_distance_binary64_zero_and_symmetric_witness :
  exact_at_zero sample_platform /\
  sign_symmetric sample_platform /\
  @haversine_distance_binary64 sample_platform 35 135 35 135 = Ok 0%R /\
  @haversine_distance_binary64 sample_platform 35 135 36 136
  = @haversine_distance_binary64 sample_platform 36 136 35 135.
Proof.
  pose proof sample_platform_exact_at_zero as Hz.
  pose proof sample_platform_sign_symmetric as Hs.
  split; [exact Hz|]. split; [exact Hs|]. split.
  - exact (proj1 (@haversine_distance_binary64_zero_and_symmetric
                    sample_platform 35 135 35 135) Hz).
  - exact (proj2 (@haversine_distance_binary64_zero_and_symmetric
                    sample_platform 35 135 36 136) Hs).
Defined.

Lemma equator_far_qualifying :
  filter (qualifies (3501 # 100) (distance_to 0 0))
         (owned_locations db_equator_far 1)
  = [loc_far; loc_east; loc_origin].
Proof.
  pose proof distance_far_bounds as Hfar.
  pose proof distance_east_bounds as Heast.
  pose proof distance_origin as Horigin.
  change (owned_locations db_equator_far 1)
    with [loc_far; loc_east; loc_origin].
  cbn [filter]. unfold qualifies.
  now rewrite !in_radius_true by (rewrite ?Horigin, Q2R_literal; lra).
Qed.

(** In a rearrangement of the three locations whose computed distances
    ascend up to a hundredth, the far one is last. *)
Lemma equator_far_last (ls : list Location.t) :
  Permutation ls [loc_far; loc_east; loc_origin] ->
  StronglySorted (nearly_ascending (distance_to 0 0)) ls ->
  exists a b, ls = [a; b; loc_far] /\
              Permutation [a; b] [loc_east; loc_origin].
Proof.
  intros Hperm Hs.
  pose proof distance_far_bounds as Hfar.
  pose proof distance_east_bounds as Heast.
  pose proof distance_origin as Horigin.
  pose proof (Permutation_length Hperm) as Hlen.
  destruct ls as [|a [|b [|c [|x r]]]]; try discriminate Hlen.
  assert (Hnd : NoDup [a; b; c]).
  { apply (Permutation_NoDup (Permutation_sym Hperm)).
    repeat constructor; simpl; intuition discriminate. }
  assert (Hin : forall e, In e [a; b; c] ->
                          e = loc_far \/ e = loc_east \/ e = loc_origin).
  { intros e He. apply (Permutation_in _ Hperm) in He.
    destruct He as [<-|[<-|[<-|[]]]]; auto. }
  inversion Hs as [|? ? Hs' Hall]; subst.
  inversion Hs' as [|? ? _ Hall']; subst.
  inversion Hall as [|? ? Hab Hall2]; subst.
  inversion Hall2 as [|? ? Hac _]; subst.
  inversion Hall' as [|? ? Hbc _]; subst.
  inversion Hnd as [|? ? Hna Hnd']; subst.
  inversion Hnd' as [|? ? Hnb _]; subst.
  unfold nearly_ascending in *.
  destruct (Hin a) as [-> | [-> | ->]]; [now left| | |];
    destruct (Hin b) as [-> | [-> | ->]]; try (right; now left);
    destruct (Hin c) as [-> | [-> | ->]]; try (right; right; now left);
    try (exfalso; apply Hna; simpl; tauto);
    try (exfalso; apply Hnb; simpl; tauto);
    try (exfalso; lra).
  - exists loc_east, loc_origin. split; reflexivity.
  - exists loc_origin, loc_east. split; [reflexivity|apply perm_swap].
Qed.

(** The search of user 1 from the origin with a radius of 35.01 km over
    the three locations on the equator: the far one, retrieved first, is
    reported last. *)
Lemma nearby_reports_close_distances_witness :
  NoDup (map Trip.id (trips db_equator_far)) /\
  (0 < 3501 # 100)%Q /\
  @computes sample_platform 0 0 (distance_to 0 0)
            (owned_locations db_equator_far 1) /\
  exists a b,
    run (@get_nearby_locations sample_platform 1 args_origin_wide)
        db_equator_far
    = ((NearbyResult 0 0 (3501 # 100)
          (map (entry_at (distance_to 0 0)) [a; b; loc_far]) 3, 200),
       db_equator_far) /\
    Permutation [a; b] [loc_east; loc_origin].
Proof.
  pose proof unique_trip_keys_db_equator_far as Hnd.
  assert (Hr : (0 < 3501 # 100)%Q) by reflexivity.
  pose proof (sample_computes 0 0 (owned_locations db_equator_far 1)) as Hc.
  split; [exact Hnd|]. split; [exact Hr|]. split; [exact Hc|].
  destruct (@nearby_reports_close_distances sample_platform db_equator_far
              1 args_origin_wide 0 0 (3501 # 100) (distance_to 0 0) Hnd
              eq_refl eq_refl eq_refl eq_refl eq_refl Hr Hc)
    as (ls & Hrun & Hperm & Hsorted & _).
  rewrite equator_far_qualifying in Hperm.
  destruct (equator_far_last ls Hperm Hsorted) as (a & b & -> & Hab).
  exists a, b. split; [exact Hrun|exact Hab].
Defined.

Lemma nearby_grows_with_radius_witness :
  (0 < 5)%Q /\ (5 <= 3501 # 100)%Q /\
  forall e : Nearby.t,
    In e (nearby_of (run (@get_nearby_locations sample_platform 1 args_kyoto)
                         db_kinkakuji)) ->
    In e (nearby_of (run (@get_nearby_locations sample_platform 1
                            args_kyoto_wide) db_kinkakuji)).
Proof.
  assert (Hpos : (0 < 5)%Q) by reflexivity.
  assert (Hle : (5 <= 3501 # 100)%Q) by (apply Qle_bool_iff; reflexivity).
  split; [exact Hpos|]. split; [exact Hle|].
  exact (@nearby_grows_with_radius sample_platform db_kinkakuji 1
           args_kyoto args_kyoto_wide (3501 # 100) (13571 # 100)
           5 (3501 # 100)
           eq_refl eq_refl eq_refl eq_refl eq_refl eq_refl eq_refl eq_refl
           Hpos Hle).
Defined.

(** A search without a latitude, and one with a radius of 0. *)
Lemma nearby_rejects_bad_parameters_witness :
  run (@get_nearby_locations sample_platform 1 [("longitude", "0")])
      db_kinkakuji
  = ((Error "Invalid parameters", 400), db_kinkakuji) /\
  run (@get_nearby_locations sample_platform 1
         [("latitude", "0"); ("longitude", "0"); ("radius", "0")])
      db_kinkakuji
  = ((Error "Invalid coordinates or radius", 400), db_kinkakuji).
Proof.
  split.
  - apply (proj1 (@nearby_rejects_bad_parameters sample_platform
                    db_kinkakuji 1 [("longitude", "0")])).
    intros lat lng radius [Hlat _]. simpl in Hlat. discriminate Hlat.
  - apply (proj2 (@nearby_rejects_bad_parameters sample_platform
                    db_kinkakuji 1
                    [("latitude", "0"); ("longitude", "0"); ("radius", "0")])
                 (Finite 0) (Finite 0) (Finite 0)
                 eq_refl eq_refl eq_refl).
    right. right. reflexivity.
Defined.

(** The search from the origin over the two locations on the equator,
    with a radius of NaN and a radius of infinity. *)
Lemma nearby_radius_nan_or_infinite_witness :
  NoDup (map Trip.id (trips db_equator)) /\
  @computes sample_platform 0 0 (distance_to 0 0)
            (owned_locations db_equator 1) /\
  run (@get_nearby_locations sample_platform 1 args_origin_nan) db_equator
  = ((NearbyResult 0 0 NaN [] 0, 200), db_equator) /\
  exists nearby,
    run (@get_nearby_locations sample_platform 1 args_origin_inf) db_equator
    = ((NearbyResult 0 0 PosInf nearby 2, 200), db_equator) /\
    Permutation nearby
      (map (entry_at (distance_to 0 0)) [loc_east; loc_origin]).
Proof.
  assert (Hnd : NoDup (map Trip.id (trips db_equator)))
    by (repeat constructor; simpl; tauto).
  pose proof (sample_computes 0 0 (owned_locations db_equator 1)) as Hc.
  split; [exact Hnd|]. split; [exact Hc|]. split.
  - exact (proj1 (@nearby_radius_nan_or_infinite sample_platform db_equator
                    1 args_origin_nan 0 0 NaN (distance_to 0 0) Hnd
                    eq_refl eq_refl eq_refl eq_refl eq_refl Hc) eq_refl).
  - exact (proj2 (@nearby_radius_nan_or_infinite sample_platform db_equator
                    1 args_origin_inf 0 0 PosInf (distance_to 0 0) Hnd
                    eq_refl eq_refl eq_refl eq_refl eq_refl Hc) eq_refl).
Defined.

Lemma off_platform_raises (lat lng : Q) (l : Location.t) :
  @computed_distance off_platform lat lng l = Raise ValueError.
Proof.
  unfold computed_distance, haversine_distance_binary64, py_sqrt, py_asin.
  cbn [fl_add fl_sub fl_mul fl_div fl_square fl_radians fl_sin fl_cos
       fl_sqrt fl_asin off_platform finite].
  cbv zeta.
  match goal with
  | |- context [Rlt_dec ?a 0] =>
      assert (Ha : (0 <= a <= 1)%R) by apply haversine_argument_unit;
      set (hav := a) in *
  end.
  pose proof (sqrt_pos hav) as Hlo.
  destruct (Rlt_dec hav 0); [lra|]. cbn [rbind].
  destruct (Rlt_dec (sqrt hav + 2) (-1)); [lra|].
  destruct (Rlt_dec 1 (sqrt hav + 2)); [reflexivity|lra].
Qed.

(** On a platform whose square root is off, the search from the origin
    over the two locations on the equator. *)
Lemma nearby_domain_error_is_invalid_parameters_witness :
  run (@get_nearby_locations off_platform 1 args_origin) db_equator
  = ((Error "Invalid parameters", 400), db_equator).
Proof.
  assert (Hnd : NoDup (map Trip.id (trips db_equator)))
    by (repeat constructor; simpl; tauto).
  assert (Hin : In loc_east (owned_locations db_equator 1))
    by (left; reflexivity).
  exact (@nearby_domain_error_is_invalid_parameters off_platform db_equator
           1 args_origin 0 0 10 loc_east ValueError Hnd
           eq_refl eq_refl eq_refl eq_refl eq_refl eq_refl Hin
           (off_platform_raises 0 0 loc_east)).
Defined.

Lemma nearby_default_radius_is_10_witness :
  run (@get_nearby_locations decimal_platform 1 args_origin) db_equator
  = run (@get_nearby_locations decimal_platform 1
           (args_origin ++ [("radius", "10")])) db_equator.
Proof.
  apply (@nearby_default_radius_is_10 decimal_platform db_equator 1
           args_origin "10"); [|reflexivity].
  intros v [Hv|[Hv|[]]]; discriminate Hv.
Defined.


Lemma bulk_add_locations_wants_a_list_witness :
  run (@bulk_add_locations sample_platform 1 1 (VList [])) db_kyoto
  = ((Error "Invalid data format. Expected list of locations", 400),
     db_kyoto).
Proof.
  assert (Hf : find (owned_trip 1 1) (trips db_kyoto)
               = Some (Trip.mk 1 (VStr "Kyoto") (mkDate 2024 5 1)
                               (mkDate 2024 5 10) 1))
    by (rewrite db_kyoto_eq; reflexivity).
  apply (@bulk_add_locations_wants_a_list sample_platform db_kyoto 1 1 _
           (VList []) Hf).
  right. reflexivity.
Defined.

(** A trip without dates, and one that starts on "tomorrow". *)
Lemma create_trip_rejections_witness :
  run (@create_trip sample_platform 1 (VDict [("destination", VStr "Kyoto")]))
      db_kyoto
  = ((Error "Missing required trip fields", 400), db_kyoto) /\
  run (@create_trip sample_platform 1
         (VDict [("destination", VStr "Kyoto");
                 ("start_date", VStr "tomorrow");
                 ("end_date", VStr "2024-05-10")]))
      db_kyoto
  = ((Error "Invalid date format. Use YYYY-MM-DD", 400), db_kyoto).
Proof.
  split.
  - apply (proj1 (@create_trip_rejections sample_platform db_kyoto 1
                    [("destination", VStr "Kyoto")])).
    right. left. reflexivity.
  - exact (proj1 (proj2 (@create_trip_rejections sample_platform db_kyoto 1
                    [("destination", VStr "Kyoto");
                     ("start_date", VStr "tomorrow");
                     ("end_date", VStr "2024-05-10")]))
                 (VStr "Kyoto") (VStr "2024-05-10") "tomorrow"
                 eq_refl eq_refl eq_refl eq_refl).
Defined.

(* ================================================================== *)
(** * Partial updates *)

Section Atomicity.
Context `{Platform}.

(** An update of a trip by its owner, with an object whose dates parse
    and leave the trip ordered, in a store that accepts the commit. *)
Lemma update_trip_succeeds db uid tid kv t :
  NoDup (map Trip.id (trips db)) ->
  find (owned_trip tid uid) (trips db) = Some t ->
  kv <> [] ->
  date_valid "start_date" (VDict kv) = true ->
  date_valid "end_date" (VDict kv) = true ->
  dates_ordered (patched_trip (VDict kv) t) ->
  commit_ok (rewrite_trip (patched_trip (VDict kv)) tid db) = true ->
  run (update_trip uid tid (VDict kv)) db
  = ((TripUpdated (patched_trip (VDict kv) t), 200),
     rewrite_trip (patched_trip (VDict kv)) tid db).
Proof.
  intros Hnd Hf Hkv Hs He Ho Hc.
  destruct (query_trip_found _ _ _ _ Hf) as (Hin & Hid & Hu).
  assert (Ht : truthy (VDict kv) = true) by (destruct kv; [easy|reflexivity]).
  destruct (run (update_trip uid tid (VDict kv)) db) as [resp db'] eqn:E.
  unfold update_trip in E.
  unfold date_valid, patched_trip, provided, dates_ordered, rewrite_trip in *.
  cbn [Trip.start_date Trip.end_date contains getitem] in *.
  unfold_monad_in E. rewrite Hf, Ht in E.
  cbn [negb contains getitem] in E.
  subst tid.
  destruct db as [ts ls]; cbn [trips locations] in *.
  destruct (lookup "destination" kv), (lookup "start_date" kv),
    (lookup "end_date" kv);
    revert Hs He Ho Hc;
    execute_in E; injection E as <- <-; intros Hs He Ho Hc;
    cbn [with_destination with_start_date with_end_date
         Trip.id Trip.destination Trip.user_id
         Trip.start_date Trip.end_date] in *;
    try discriminate; try congruence.
  all: match goal with
       | Hb : commit_ok ?d1 = _, Hc' : commit_ok ?d2 = true |- _ =>
           assert (EQ : d1 = d2)
             by (cbn [trips locations]; same_rows Hnd Hin)
       end.
  all: try congruence.
  all: try (rewrite <- EQ; reflexivity).
  rewrite trip_eta, <- EQ. reflexivity.
Qed.

(** The same for a location and its coordinates. *)
Lemma update_location_succeeds db uid kv l :
  unique_keys db ->
  In l (locations db) -> owned_by db uid l = true ->
  kv <> [] ->
  coordinate_valid "latitude" lat_in_range (VDict kv) = true ->
  coordinate_valid "longitude" lng_in_range (VDict kv) = true ->
  commit_ok (rewrite_location (patched_location (VDict kv)) (Location.id l) db)
  = true ->
  run (update_location uid (Location.id l) (VDict kv)) db
  = ((LocationUpdated (patched_location (VDict kv) l), 200),
     rewrite_location (patched_location (VDict kv)) (Location.id l) db).
Proof.
  intros Hu Hin Ho Hkv Hla Hln Hc.
  pose proof (query_location_owner db uid l Hu Hin Ho) as Hq.
  destruct Hu as [_ Hnd].
  assert (Ht : truthy (VDict kv) = true) by (destruct kv; [easy|reflexivity]).
  destruct (run (update_location uid (Location.id l) (VDict kv)) db)
    as [resp db'] eqn:E.
  unfold update_location, update_location_fields in E.
  unfold coordinate_valid, patched_location, provided, rewrite_location in *.
  cbn [contains getitem] in *.
  unfold_monad_in E. rewrite Hq, Ht in E.
  cbn [negb contains getitem] in E.
  destruct db as [ts ls]; cbn [trips locations] in *.
  destruct (lookup "name" kv), (lookup "latitude" kv),
    (lookup "longitude" kv);
    revert Hla Hln Hc;
    execute_in E; injection E as <- <-; intros Hla Hln Hc;
    cbn [with_name with_latitude with_longitude
         Location.id Location.name Location.latitude Location.longitude
         Location.trip_id] in *;
    try discriminate; try congruence.
  all: try match goal with
           | Hb : negb ?b = true, Hr : ?b = true |- _ =>
               rewrite Hr in Hb; discriminate Hb
           end.
  all: match goal with
       | Hb : commit_ok ?d1 = _, Hc' : commit_ok ?d2 = true |- _ =>
           assert (EQ : d1 = d2)
             by (cbn [trips locations]; same_rows Hnd Hin)
       end.
  all: try congruence.
  all: try (rewrite <- EQ; reflexivity).
  rewrite location_eta, <- EQ. reflexivity.
Qed.

(** C6. An update of a trip or of a location, in a store with unique
    keys.  Unless the answer is 200 the store is unchanged.  When it is
    200 every date or coordinate of the body was valid, and the store is
    the old one with the row of that key rewritten: the fields the body
    provides take its values (a destination or a name as the text the
    column holds for it) and the other fields keep theirs.  And the
    answer is 200, with the rewritten row, whenever the owner sends an
    object that is not empty, whose dates parse and leave the trip
    ordered, or whose coordinates are numbers in range, and the store
    accepts the commit. *)
Theorem partial_update_is_atomic (db : DB) (uid key : Z) (data : value) :
  unique_keys db ->
  (let (resp, db') := run (update_trip uid key data) db in
   (snd resp <> 200 -> db' = db) /\
   (snd resp = 200 ->
    date_valid "start_date" data = true /\
    date_valid "end_date" data = true /\
    db' = rewrite_trip (patched_trip data) key db)) /\
  (let (resp, db') := run (update_location uid key data) db in
   (snd resp <> 200 -> db' = db) /\
   (snd resp = 200 ->
    coordinate_valid "latitude" lat_in_range data = true /\
    coordinate_valid "longitude" lng_in_range data = true /\
    db' = rewrite_location (patched_location data) key db)) /\
  (forall kv t,
      data = VDict kv -> kv <> [] ->
      In t (trips db) -> Trip.id t = key -> Trip.user_id t = uid ->
      date_valid "start_date" data = true ->
      date_valid "end_date" data = true ->
      dates_ordered (patched_trip data t) ->
      commit_ok (rewrite_trip (patched_trip data) key db) = true ->
      run (update_trip uid key data) db
      = ((TripUpdated (patched_trip data t), 200),
         rewrite_trip (patched_trip data) key db)) /\
  (forall kv l,
      data = VDict kv -> kv <> [] ->
      In l (locations db) -> Location.id l = key ->
      owned_by db uid l = true ->
      coordinate_valid "latitude" lat_in_range data = true ->
      coordinate_valid "longitude" lng_in_range data = true ->
      commit_ok (rewrite_location (patched_location data) key db) = true ->
      run (update_location uid key data) db
      = ((LocationUpdated (patched_location data l), 200),
         rewrite_location (patched_location data) key db)).
Proof.
  intros Hu. pose proof Hu as [Hnt Hnl]. split; [|split; [|split]].
  - destruct (run (update_trip uid key data) db) as [resp db'] eqn:E.
    destruct (update_trip_runs _ _ _ _ _ _ Hnt E) as [Hfail Hok].
    split; [exact Hfail|]. intros H200.
    destruct (Hok H200) as (Hs & He & Hdb & _). auto.
  - destruct (run (update_location uid key data) db) as [resp db'] eqn:E.
    exact (update_location_runs _ _ _ _ _ _ Hnl E).
  - intros kv t -> Hkv Hin <- <- Hs He Ho Hc.
    apply update_trip_succeeds; try assumption.
    now apply find_owned_trip.
  - intros kv l -> Hkv Hin <- Ho Hla Hln Hc.
    now apply update_location_succeeds.
Qed.

End Atomicity.

(** Four updates by user 1 of the Kyoto trip and of its location.  A new
    name with a latitude of 200: rejected, the name is not changed.  The
    number 123 as the name: stored as the text "123".  An end date before
    the start: rejected.  A start date a month earlier: stored. *)
Lemma partial_update_is_atomic_witness :
  unique_keys db_kinkakuji /\
  run (@update_location sample_platform 1 1 rename_and_misplace) db_kinkakuji
  = ((Error "Invalid latitude", 400), db_kinkakuji) /\
  run (@update_location sample_platform 1 1 rename_to_number) db_kinkakuji
  = ((LocationUpdated
        (Location.mk 1 (VStr "123") (350 # 10) (1357 # 10) 1), 200),
     mkDB (trips db_kinkakuji)
          [Location.mk 1 (VStr "123") (350 # 10) (1357 # 10) 1]) /\
  snd (run (@update_trip sample_platform 1 1 end_in_april) db_kinkakuji)
  = db_kinkakuji /\
  run (@update_trip sample_platform 1 1 start_in_april) db_kinkakuji
  = ((TripUpdated
        (Trip.mk 1 (VStr "Kyoto") (mkDate 2024 4 1) (mkDate 2024 5 10) 1),
      200),
     mkDB [Trip.mk 1 (VStr "Kyoto") (mkDate 2024 4 1) (mkDate 2024 5 10) 1]
          (locations db_kinkakuji)).
Proof.
  pose proof unique_keys_db_kinkakuji as Hu.
  pose proof db_kinkakuji_eq as Hdb.
  split; [exact Hu|]. split; [|split; [|split]].
  - destruct (@partial_update_is_atomic sample_platform db_kinkakuji 1 1
                rename_and_misplace Hu) as (_ & Hl & _).
    destruct (run (@update_location sample_platform 1 1 rename_and_misplace)
                  db_kinkakuji) as [resp db'] eqn:E.
    destruct Hl as [Hfail _].
    assert (Hr : resp = (Error "Invalid latitude", 400))
      by (apply (f_equal fst) in E; vm_compute in E; now symmetry).
    rewrite Hfail; [now rewrite Hr|]. rewrite Hr. simpl. lia.
  - destruct (@partial_update_is_atomic sample_platform db_kinkakuji 1 1
                rename_to_number Hu) as (_ & _ & _ & Hl).
    rewrite (Hl [("name", VInt 123)] loc_kinkakuji eq_refl);
      try reflexivity; try discriminate.
    rewrite Hdb. left. reflexivity.
  - destruct (@partial_update_is_atomic sample_platform db_kinkakuji 1 1
                end_in_april Hu) as (Ht & _).
    destruct (run (@update_trip sample_platform 1 1 end_in_april)
                  db_kinkakuji) as [resp db'] eqn:E.
    destruct Ht as [Hfail _].
    assert (Hr : snd resp = 400)
      by (apply (f_equal (fun p => snd (fst p))) in E; vm_compute in E;
          now symmetry).
    simpl. apply Hfail. rewrite Hr. lia.
  - destruct (@partial_update_is_atomic sample_platform db_kinkakuji 1 1
                start_in_april Hu) as (_ & _ & Ht & _).
    rewrite (Ht [("start_date", VStr "2024-04-01")]
                (Trip.mk 1 (VStr "Kyoto") (mkDate 2024 5 1)
                         (mkDate 2024 5 10) 1) eq_refl);
      try reflexivity; try discriminate.
    rewrite Hdb. left. reflexivity.
Defined.
